(** * Savegame writer of the client (client/savegame2.c)

    A shallow embedding of the save side of the version-2 savegame format:
    the per-enum character tables, the half-byte packing helpers, the map
    line macros, the worklist and unit-ordering helpers, and the chain of
    [sg_save_*] stages driven by [savegame2_save_real]. *)

From Stdlib Require Import ZArith Ascii String List Lia Bool.
From stdpp Require Import base list gmap strings pretty.

Open Scope Z_scope.

(** ** Characters and formatted paths *)

(** [hex_chars] and [num_chars], the two alphabets of the file. *)
Definition hex_chars : string := "0123456789abcdef".
Definition num_chars : string :=
  "0123456789abcdefghijklmnopqrstuvwxyzABCDEFGHIJKLMNOPQRSTUVWXYZ_-+".

(** Reading [s[n]] for a C string constant; [None] is a read past the end. *)
Definition char_at (s : string) (n : Z) : option ascii :=
  if n <? 0 then None else String.get (Z.to_nat n) s.

(** [s[n]] as the C expression yields it; a read past the end of the
    constant is modelled by the NUL character (the properties below show that
    the half-byte helpers never make one). *)
Definition string_index (s : string) (n : Z) : ascii :=
  default "000"%char (char_at s n).

Definition char_code (c : ascii) : Z := Z.of_N (N_of_ascii c).

(** Modelled from the spec: [fc_isprint] lives in utility/support.c, which is
    not part of the sources at hand; it is the printable-character check of
    the C locale (codes 0x20 to 0x7e). *)
Definition fc_isprint (code : Z) : bool := (32 <=? code) && (code <=? 126).

(** The test [fc_isprint(c & 0x7f)] made by [SAVE_MAP_CHAR]. *)
Definition map_char_ok (c : ascii) : bool :=
  fc_isprint (Z.land (char_code c) 127).

(** ** Encoding tables *)

(** The enumerations are declared in common/unit.h and common/fc_types.h;
    their members are the case labels of the three switches below. *)
Inductive unit_orders :=
| ORDER_MOVE | ORDER_FULL_MP | ORDER_ACTIVITY | ORDER_BUILD_CITY
| ORDER_DISBAND | ORDER_BUILD_WONDER | ORDER_TRADE_ROUTE | ORDER_HOMECITY
| ORDER_LAST.

Inductive direction8 :=
| DIR8_NORTH | DIR8_SOUTH | DIR8_EAST | DIR8_WEST
| DIR8_NORTHEAST | DIR8_NORTHWEST | DIR8_SOUTHEAST | DIR8_SOUTHWEST.

Inductive unit_activity :=
| ACTIVITY_IDLE | ACTIVITY_POLLUTION | ACTIVITY_OLD_ROAD | ACTIVITY_MINE
| ACTIVITY_IRRIGATE | ACTIVITY_FORTIFIED | ACTIVITY_FORTRESS | ACTIVITY_SENTRY
| ACTIVITY_OLD_RAILROAD | ACTIVITY_PILLAGE | ACTIVITY_GOTO | ACTIVITY_EXPLORE
| ACTIVITY_TRANSFORM | ACTIVITY_AIRBASE | ACTIVITY_FORTIFYING | ACTIVITY_FALLOUT
| ACTIVITY_BASE | ACTIVITY_GEN_ROAD | ACTIVITY_CONVERT
| ACTIVITY_UNKNOWN | ACTIVITY_PATROL_UNUSED
| ACTIVITY_LAST.

Global Instance unit_orders_eq_dec : EqDecision unit_orders.
Proof. solve_decision. Defined.
Global Instance direction8_eq_dec : EqDecision direction8.
Proof. solve_decision. Defined.
Global Instance unit_activity_eq_dec : EqDecision unit_activity.
Proof. solve_decision. Defined.

(** [order2char]: [ORDER_LAST] leaves the switch, trips [fc_assert(FALSE)]
    (a logged assertion, execution goes on) and yields ['?']. *)
Definition order2char (order : unit_orders) : ascii :=
  match order with
  | ORDER_MOVE => "m"
  | ORDER_FULL_MP => "w"
  | ORDER_ACTIVITY => "a"
  | ORDER_BUILD_CITY => "b"
  | ORDER_DISBAND => "d"
  | ORDER_BUILD_WONDER => "u"
  | ORDER_TRADE_ROUTE => "t"
  | ORDER_HOMECITY => "h"
  | ORDER_LAST => "?"
  end%char.

(** [dir2char]: number-pad values for the directions. *)
Definition dir2char (dir : direction8) : ascii :=
  match dir with
  | DIR8_NORTH => "8"
  | DIR8_SOUTH => "2"
  | DIR8_EAST => "6"
  | DIR8_WEST => "4"
  | DIR8_NORTHEAST => "9"
  | DIR8_NORTHWEST => "7"
  | DIR8_SOUTHEAST => "3"
  | DIR8_SOUTHWEST => "1"
  end%char.

(** [activity2char]: the two compatibility members share one case and are
    returned as ['?'] without an assertion; [ACTIVITY_LAST] asserts. *)
Definition activity2char (activity : unit_activity) : ascii :=
  match activity with
  | ACTIVITY_IDLE => "w"
  | ACTIVITY_POLLUTION => "p"
  | ACTIVITY_OLD_ROAD => "r"
  | ACTIVITY_MINE => "m"
  | ACTIVITY_IRRIGATE => "i"
  | ACTIVITY_FORTIFIED => "f"
  | ACTIVITY_FORTRESS => "t"
  | ACTIVITY_SENTRY => "s"
  | ACTIVITY_OLD_RAILROAD => "l"
  | ACTIVITY_PILLAGE => "e"
  | ACTIVITY_GOTO => "g"
  | ACTIVITY_EXPLORE => "x"
  | ACTIVITY_TRANSFORM => "o"
  | ACTIVITY_AIRBASE => "a"
  | ACTIVITY_FORTIFYING => "y"
  | ACTIVITY_FALLOUT => "u"
  | ACTIVITY_BASE => "b"
  | ACTIVITY_GEN_ROAD => "R"
  | ACTIVITY_CONVERT => "c"
  | ACTIVITY_UNKNOWN | ACTIVITY_PATROL_UNUSED => "?"
  | ACTIVITY_LAST => "?"
  end%char.

(** A value is valid for saving when it is a member of the enumeration
    proper, that is, not the [*_LAST] count marker. *)
Definition order_valid (o : unit_orders) : Prop := o <> ORDER_LAST.
Definition activity_valid (a : unit_activity) : Prop := a <> ACTIVITY_LAST.

(** The members kept only for savegame compatibility. *)
Definition activity_legacy (a : unit_activity) : Prop :=
  a = ACTIVITY_UNKNOWN \/ a = ACTIVITY_PATROL_UNUSED.

(** [num2char]: works for values up to the length of [num_chars]. The
    parameter is an [unsigned int] and the callers pass [int]s: a negative
    one is converted to a number above every index of [num_chars], for which
    the test holds. *)
Definition num2char (num : Z) : ascii :=
  if (num <? 0) || (num >=? Z.of_nat (String.length num_chars))
  then "?"%char
  else string_index num_chars num.

(** ** Half-byte packing *)

(** Modelled from the spec: bit vectors come from utility/bitvector.h, which
    is not part of the sources at hand. A bit vector is represented by its
    membership test, which is all the savegame code asks of it. *)
Definition bv : Type := Z -> bool.
Definition BV_ISSET (b : bv) (bit : Z) : bool := b bit.

(** [contains_special] (common/terrain.c) is the same test on the specials
    vector. *)
Definition contains_special (specials : bv) (sp : Z) : bool :=
  BV_ISSET specials sp.

(** A window is the four-slot array [index] / [mod]. *)
Definition slot (index : list Z) (i : Z) : Z := nth (Z.to_nat i) index 0.

(** The loop shared, word for word, by the three helpers:
    [for (i = 0; i < 4; i++) { v = index[i]; if (stop v) break;
       if (isset v) bin |= (1 << i); }]
    [n] counts the iterations left. *)
Fixpoint halfbyte_loop (stop isset : Z -> bool) (index : list Z)
         (n : nat) (i bin : Z) : Z :=
  match n with
  | O => bin
  | S n' =>
      let v := slot index i in
      if stop v then bin
      else halfbyte_loop stop isset index n' (i + 1)
             (if isset v then Z.lor bin (Z.shiftl 1 i) else bin)
  end.

(** The value of [bin] when the loop of [sg_special_get] ends; [S_LAST] is
    the number of special types (common/terrain.h). *)
Definition sg_special_bin (S_LAST : Z) (specials : bv) (index : list Z) : Z :=
  halfbyte_loop (fun sp => sp >=? S_LAST)
    (contains_special specials) index 4 0 0.

Definition sg_special_get (S_LAST : Z) (specials : bv) (index : list Z)
  : ascii :=
  string_index hex_chars (sg_special_bin S_LAST specials index).

Definition sg_bases_bin (bases : bv) (index : list Z) : Z :=
  halfbyte_loop (fun base => base <? 0) (BV_ISSET bases) index 4 0 0.

Definition sg_bases_get (bases : bv) (index : list Z) : ascii :=
  string_index hex_chars (sg_bases_bin bases index).

Definition sg_roads_bin (roads : bv) (index : list Z) : Z :=
  halfbyte_loop (fun road => road <? 0) (BV_ISSET roads) index 4 0 0.

Definition sg_roads_get (roads : bv) (index : list Z) : ascii :=
  string_index hex_chars (sg_roads_bin roads index).

(** [bin2ascii_hex(value, halfbyte_wanted)]. *)
Definition bin2ascii_hex (value halfbyte_wanted : Z) : ascii :=
  string_index hex_chars
    (Z.land (Z.shiftr value (halfbyte_wanted * 4)) 15).

(** [halfbyte_iterate_*(j, num)]: [for (j = 0; 4 * j < num; j++)]; the loop
    runs at most [num] times, which bounds the recursion. *)
Fixpoint halfbyte_iterate_from (fuel : nat) (num j : Z) : list Z :=
  match fuel with
  | O => []
  | S fuel' =>
      if 4 * j <? num then j :: halfbyte_iterate_from fuel' num (j + 1)
      else []
  end.

Definition halfbyte_iterate (num : Z) : list Z :=
  halfbyte_iterate_from (Z.to_nat num) num 0.

(** The window [mod] of [sg_save_map_tiles_bases]:
    [if (4 * j + 1 > num_base_types) mod[l] = -1; else mod[l] = 4 * j + l;] *)
Definition bases_mod (num_base_types j : Z) : list Z :=
  (fun l => if 4 * j + 1 >? num_base_types then -1 else 4 * j + l)
    <$> seqZ 0 4.

(** The window of [sg_save_map_tiles_roads], written the same way. *)
Definition roads_mod (num_road_types j : Z) : list Z :=
  (fun l => if 4 * j + 1 >? num_road_types then -1 else 4 * j + l)
    <$> seqZ 0 4.

(** The window of [sg_save_map_tiles_specials]; [S_OLD_RIVER] is the one
    special kept by the rivers overlay. *)
Definition specials_mod (S_LAST S_OLD_RIVER : Z) (rivers_overlay : bool)
           (j : Z) : list Z :=
  (fun l =>
     if rivers_overlay
     then (if 4 * j + l =? S_OLD_RIVER then S_OLD_RIVER else S_LAST)
     else Z.min (4 * j + l) S_LAST)
    <$> seqZ 0 4.

(** ** Terrain and resource identifiers *)

(** A terrain or resource is known to this file by its untranslated rule
    name only; [None] is the NULL pointer ([T_UNKNOWN], no resource). *)
Definition terrain2char (pterrain : option string) : ascii :=
  match pterrain with
  | None => "i"
  | Some name =>
      if String.eqb name "Inaccessible" then "i"
      else if String.eqb name "Lake" then "+"
      else if String.eqb name "Ocean" then " "
      else if String.eqb name "Deep Ocean" then ":"
      else if String.eqb name "Glacier" then "a"
      else if String.eqb name "Desert" then "d"
      else if String.eqb name "Forest" then "f"
      else if String.eqb name "Grassland" then "g"
      else if String.eqb name "Hills" then "h"
      else if String.eqb name "Jungle" then "j"
      else if String.eqb name "Mountains" then "m"
      else if String.eqb name "Plains" then "p"
      else if String.eqb name "Swamp" then "s"
      else if String.eqb name "Tundra" then "t"
      else " "
  end%char.

(** [RESOURCE_NONE_IDENTIFIER] is a constant of common/terrain.h. *)
Definition resource2char (RESOURCE_NONE_IDENTIFIER : ascii)
           (presource : option string) : ascii :=
  match presource with
  | None => RESOURCE_NONE_IDENTIFIER
  | Some name =>
      if String.eqb name "Gold" then "$"
      else if String.eqb name "Iron" then "/"
      else if String.eqb name "?animals:Game" then "e"
      else if String.eqb name "Furs" then "u"
      else if String.eqb name "Coal" then "c"
      else if String.eqb name "Fish" then "y"
      else if String.eqb name "Fruit" then "f"
      else if String.eqb name "Gems" then "g"
      else if String.eqb name "Buffalo" then "b"
      else if String.eqb name "Wheat" then "j"
      else if String.eqb name "Oasis" then "o"
      else if String.eqb name "Peat" then "a"
      else if String.eqb name "Pheasant" then "p"
      else if String.eqb name "Resources" then "r"
      else if String.eqb name "Ivory" then "i"
      else if String.eqb name "Silk" then "s"
      else if String.eqb name "Spice" then "t"
      else if String.eqb name "Whales" then "v"
      else if String.eqb name "Wine" then "w"
      else if String.eqb name "Oil" then "x"
      else " "
  end%char.

(** ** Formatted text *)

(** [%d]. *)
Definition fmt_d (n : Z) : string := pretty n.

Fixpoint zeros (n : nat) : string :=
  match n with O => "" | S n' => String "0" (zeros n') end.

(** [%0<width>d]: the sign first, then zeros up to the field width. *)
Definition fmt_0d (width : nat) (n : Z) : string :=
  if n <? 0
  then
    let digits := pretty (- n) in
    "-" +:+ zeros (width - 1 - String.length digits) +:+ digits
  else
    let digits := pretty n in
    zeros (width - String.length digits) +:+ digits.

(** [fc_snprintf(buf, size, ...)] keeps at most [size - 1] characters. *)
Definition fc_snprintf (size : nat) (text : string) : string :=
  String.substring 0 (size - 1) text.

Definition TOKEN_SIZE : nat := 10.

(** A one-character string, and a string made of the given characters. *)
Definition char_str (c : ascii) : string := String c "".
Definition chars (l : list ascii) : string := string_of_list_ascii l.

(** A ['1']/['0'] vector over the indices [0 .. n-1]. *)
Definition bit_string (n : Z) (f : Z -> bool) : string :=
  chars ((fun i => if f i then "1" else "0")%char <$> seqZ 0 n).

(** ** The section file *)

(** Modelled from the spec: the registry (utility/registry.h and
    registry_ini.c) is not part of the sources at hand; the savegame code
    uses it through its insert, replace and lookup calls only. The spec
    describes the document as an ordered collection of sections, each a
    mapping from a path to a value. A section file is represented by its
    entries in the order of their insertion: [secfile_insert] puts the entry
    at the end, [secfile_replace] overwrites the value of the first entry
    with the path or inserts one, [secfile_lookup] returns the value of the
    first entry with the path. What the registry does with a path that is
    inserted a second time is not part of the model: here the second entry
    stays behind the first, and a lookup does not find it. *)
Inductive value :=
| VInt (n : Z)
| VBool (b : bool)
| VStr (s : string)
| VStrVec (v : list string).

Definition entry : Type := string * value.
Definition section_file : Type := list entry.

(** Modelled from the spec: [secfile_insert_int], [secfile_insert_bool],
    [secfile_insert_str] and [secfile_insert_str_vec] of the registry; the
    entry goes to the end of the file. *)
Definition secfile_insert (v : value) (path : string) (f : section_file)
  : section_file := f ++ [(path, v)].

(** Modelled from the spec: [secfile_replace_str] of the registry; the value
    of the entry with the path is overwritten in place, or the entry is
    inserted when there is none. *)
Fixpoint secfile_replace (v : value) (path : string) (f : section_file)
  : section_file :=
  match f with
  | [] => [(path, v)]
  | (p, old) :: f' =>
      if String.eqb p path then (p, v) :: f'
      else (p, old) :: secfile_replace v path f'
  end.

(** Modelled from the spec: [secfile_lookup_str] and its like of the
    registry; the value found under the path, if any. *)
Fixpoint secfile_lookup (f : section_file) (path : string) : option value :=
  match f with
  | [] => None
  | (p, v) :: f' =>
      if String.eqb p path then Some v else secfile_lookup f' path
  end.

Definition secfile_lookup_str (f : section_file) (path : string)
  : option string :=
  match secfile_lookup f path with
  | Some (VStr s) => Some s
  | _ => None
  end.

Definition entry_keys (f : section_file) : list string := fst <$> f.

(** ** The game as the writer reads it *)

(** Constants and rule-set tables of headers that are not part of the
    sources at hand (common/terrain.h, common/worklist.h, common/fc_types.h,
    common/tech.h, common/improvement.h, version.h, ...), taken as
    parameters. *)
Record consts := {
  S_LAST : Z;
  S_OLD_RIVER : Z;
  RESOURCE_NONE_IDENTIFIER : ascii;
  MAX_LEN_WORKLIST : Z;
  MAX_NUM_ITEMS : Z;
  ACTIVITY_LAST_count : Z;
  TRAIT_COUNT : Z;
  CITYO_LAST : Z;
  MAX_TRADE_ROUTES : Z;
  NUM_SS_STRUCTURALS : Z;
  SP_COUNT : Z;
  SSHIP_NONE : Z;
  SSHIP_LAUNCHED : Z;
  A_NONE : Z;
  A_FUTURE : Z;
  A_UNSET : Z;
  A_UNKNOWN : Z;
  I_NEVER : Z;
  BASE_NONE : Z;
  ROAD_NONE : Z;
  MAJOR_VERSION : Z;
  MINOR_VERSION : Z;
  PATCH_VERSION : Z;
  unit_activity_name : Z -> string;
  trait_name : Z -> string;
  special_rule_name : Z -> string;
  specialist_rule_name : Z -> string
}.

(** [struct universal], seen through [universal_type_rule_name] and
    [universal_rule_name]. *)
Record universal := {
  type_rule_name : string;
  rule_name : string
}.

(** [struct worklist]: [length] and the array [entries]. *)
Record worklist := {
  wl_length : Z;
  wl_entries : list universal
}.

Definition universal_none : universal :=
  {| type_rule_name := ""; rule_name := "" |}.

Definition worklist_entry (pwl : worklist) (i : Z) : universal :=
  nth (Z.to_nat i) (wl_entries pwl) universal_none.

(** [enum act_tgt_type] and [struct act_tgt]. *)
Inductive act_tgt_type := ATT_SPECIAL | ATT_BASE | ATT_ROAD.

Record act_tgt := {
  tgt_type : act_tgt_type;
  tgt_obj : Z
}.

Record unit_order := {
  uo_order : unit_orders;
  uo_dir : direction8;
  uo_activity : unit_activity;
  uo_base : Z;
  uo_road : Z
}.

(** The fields of [struct unit] that the writer reads and never changes. *)
Record unit_data := {
  u_id : Z;
  u_tile : Z;
  u_facing : direction8;
  u_nationality : Z;
  u_veteran : Z;
  u_hp : Z;
  u_homecity : Z;
  u_rule_name : string;
  u_activity : Z;
  u_activity_count : Z;
  u_activity_target : act_tgt;
  u_changed_from : Z;
  u_changed_from_count : Z;
  u_changed_from_target : act_tgt;
  u_done_moving : bool;
  u_moves_left : Z;
  u_fuel : Z;
  u_birth_turn : Z;
  u_battlegroup : Z;
  u_goto_tile : option Z;
  u_ai_controlled : bool;
  u_moved : bool;
  u_paradropped : bool;
  u_transporter : option Z;
  u_has_orders : bool;
  u_orders : list unit_order;
  u_orders_index : Z;
  u_orders_repeat : bool;
  u_orders_vigilant : bool;
  u_last_order_move_is_safe : bool;
  u_ai_entries : string -> list entry
}.

(** A unit: its data and the two ordinals [server.ord_map] and
    [server.ord_city], which [unit_ordering_calc] assigns. *)
Record unit := {
  u_data : unit_data;
  ord_map : Z;
  ord_city : Z
}.

Record city := {
  c_center : Z;
  c_id : Z;
  c_original : Z;
  c_size : Z;
  c_specialists : Z -> Z;
  c_trade : Z -> Z;
  c_food_stock : Z;
  c_shield_stock : Z;
  c_airlift : Z;
  c_was_happy : bool;
  c_turn_plague : Z;
  c_anarchy : Z;
  c_rapture : Z;
  c_steal : Z;
  c_turn_founded : Z;
  c_did_buy : bool;
  c_did_sell : bool;
  c_turn_last_built : Z;
  c_name : string;
  c_production : universal;
  c_changed_from : universal;
  c_before_change_shields : Z;
  c_caravan_shields : Z;
  c_disbanded_shields : Z;
  c_last_turns_shield_surplus : Z;
  c_city_radius_sq : Z;
  c_built_turn : Z -> Z;
  c_worklist : worklist;
  c_city_options : bv;
  c_citizens_nation : Z -> Z;
  c_units_supported : list Z;
  c_ai_entries : string -> list entry
}.

Record player_diplstate := {
  ds_type : Z;
  ds_max_state : Z;
  ds_first_contact_turn : Z;
  ds_turns_left : Z;
  ds_has_reason_to_cancel : Z;
  ds_contact_turns_left : Z
}.

Record player_spaceship := {
  ss_state : Z;
  ss_structurals : Z;
  ss_components : Z;
  ss_modules : Z;
  ss_fuel : Z;
  ss_propulsion : Z;
  ss_habitation : Z;
  ss_life_support : Z;
  ss_solar_panels : Z;
  ss_structure : bv;
  ss_launch_year : Z
}.

Record player_research := {
  tech_goal : Z;
  techs_researched : Z;
  future_tech : Z;
  bulbs_researching_saved : Z;
  researching_saved : Z;
  bulbs_researched : Z;
  researching : Z;
  got_tech : bool
}.

Record player := {
  p_number : Z;
  p_index : Z;
  p_name : string;
  p_username : string;
  p_rgb : option (string -> list entry);
  p_ranked_username : string;
  p_delegation : option string;
  p_nation_rule_name : string;
  p_team : option Z;
  p_government_rule_name : string;
  p_target_government : option string;
  p_city_style_rule_name : string;
  p_is_male : bool;
  p_is_alive : bool;
  p_ai_controlled : bool;
  p_diplstate : Z -> player_diplstate;
  p_has_real_embassy : Z -> bool;
  p_gives_shared_vision : Z -> bool;
  p_love : Z -> Z;
  p_ai_entries : list entry;
  p_skill_level : Z;
  p_barbarian_type : Z;
  p_gold : Z;
  p_tax : Z;
  p_science : Z;
  p_luxury : Z;
  p_research : player_research;
  p_bulbs_last_turn : Z;
  p_invention_known : Z -> bool;
  p_got_first_city : bool;
  p_revolution_finishes : Z;
  p_units_built : Z;
  p_units_killed : Z;
  p_units_lost : Z;
  p_spaceship : player_spaceship;
  p_wonder_lost : Z -> bool;
  p_attribute_block : option (list Z);
  p_units : list Z;
  p_cities : list city
}.

Record tile := {
  t_terrain : option string;
  t_special : bv;
  t_bases : bv;
  t_roads : bv;
  t_resource : option string;
  t_owner : option Z;
  t_claimer : option Z;
  t_worked : option Z;
  t_spec_sprite : option string;
  t_label : option string;
  t_known : Z -> bool;
  t_units : list Z
}.

Inductive server_states := S_S_INITIAL | S_S_RUNNING | S_S_OVER.

(** The game, the map and the services of other modules (rule names, the
    script, settings and map-image savers, the meta server strings), as far
    as the writer consults them. Results of calls into modules outside this
    file are fields of the record. *)
Record world := {
  cst : consts;
  (* game.scenario *)
  scenario_is_scenario : bool;
  scenario_name : string;
  scenario_description : string;
  scenario_players : bool;
  scenario_startpos_nations : bool;
  (* game.info *)
  info_skill_level : Z;
  info_phase_mode : Z;
  info_phase : Z;
  info_turn : Z;
  info_year : Z;
  info_year_0_hack : bool;
  info_globalwarming : Z;
  info_heating : Z;
  info_warminglevel : Z;
  info_nuclearwinter : Z;
  info_cooling : Z;
  info_coolinglevel : Z;
  info_global_advances : Z -> bool;
  info_is_new_game : bool;
  info_citizen_nationality : bool;
  (* game.control *)
  num_tech_types : Z;
  num_base_types : Z;
  num_road_types : Z;
  (* rule set *)
  improvement_count : Z;
  improvement_rule_name : Z -> string;
  is_great_wonder : Z -> bool;
  great_wonder_is_destroyed : Z -> bool;
  advance_rule_name : Z -> string;
  base_rule_name : Z -> string;
  road_rule_name : Z -> string;
  (* server *)
  game_was_started : bool;
  server_state : server_states;
  server_states_name : server_states -> string;
  meta_patches_string : string;
  meta_addr_port : string;
  game_identifier : string;
  serverid : string;
  identity_number : Z;
  fc_rand_is_init : bool;
  random_entries : list entry;
  script_entries : list entry;
  settings_entries : list entry;
  mapimg_count : Z;
  mapimg_id2str : Z -> string;
  (* map *)
  map_is_empty : bool;
  xsize : Z;
  ysize : Z;
  native_pos_to_tile : Z -> Z -> tile;
  (* players *)
  players : list player;
  shuffled_players : list Z;
  player_slot_max_used_number : Z;
  player_slot_is_used : Z -> bool
}.

Definition MAP_INDEX_SIZE (w : world) : Z := xsize w * ysize w.

(** [index_to_native_pos] and the tile of an index. *)
Definition index_to_native_x (w : world) (index : Z) : Z := index `mod` xsize w.
Definition index_to_native_y (w : world) (index : Z) : Z := index `div` xsize w.
Definition index_to_tile (w : world) (index : Z) : tile :=
  native_pos_to_tile w (index_to_native_x w index) (index_to_native_y w index).

(** [whole_map_iterate]: the tiles by increasing index. *)
Definition whole_map (w : world) : list Z := seqZ 0 (MAP_INDEX_SIZE w).

(** ** The state of a save *)

Inductive log_event :=
| Log_invalid_map_data (x y : Z) (c : ascii)
| Log_assert (what : string)
| Log_no_color (plrno : Z)
| Log_improvement_vector (path : string)
| Log_failure_saving
| Log_line_not_found (path : string)
| Log_line_too_short (expected got : Z) (path : string)
| Log_incomplete_map.

(** [struct savedata]. *)
Record savedata := {
  file : section_file;
  secfile_options : string;
  save_reason : string;
  scenario : bool;
  save_players : bool
}.

(** What a save reads and writes: the static flag [sg_success], the
    [savedata] behind the pointer [saving], the log, and the units, which are
    shared between the unit lists of players, cities and tiles and are
    therefore kept in one store keyed by unit, the lists holding keys. *)
Record sg_state := {
  sg_success : bool;
  saving : savedata;
  sg_log : list log_event;
  sg_units : gmap Z unit
}.

Definition set_success (b : bool) (s : sg_state) : sg_state :=
  {| sg_success := b; saving := saving s; sg_log := sg_log s;
     sg_units := sg_units s |}.

Definition set_saving (sv : savedata) (s : sg_state) : sg_state :=
  {| sg_success := sg_success s; saving := sv; sg_log := sg_log s;
     sg_units := sg_units s |}.

Definition set_units (us : gmap Z unit) (s : sg_state) : sg_state :=
  {| sg_success := sg_success s; saving := saving s; sg_log := sg_log s;
     sg_units := us |}.

Definition add_log (e : log_event) (s : sg_state) : sg_state :=
  {| sg_success := sg_success s; saving := saving s;
     sg_log := sg_log s ++ [e]; sg_units := sg_units s |}.

Definition set_file (f : section_file) (sv : savedata) : savedata :=
  {| file := f; secfile_options := secfile_options sv;
     save_reason := save_reason sv; scenario := scenario sv;
     save_players := save_players sv |}.

Definition set_secfile_options (o : string) (sv : savedata) : savedata :=
  {| file := file sv; secfile_options := o;
     save_reason := save_reason sv; scenario := scenario sv;
     save_players := save_players sv |}.

Definition set_save_players (b : bool) (sv : savedata) : savedata :=
  {| file := file sv; secfile_options := secfile_options sv;
     save_reason := save_reason sv; scenario := scenario sv;
     save_players := b |}.

Definition sg_file (s : sg_state) : section_file := file (saving s).

(** *** Statements of a [void] function

    A statement either falls through to the next one or executes [return]. *)
Inductive outcome (A : Type) :=
| Next (a : A) (s : sg_state)
| Return (s : sg_state).
Arguments Next {A} a s.
Arguments Return {A} s.

Definition M (A : Type) : Type := sg_state -> outcome A.

Definition outcome_state {A} (o : outcome A) : sg_state :=
  match o with Next _ s => s | Return s => s end.

Global Instance M_ret : MRet M := fun A a s => Next a s.
Global Instance M_bind : MBind M := fun A B k m s =>
  match m s with
  | Next a s' => k a s'
  | Return s' => Return s'
  end.

(** [return;] *)
Definition return_ {A} : M A := fun s => Return s.

(** The body of a function, run as a call: a [return] inside ends the call
    only. *)
Definition fn (body : M ()) : sg_state -> sg_state :=
  fun s => outcome_state (body s).

Definition call (f : sg_state -> sg_state) : M () := fun s => Next () (f s).

Definition get_state : M sg_state := fun s => Next s s.
Definition modify (f : sg_state -> sg_state) : M () := fun s => Next () (f s).

Fixpoint for_each {A} (l : list A) (body : A -> M ()) : M () :=
  match l with
  | [] => mret ()
  | x :: l' => body x ;; for_each l' body
  end.

Definition when (b : bool) (m : M ()) : M () := if b then m else mret ().

Definition log_sg (e : log_event) : M () := modify (add_log e).

(** [sg_check_ret()]. *)
Definition sg_check_ret : M () :=
  fun s => if sg_success s then Next () s else Return s.

(** [sg_failure_ret(condition, message)]. *)
Definition sg_failure_ret (condition : bool) (message : log_event) : M () :=
  if condition then mret ()
  else modify (set_success false) ;; log_sg message ;; sg_check_ret.

(** [fc_assert_ret(condition)]: a failed assertion is logged and returns. *)
Definition fc_assert_ret (condition : bool) (what : string) : M () :=
  if condition then mret () else log_sg (Log_assert what) ;; return_.

Definition modify_file (g : section_file -> section_file) : M () :=
  modify (fun s => set_saving (set_file (g (file (saving s))) (saving s)) s).

Definition secfile_insert_int (n : Z) (path : string) : M () :=
  modify_file (secfile_insert (VInt n) path).
Definition secfile_insert_bool (b : bool) (path : string) : M () :=
  modify_file (secfile_insert (VBool b) path).
Definition secfile_insert_str (str : string) (path : string) : M () :=
  modify_file (secfile_insert (VStr str) path).
Definition secfile_insert_str_vec (v : list string) (path : string) : M () :=
  modify_file (secfile_insert (VStrVec v) path).
Definition secfile_replace_str (str : string) (path : string) : M () :=
  modify_file (secfile_replace (VStr str) path).

(** Entries inserted by a saver of another module. *)
Definition secfile_insert_entries (es : list entry) : M () :=
  modify_file (fun f => f ++ es).

(** ** The map line macros *)

(** The inner loop of [SAVE_MAP_CHAR]: the characters of one line, each
    checked as it is stored. [GET_XY_CHAR] is the macro argument as a function
    of the native position of [ptile]; [native_pos_to_tile] never fails
    inside the map, so the [fc_assert_action] of the macro stays silent. *)
Fixpoint save_map_line (GET_XY_CHAR : Z -> Z -> ascii) (nat_y : Z)
         (xs : list Z) (line : list ascii) : M (list ascii) :=
  match xs with
  | [] => mret line
  | nat_x :: xs' =>
      let c := GET_XY_CHAR nat_x nat_y in
      sg_failure_ret (map_char_ok c) (Log_invalid_map_data nat_x nat_y c) ;;
      save_map_line GET_XY_CHAR nat_y xs' (line ++ [c])
  end.

(** [SAVE_MAP_CHAR(ptile, GET_XY_CHAR, secfile, secpath, ...)]; [secpath]
    gives the formatted path of a row. *)
Definition SAVE_MAP_CHAR (w : world) (GET_XY_CHAR : Z -> Z -> ascii)
           (secpath : Z -> string) : M () :=
  for_each (seqZ 0 (ysize w)) (fun nat_y =>
    line ← save_map_line GET_XY_CHAR nat_y (seqZ 0 (xsize w)) [];
    secfile_insert_str (chars line) (secpath nat_y)).

Section Load.

(** [LOAD_MAP_CHAR] is written once for every kind of map data: the macro
    argument [SET_XY_CHAR] stores the character read for a position into
    whatever the caller loads, here a state of type [St]. *)
Context {St : Type}.
Variable SET_XY_CHAR : ascii -> Z -> Z -> St -> St.

Definition load_map_row (line : string) (nat_y : Z) (xs : list Z) (st : St)
  : St :=
  foldl (fun st nat_x =>
           SET_XY_CHAR (string_index line nat_x) nat_x nat_y st) st xs.

(** One turn of the loop over the rows; the state of the loop is the
    loaded data, the log and [_printed_warning]. *)
Definition load_map_step (w : world) (secfile : section_file)
           (secpath : Z -> string) (acc : St * list log_event * bool)
           (nat_y : Z) : St * list log_event * bool :=
  let '(st, lg, printed_warning) := acc in
  match secfile_lookup_str secfile (secpath nat_y) with
  | None =>
      (st, lg ++ [Log_line_not_found (fc_snprintf 64 (secpath nat_y))], true)
  | Some line =>
      if negb (Z.of_nat (String.length line) =? xsize w)
      then (st,
            lg ++ [Log_line_too_short (xsize w)
                     (Z.of_nat (String.length line))
                     (fc_snprintf 64 (secpath nat_y))],
            true)
      else (load_map_row line nat_y (seqZ 0 (xsize w)) st, lg,
            printed_warning)
  end.

Definition LOAD_MAP_CHAR (w : world) (secfile : section_file)
           (secpath : Z -> string) (st : St) : St * list log_event :=
  let '(st', lg, printed_warning) :=
    foldl (load_map_step w secfile secpath) (st, [], false)
      (seqZ 0 (ysize w)) in
  (st', if printed_warning then lg ++ [Log_incomplete_map] else lg).

End Load.

(** ** Helpers *)

(** [quote_block]: ["%d:"] and then ["%02x "] for every byte. *)
Definition hex_byte (b : Z) : string :=
  String (string_index hex_chars (Z.land (Z.shiftr b 4) 15))
    (String (string_index hex_chars (Z.land b 15)) " ").

Definition quote_block (data : list Z) : string :=
  fmt_d (Z.of_nat (length data)) +:+ ":" +:+
  String.concat "" (hex_byte <$> data).

(** [worklist_save(file, pwl, max_length, path, ...)]; [path] is the
    formatted first part of the registry path. *)
Definition worklist_save (w : world) (pwl : worklist) (max_length : Z)
           (path : string) : sg_state -> sg_state :=
  fn (
    let path_str := fc_snprintf 1024 path in
    secfile_insert_int (wl_length pwl) (path_str +:+ ".wl_length") ;;
    for_each (seqZ 0 (wl_length pwl)) (fun i =>
      let entry := worklist_entry pwl i in
      secfile_insert_str (type_rule_name entry)
        (path_str +:+ ".wl_kind" +:+ fmt_d i) ;;
      secfile_insert_str (rule_name entry)
        (path_str +:+ ".wl_value" +:+ fmt_d i)) ;;
    fc_assert_ret (max_length <=? MAX_LEN_WORKLIST (cst w))
      "max_length <= MAX_LEN_WORKLIST" ;;
    (* Fill table up to maximum worklist size. *)
    for_each (seqZ (wl_length pwl) (max_length - wl_length pwl)) (fun i =>
      secfile_insert_str "" (path_str +:+ ".wl_kind" +:+ fmt_d i) ;;
      secfile_insert_str "" (path_str +:+ ".wl_value" +:+ fmt_d i))).

Definition set_ord_city (j : Z) (punit : unit) : unit :=
  {| u_data := u_data punit; ord_map := ord_map punit; ord_city := j |}.

Definition set_ord_map (j : Z) (punit : unit) : unit :=
  {| u_data := u_data punit; ord_map := j; ord_city := ord_city punit |}.

(** [j = 0; unit_list_iterate(list, punit) { punit->field = j++; }] *)
Fixpoint number_units (set : Z -> unit -> unit) (l : list Z) (j : Z)
         (us : gmap Z unit) : gmap Z unit :=
  match l with
  | [] => us
  | punit :: l' => number_units set l' (j + 1) (alter (set j) punit us)
  end.

(** [unit_ordering_calc]. *)
Definition unit_ordering_calc (w : world) (us : gmap Z unit) : gmap Z unit :=
  let us1 :=
    foldl (fun us pplayer =>
             (* to avoid junk values for unsupported units: *)
             let us0 :=
               foldl (fun us punit => alter (set_ord_city 0) punit us)
                 us (p_units pplayer) in
             foldl (fun us pcity =>
                      number_units set_ord_city (c_units_supported pcity) 0 us)
               us0 (p_cities pplayer))
      us (players w) in
  foldl (fun us index =>
           number_units set_ord_map (t_units (index_to_tile w index)) 0 us)
    us1 (whole_map w).

(** [technology_save(file, path, plrno, tech)]; [path] is the format with the
    player number filled in. *)
Definition technology_save (w : world) (path : string) (tech : Z) : M () :=
  let path_with_name := fc_snprintf 128 (path +:+ "_name") in
  let name :=
    if tech =? A_UNKNOWN (cst w) then ""
    else if tech =? A_NONE (cst w) then "A_NONE"
    else if tech =? A_UNSET (cst w) then "A_UNSET"
    else if tech =? A_FUTURE (cst w) then "A_FUTURE"
    else advance_rule_name w tech in
  secfile_insert_str name path_with_name.

(** ** The stages of a save *)

Definition savefile_options_default : string := " +version2".

(** The table [compat]: the version of the last row is the current one. *)
Definition compat : list Z := [0; 3; 10; 20].
Definition compat_current : nat := (length compat - 1)%nat.

(** [sz_strlcat] into [saving->secfile_options], an array of 512. *)
Definition sz_strlcat_options (option : string) (s : sg_state) : sg_state :=
  set_saving
    (set_secfile_options
       (String.substring 0 511 (secfile_options (saving s) +:+ option))
       (saving s)) s.

(** [sg_save_savefile_options]; [None] is the NULL option. *)
Definition sg_save_savefile_options (option : option string)
  : sg_state -> sg_state :=
  fn (
    sg_check_ret ;;
    match option with
    | None => return_
    | Some o =>
        modify (sz_strlcat_options o) ;;
        s ← get_state;
        secfile_replace_str (secfile_options (saving s)) "savefile.options"
    end).

(** [sg_save_savefile]: Save '[savefile]'. *)
Definition sg_save_savefile (w : world) : sg_state -> sg_state :=
  fn (
    sg_check_ret ;;
    call (sg_save_savefile_options (Some savefile_options_default)) ;;
    secfile_insert_int (nth compat_current compat 0) "savefile.version" ;;
    s ← get_state;
    secfile_insert_str (save_reason (saving s)) "savefile.reason" ;;
    secfile_insert_str "LT49" "savefile.rulesetdir" ;;
    secfile_insert_int (improvement_count w) "savefile.improvement_size" ;;
    when (improvement_count w >? 0)
      (secfile_insert_str_vec
         (improvement_rule_name w <$> seqZ 0 (improvement_count w))
         "savefile.improvement_vector") ;;
    secfile_insert_int (num_tech_types w) "savefile.technology_size" ;;
    when (num_tech_types w >? 0)
      (secfile_insert_str_vec
         ((fun i => if i =? A_NONE (cst w) then "A_NONE"
                    else advance_rule_name w i)
            <$> seqZ 0 (num_tech_types w))
         "savefile.technology_vector") ;;
    secfile_insert_int (ACTIVITY_LAST_count (cst w))
      "savefile.activities_size" ;;
    when (ACTIVITY_LAST_count (cst w) >? 0)
      (secfile_insert_str_vec
         (unit_activity_name (cst w) <$> seqZ 0 (ACTIVITY_LAST_count (cst w)))
         "savefile.activities_vector") ;;
    secfile_insert_int (TRAIT_COUNT (cst w)) "savefile.trait_size" ;;
    secfile_insert_str_vec
      (trait_name (cst w) <$> seqZ 0 (TRAIT_COUNT (cst w)))
      "savefile.trait_vector" ;;
    secfile_insert_int (S_LAST (cst w)) "savefile.specials_size" ;;
    secfile_insert_str_vec
      (special_rule_name (cst w) <$> seqZ 0 (S_LAST (cst w)))
      "savefile.specials_vector" ;;
    secfile_insert_int (num_base_types w) "savefile.bases_size" ;;
    when (num_base_types w >? 0)
      (secfile_insert_str_vec
         (base_rule_name w <$> seqZ 0 (num_base_types w))
         "savefile.bases_vector") ;;
    secfile_insert_int (num_road_types w) "savefile.roads_size" ;;
    when (num_road_types w >? 0)
      (secfile_insert_str_vec
         (road_rule_name w <$> seqZ 0 (num_road_types w))
         "savefile.roads_vector")).

(** The value [sg_save_game] gives to [saving->save_players]. *)
Definition save_players_of (w : world) (sv : savedata) : bool :=
  if negb (game_was_started w) then false
  else if scenario sv then scenario_players w
  else true.

(** [sg_save_game]: Save '[game]'. *)
Definition sg_save_game (w : world) : sg_state -> sg_state :=
  fn (
    sg_check_ret ;;
    let game_version :=
      MAJOR_VERSION (cst w) * 10000 + MINOR_VERSION (cst w) * 100
      + PATCH_VERSION (cst w) in
    secfile_insert_int game_version "game.version" ;;
    s ← get_state;
    let srv_state :=
      if scenario (saving s) && negb (scenario_players w) then S_S_INITIAL
      else if info_is_new_game w then server_state w else S_S_RUNNING in
    secfile_insert_str (server_states_name w srv_state)
      "game.server_state" ;;
    secfile_insert_str (meta_patches_string w) "game.meta_patches" ;;
    secfile_insert_bool false "game.meta_usermessage" ;;
    secfile_insert_str (meta_addr_port w) "game.meta_server" ;;
    secfile_insert_str (game_identifier w) "game.id" ;;
    secfile_insert_str (serverid w) "game.serverid" ;;
    secfile_insert_int (info_skill_level w) "game.skill_level" ;;
    secfile_insert_int (info_phase_mode w) "game.phase_mode" ;;
    secfile_insert_int 0 "game.phase_mode_stored" ;;
    secfile_insert_int (info_phase w) "game.phase" ;;
    secfile_insert_int 0 "game.scoreturn" ;;
    secfile_insert_int 0 "game.timeoutint" ;;
    secfile_insert_int 0 "game.timeoutintinc" ;;
    secfile_insert_int 0 "game.timeoutinc" ;;
    secfile_insert_int 0 "game.timeoutincmult" ;;
    secfile_insert_int 0 "game.timeoutcounter" ;;
    secfile_insert_int (info_turn w) "game.turn" ;;
    secfile_insert_int (info_year w) "game.year" ;;
    secfile_insert_bool (info_year_0_hack w) "game.year_0_hack" ;;
    secfile_insert_int (info_globalwarming w) "game.globalwarming" ;;
    secfile_insert_int (info_heating w) "game.heating" ;;
    secfile_insert_int (info_warminglevel w) "game.warminglevel" ;;
    secfile_insert_int (info_nuclearwinter w) "game.nuclearwinter" ;;
    secfile_insert_int (info_cooling w) "game.cooling" ;;
    secfile_insert_int (info_coolinglevel w) "game.coolinglevel" ;;
    (* Global advances. *)
    secfile_insert_str
      (bit_string (num_tech_types w) (info_global_advances w))
      "game.global_advances" ;;
    modify (fun s =>
      set_saving
        (set_save_players (save_players_of w (saving s)) (saving s)) s) ;;
    s ← get_state;
    secfile_insert_bool (save_players (saving s)) "game.save_players").

(** [sg_save_random]: Save '[random]'. The condition ends in [&& FALSE];
    what its branch would write is held by [random_entries]. *)
Definition sg_save_random (w : world) : sg_state -> sg_state :=
  fn (
    sg_check_ret ;;
    if fc_rand_is_init w && false then
      secfile_insert_bool true "random.save" ;;
      secfile_insert_entries (random_entries w)
    else
      secfile_insert_bool false "random.save").

(** [sg_save_script]: Save '[script]'. *)
Definition sg_save_script (w : world) : sg_state -> sg_state :=
  fn (
    sg_check_ret ;;
    (* script_server_state_save(saving->file) *)
    secfile_insert_entries (script_entries w)).

(** [sg_save_scenario]: Save '[scenario]'. *)
Definition sg_save_scenario (w : world) : sg_state -> sg_state :=
  fn (
    sg_check_ret ;;
    s ← get_state;
    (if negb (scenario (saving s)) || negb (scenario_is_scenario w) then
       secfile_insert_bool false "scenario.is_scenario" ;;
       return_
     else mret ()) ;;
    secfile_insert_bool true "scenario.is_scenario" ;;
    (* Name is mandatory to the level that is saved even if empty. *)
    secfile_insert_str (scenario_name w) "scenario.name" ;;
    when (negb (String.eqb (scenario_description w) ""))
      (secfile_insert_str (scenario_description w) "scenario.description") ;;
    secfile_insert_bool (scenario_players w) "scenario.players" ;;
    secfile_insert_bool (scenario_startpos_nations w)
      "scenario.startpos_nations").

(** [sg_save_settings]: Save [settings]. *)
Definition sg_save_settings (w : world) : sg_state -> sg_state :=
  fn (
    sg_check_ret ;;
    (* settings_game_save(saving->file, "settings") *)
    secfile_insert_entries (settings_entries w)).

(** [sg_save_map_tiles]: Save all map tiles. *)
Definition sg_save_map_tiles (w : world) : sg_state -> sg_state :=
  fn (
    sg_check_ret ;;
    (* Save the terrain type. *)
    SAVE_MAP_CHAR w
      (fun x y => terrain2char (t_terrain (native_pos_to_tile w x y)))
      (fun y => "map.t" +:+ fmt_0d 4 y) ;;
    (* Save special tile sprites. *)
    for_each (whole_map w) (fun index =>
      let ptile := index_to_tile w index in
      let nat_x := index_to_native_x w index in
      let nat_y := index_to_native_y w index in
      match t_spec_sprite ptile with
      | Some sprite =>
          secfile_insert_str sprite
            ("map.spec_sprite_" +:+ fmt_d nat_x +:+ "_" +:+ fmt_d nat_y)
      | None => mret ()
      end ;;
      match t_label ptile with
      | Some label =>
          secfile_insert_str label
            ("map.label_" +:+ fmt_d nat_x +:+ "_" +:+ fmt_d nat_y)
      | None => mret ()
      end)).

(** [sg_save_map_tiles_bases]: Save information about bases on map. *)
Definition sg_save_map_tiles_bases (w : world) : sg_state -> sg_state :=
  fn (
    sg_check_ret ;;
    for_each (halfbyte_iterate (num_base_types w)) (fun j =>
      let mod_ := bases_mod (num_base_types w) j in
      SAVE_MAP_CHAR w
        (fun x y => sg_bases_get (t_bases (native_pos_to_tile w x y)) mod_)
        (fun y => "map.b" +:+ fmt_0d 2 j +:+ "_" +:+ fmt_0d 4 y))).

(** [sg_save_map_tiles_roads]: Save information about roads on map. *)
Definition sg_save_map_tiles_roads (w : world) : sg_state -> sg_state :=
  fn (
    sg_check_ret ;;
    for_each (halfbyte_iterate (num_road_types w)) (fun j =>
      let mod_ := roads_mod (num_road_types w) j in
      SAVE_MAP_CHAR w
        (fun x y => sg_roads_get (t_roads (native_pos_to_tile w x y)) mod_)
        (fun y => "map.r" +:+ fmt_0d 2 j +:+ "_" +:+ fmt_0d 4 y))).

(** [sg_save_map_tiles_specials]: Save information about specials on map. *)
Definition sg_save_map_tiles_specials (w : world) (rivers_overlay : bool)
  : sg_state -> sg_state :=
  fn (
    sg_check_ret ;;
    for_each (halfbyte_iterate (S_LAST (cst w))) (fun j =>
      let mod_ :=
        specials_mod (S_LAST (cst w)) (S_OLD_RIVER (cst w)) rivers_overlay j in
      SAVE_MAP_CHAR w
        (fun x y =>
           sg_special_get (S_LAST (cst w))
             (t_special (native_pos_to_tile w x y)) mod_)
        (fun y => "map.spe" +:+ fmt_0d 2 j +:+ "_" +:+ fmt_0d 4 y))).

(** [sg_save_map_tiles_resources]: Save information about resources. *)
Definition sg_save_map_tiles_resources (w : world) : sg_state -> sg_state :=
  fn (
    sg_check_ret ;;
    SAVE_MAP_CHAR w
      (fun x y =>
         resource2char (RESOURCE_NONE_IDENTIFIER (cst w))
           (t_resource (native_pos_to_tile w x y)))
      (fun y => "map.res" +:+ fmt_0d 4 y)).

(** [sg_save_map_startpos]: the function returns right after the check (the
    test on the save option is commented out in the source, the [return] is
    not), so nothing of what follows it runs. *)
Definition sg_save_map_startpos (w : world) : sg_state -> sg_state :=
  fn (sg_check_ret ;; return_).

(** A token of an owner, source or worked line: ["-"] or [%d] through
    [fc_snprintf(token, sizeof(token), ...)]. *)
Definition map_token (id : option Z) : string :=
  match id with
  | None => "-"
  | Some n => fc_snprintf TOKEN_SIZE (fmt_d n)
  end.

(** The loop over [x] that builds [line] with [strcat]; [more x] is the test
    that guards [strcat(line, ",")]. *)
Definition strcat_line (token : Z -> string) (more : Z -> bool)
           (xs : list Z) : string :=
  foldl (fun line x =>
           let line := line +:+ token x in
           if more x then line +:+ "," else line) "" xs.

(** [sg_save_map_owner]: Save tile owner information. *)
Definition sg_save_map_owner (w : world) : sg_state -> sg_state :=
  fn (
    sg_check_ret ;;
    s ← get_state;
    (if scenario (saving s) && negb (save_players (saving s))
     then (* Nothing to do for a scenario without saved players. *) return_
     else mret ()) ;;
    (* Store owner and ownership source as plain numbers. *)
    for_each (seqZ 0 (ysize w)) (fun y =>
      secfile_insert_str
        (strcat_line
           (fun x =>
              let ptile := native_pos_to_tile w x y in
              if negb (save_players (saving s)) then "-"
              else map_token (t_owner ptile))
           (fun x => x + 1 <? xsize w)
           (seqZ 0 (xsize w)))
        ("map.owner" +:+ fmt_0d 4 y)) ;;
    for_each (seqZ 0 (ysize w)) (fun y =>
      secfile_insert_str
        (strcat_line
           (fun x => map_token (t_claimer (native_pos_to_tile w x y)))
           (fun x => x + 1 <? xsize w)
           (seqZ 0 (xsize w)))
        ("map.source" +:+ fmt_0d 4 y))).

(** [sg_save_map_worked]: Save worked tiles information. *)
Definition sg_save_map_worked (w : world) : sg_state -> sg_state :=
  fn (
    sg_check_ret ;;
    s ← get_state;
    (if scenario (saving s) && negb (save_players (saving s))
     then (* Nothing to do for a scenario without saved players. *) return_
     else mret ()) ;;
    (* additionally save the tiles worked by the cities *)
    for_each (seqZ 0 (ysize w)) (fun y =>
      secfile_insert_str
        (strcat_line
           (fun x => map_token (t_worked (native_pos_to_tile w x y)))
           (fun x => x <? xsize w)
           (seqZ 0 (xsize w)))
        ("map.worked" +:+ fmt_0d 4 y))).

(** The word [known[l * MAP_INDEX_SIZE + tile_index(ptile)]] once the
    players have been gone through. *)
Definition known_word (w : world) (l : Z) (ptile : tile) : Z :=
  foldl (fun word pplayer =>
           let p := p_index pplayer in
           if t_known ptile p && (p `quot` 32 =? l)
           then Z.lor word (Z.shiftl 1 (p `rem` 32))
           else word) 0 (players w).

(** [sg_save_map_known]: Save tile known status for whole map and all
    players. *)
Definition sg_save_map_known (w : world) : sg_state -> sg_state :=
  fn (
    sg_check_ret ;;
    s ← get_state;
    if negb (save_players (saving s)) then
      secfile_insert_bool false "game.save_known" ;;
      return_
    else
      let lines := player_slot_max_used_number w `quot` 32 + 1 in
      secfile_insert_bool true "game.save_known" ;;
      for_each (seqZ 0 lines) (fun l =>
        for_each (seqZ 0 8) (fun j =>
          (* Only bother saving the map for this halfbyte if at least one
             of the corresponding player slots is in use *)
          when (existsb
                  (fun i => player_slot_is_used w (l * 32 + j * 4 + i))
                  (seqZ 0 4))
            (SAVE_MAP_CHAR w
               (fun x y =>
                  bin2ascii_hex (known_word w l (native_pos_to_tile w x y)) j)
               (fun y =>
                  "map.k" +:+ fmt_0d 2 (l * 8 + j) +:+ "_" +:+ fmt_0d 4 y))))).

(** [sg_save_map]: Save 'map'. *)
Definition sg_save_map (w : world) : sg_state -> sg_state :=
  fn (
    sg_check_ret ;;
    (if map_is_empty w then (* No map. *) return_ else mret ()) ;;
    s ← get_state;
    (if scenario (saving s)
     then secfile_insert_bool true "map.have_huts"
     else secfile_insert_bool true "map.have_huts") ;;
    call (sg_save_map_tiles w) ;;
    call (sg_save_map_startpos w) ;;
    call (sg_save_map_tiles_bases w) ;;
    call (sg_save_map_tiles_roads w) ;;
    call (sg_save_savefile_options (Some " specials")) ;;
    call (sg_save_map_tiles_specials w false) ;;
    call (sg_save_map_tiles_resources w) ;;
    call (sg_save_map_owner w) ;;
    call (sg_save_map_worked w) ;;
    call (sg_save_map_known w)).

(** [sg_save_player_main]: Main player data saving function. *)
Definition sg_save_player_main (w : world) (plr : player)
  : sg_state -> sg_state :=
  let plrno := p_number plr in
  let pl := "player" +:+ fmt_d plrno in
  let ship := p_spaceship plr in
  fn (
    sg_check_ret ;;
    secfile_insert_str "classic" (pl +:+ ".ai_type") ;;
    secfile_insert_str (p_name plr) (pl +:+ ".name") ;;
    secfile_insert_str (p_username plr) (pl +:+ ".username") ;;
    match p_rgb plr with
    | Some rgbcolor_save => secfile_insert_entries (rgbcolor_save (pl +:+ ".color"))
    | None =>
        (* Colorless players are ok in pregame *)
        when (game_was_started w) (log_sg (Log_no_color plrno))
    end ;;
    secfile_insert_str (p_ranked_username plr) (pl +:+ ".ranked_username") ;;
    secfile_insert_str (default "" (p_delegation plr))
      (pl +:+ ".delegation_username") ;;
    secfile_insert_str (p_nation_rule_name plr) (pl +:+ ".nation") ;;
    secfile_insert_int (default (-1) (p_team plr)) (pl +:+ ".team_no") ;;
    secfile_insert_str (p_government_rule_name plr)
      (pl +:+ ".government_name") ;;
    match p_target_government plr with
    | Some name => secfile_insert_str name (pl +:+ ".target_government_name")
    | None => mret ()
    end ;;
    secfile_insert_str (p_city_style_rule_name plr)
      (pl +:+ ".city_style_by_name") ;;
    secfile_insert_bool (p_is_male plr) (pl +:+ ".is_male") ;;
    secfile_insert_bool (p_is_alive plr) (pl +:+ ".is_alive") ;;
    secfile_insert_bool (p_ai_controlled plr) (pl +:+ ".ai.control") ;;
    for_each (players w) (fun pplayer =>
      let ds := p_diplstate plr (p_index pplayer) in
      let i := p_index pplayer in
      (* save diplomatic state *)
      let buf := fc_snprintf 32 (pl +:+ ".diplstate" +:+ fmt_d i) in
      secfile_insert_int (ds_type ds) (buf +:+ ".type") ;;
      secfile_insert_int (ds_max_state ds) (buf +:+ ".max_state") ;;
      secfile_insert_int (ds_first_contact_turn ds)
        (buf +:+ ".first_contact_turn") ;;
      secfile_insert_int (ds_turns_left ds) (buf +:+ ".turns_left") ;;
      secfile_insert_int (ds_has_reason_to_cancel ds)
        (buf +:+ ".has_reason_to_cancel") ;;
      secfile_insert_int (ds_contact_turns_left ds)
        (buf +:+ ".contact_turns_left") ;;
      secfile_insert_bool (p_has_real_embassy plr i) (buf +:+ ".embassy") ;;
      secfile_insert_bool (p_gives_shared_vision plr i)
        (buf +:+ ".gives_shared_vision")) ;;
    for_each (players w) (fun aplayer =>
      let i := p_index aplayer in
      (* save ai data *)
      secfile_insert_int (p_love plr i)
        (pl +:+ ".ai" +:+ fmt_d i +:+ ".love")) ;;
    (* CALL_FUNC_EACH_AI(player_save, plr, saving->file, plrno) *)
    secfile_insert_entries (p_ai_entries plr) ;;
    secfile_insert_int (p_skill_level plr) (pl +:+ ".ai.skill_level") ;;
    secfile_insert_int (p_barbarian_type plr) (pl +:+ ".ai.is_barbarian") ;;
    secfile_insert_int (p_gold plr) (pl +:+ ".gold") ;;
    secfile_insert_int (p_tax plr) (pl +:+ ".rates.tax") ;;
    secfile_insert_int (p_science plr) (pl +:+ ".rates.science") ;;
    secfile_insert_int (p_luxury plr) (pl +:+ ".rates.luxury") ;;
    technology_save w (pl +:+ ".research.goal")
      (tech_goal (p_research plr)) ;;
    secfile_insert_int (p_bulbs_last_turn plr)
      (pl +:+ ".research.bulbs_last_turn") ;;
    secfile_insert_int (techs_researched (p_research plr))
      (pl +:+ ".research.techs") ;;
    secfile_insert_int (future_tech (p_research plr))
      (pl +:+ ".research.futuretech") ;;
    secfile_insert_int (bulbs_researching_saved (p_research plr))
      (pl +:+ ".research.bulbs_before") ;;
    technology_save w (pl +:+ ".research.saved")
      (researching_saved (p_research plr)) ;;
    secfile_insert_int (bulbs_researched (p_research plr))
      (pl +:+ ".research.bulbs") ;;
    technology_save w (pl +:+ ".research.now")
      (researching (p_research plr)) ;;
    secfile_insert_bool (got_tech (p_research plr))
      (pl +:+ ".research.got_tech") ;;
    (* Save technology lists as bytevector. *)
    secfile_insert_str (bit_string (num_tech_types w) (p_invention_known plr))
      (pl +:+ ".research.done") ;;
    (* Save traits *)
    for_each (seqZ 0 (TRAIT_COUNT (cst w))) (fun j =>
      secfile_insert_int 0 (pl +:+ ".trait.mod" +:+ fmt_d j)) ;;
    (* Called 'capital' in the savefile for historical reasons *)
    secfile_insert_bool (p_got_first_city plr) (pl +:+ ".capital") ;;
    secfile_insert_int (p_revolution_finishes plr)
      (pl +:+ ".revolution_finishes") ;;
    (* Unit statistics. *)
    secfile_insert_int (p_units_built plr) (pl +:+ ".units_built") ;;
    secfile_insert_int (p_units_killed plr) (pl +:+ ".units_killed") ;;
    secfile_insert_int (p_units_lost plr) (pl +:+ ".units_lost") ;;
    (* Save space ship status. *)
    secfile_insert_int (ss_state ship) (pl +:+ ".spaceship.state") ;;
    when (negb (ss_state ship =? SSHIP_NONE (cst w))) (
      let buf := fc_snprintf 32 (pl +:+ ".spaceship") in
      secfile_insert_int (ss_structurals ship) (buf +:+ ".structurals") ;;
      secfile_insert_int (ss_components ship) (buf +:+ ".components") ;;
      secfile_insert_int (ss_modules ship) (buf +:+ ".modules") ;;
      secfile_insert_int (ss_fuel ship) (buf +:+ ".fuel") ;;
      secfile_insert_int (ss_propulsion ship) (buf +:+ ".propulsion") ;;
      secfile_insert_int (ss_habitation ship) (buf +:+ ".habitation") ;;
      secfile_insert_int (ss_life_support ship) (buf +:+ ".life_support") ;;
      secfile_insert_int (ss_solar_panels ship) (buf +:+ ".solar_panels") ;;
      secfile_insert_str
        (bit_string (NUM_SS_STRUCTURALS (cst w)) (BV_ISSET (ss_structure ship)))
        (buf +:+ ".structure") ;;
      when (ss_state ship >=? SSHIP_LAUNCHED (cst w))
        (secfile_insert_int (ss_launch_year ship) (buf +:+ ".launch_year"))) ;;
    (* Save lost wonders info. *)
    secfile_insert_str (bit_string (improvement_count w) (p_wonder_lost plr))
      (pl +:+ ".lost_wonders")).

(** The first loop of [sg_save_player_cities]: the length of the longest
    worklist and the nations that have citizens in some city. *)
Definition wlist_max_length_of (cities : list city) : Z :=
  foldl (fun wlist_max_length pcity =>
           if wl_length (c_worklist pcity) >? wlist_max_length
           then wl_length (c_worklist pcity)
           else wlist_max_length) 0 cities.

Definition nations_of (cities : list city) (index : Z) : bool :=
  existsb (fun pcity => negb (c_citizens_nation pcity index =? 0)) cities.

(** What the second loop of [sg_save_player_cities] writes for one city; [i]
    is its position in the city list. [city_refresh] and [sanity_check_city]
    of the first loop belong to other modules and write nothing to the file.

    The improvement vector is built in [char impr_buf[MAX_NUM_ITEMS + 1]]:
    one character per improvement and the terminator at
    [improvement_count()]. The string below is what the buffer holds when
    these writes stay inside it, that is for
    [improvement_count <= MAX_NUM_ITEMS]; the test of [sg_failure_ret] then
    holds. With more improvements the C code has written past the buffer
    before the test and its behaviour is undefined: the model is not meant
    for that case, and the properties of this function assume the bound. *)
Definition sg_save_player_city (w : world) (plr : player)
           (wlist_max_length : Z) (i : Z) (pcity : city) : M () :=
  let plrno := p_number plr in
  let buf := fc_snprintf 32 ("player" +:+ fmt_d plrno +:+ ".c" +:+ fmt_d i) in
  let nat_x := index_to_native_x w (c_center pcity) in
  let nat_y := index_to_native_y w (c_center pcity) in
  secfile_insert_int nat_y (buf +:+ ".y") ;;
  secfile_insert_int nat_x (buf +:+ ".x") ;;
  secfile_insert_int (c_id pcity) (buf +:+ ".id") ;;
  secfile_insert_int (c_original pcity) (buf +:+ ".original") ;;
  secfile_insert_int (c_size pcity) (buf +:+ ".size") ;;
  for_each (seqZ 0 (SP_COUNT (cst w))) (fun sp =>
    secfile_insert_int (c_specialists pcity sp)
      (buf +:+ ".n" +:+ specialist_rule_name (cst w) sp)) ;;
  for_each (seqZ 0 (MAX_TRADE_ROUTES (cst w))) (fun j =>
    secfile_insert_int (c_trade pcity j) (buf +:+ ".traderoute" +:+ fmt_d j)) ;;
  secfile_insert_int (c_food_stock pcity) (buf +:+ ".food_stock") ;;
  secfile_insert_int (c_shield_stock pcity) (buf +:+ ".shield_stock") ;;
  secfile_insert_int (c_airlift pcity) (buf +:+ ".airlift") ;;
  secfile_insert_bool (c_was_happy pcity) (buf +:+ ".was_happy") ;;
  secfile_insert_int (c_turn_plague pcity) (buf +:+ ".turn_plague") ;;
  secfile_insert_int (c_anarchy pcity) (buf +:+ ".anarchy") ;;
  secfile_insert_int (c_rapture pcity) (buf +:+ ".rapture") ;;
  secfile_insert_int (c_steal pcity) (buf +:+ ".steal") ;;
  secfile_insert_int (c_turn_founded pcity) (buf +:+ ".turn_founded") ;;
  let j :=
    if c_turn_founded pcity =? info_turn w then -1 (* undocumented hack *)
    else if c_did_buy pcity then 1 else 0 in
  secfile_insert_int j (buf +:+ ".did_buy") ;;
  secfile_insert_bool (c_did_sell pcity) (buf +:+ ".did_sell") ;;
  secfile_insert_int (c_turn_last_built pcity) (buf +:+ ".turn_last_built") ;;
  (* for visual debugging, variable length strings together here *)
  secfile_insert_str (c_name pcity) (buf +:+ ".name") ;;
  secfile_insert_str (type_rule_name (c_production pcity))
    (buf +:+ ".currently_building_kind") ;;
  secfile_insert_str (rule_name (c_production pcity))
    (buf +:+ ".currently_building_name") ;;
  secfile_insert_str (type_rule_name (c_changed_from pcity))
    (buf +:+ ".changed_from_kind") ;;
  secfile_insert_str (rule_name (c_changed_from pcity))
    (buf +:+ ".changed_from_name") ;;
  secfile_insert_int (c_before_change_shields pcity)
    (buf +:+ ".before_change_shields") ;;
  secfile_insert_int (c_caravan_shields pcity) (buf +:+ ".caravan_shields") ;;
  secfile_insert_int (c_disbanded_shields pcity)
    (buf +:+ ".disbanded_shields") ;;
  secfile_insert_int (c_last_turns_shield_surplus pcity)
    (buf +:+ ".last_turns_shield_surplus") ;;
  secfile_insert_int (c_city_radius_sq pcity)
    ("player" +:+ fmt_d plrno +:+ ".c" +:+ fmt_d i +:+ ".city_radius_sq") ;;
  (* Save improvement list as bytevector. *)
  let impr_buf :=
    bit_string (improvement_count w)
      (fun index => negb (c_built_turn pcity index <=? I_NEVER (cst w))) in
  sg_failure_ret
    (Z.of_nat (String.length impr_buf) <? MAX_NUM_ITEMS (cst w) + 1)
    (Log_improvement_vector buf) ;;
  secfile_insert_str impr_buf (buf +:+ ".improvements") ;;
  call (worklist_save w (c_worklist pcity) wlist_max_length buf) ;;
  for_each (seqZ 0 (CITYO_LAST (cst w))) (fun j =>
    secfile_insert_bool (BV_ISSET (c_city_options pcity) j)
      (buf +:+ ".option" +:+ fmt_d j)) ;;
  (* CALL_FUNC_EACH_AI(city_save, saving->file, pcity, buf) *)
  secfile_insert_entries (c_ai_entries pcity buf) ;;
  when (info_citizen_nationality w) (
    (* Save nationality of the citizens,*)
    for_each (players w) (fun pplayer =>
      when (nations_of (p_cities plr) (p_index pplayer))
        (secfile_insert_int (c_citizens_nation pcity (p_index pplayer))
           (buf +:+ ".citizen" +:+ fmt_d (p_index pplayer))))).

(** The cities of a player with their positions in the list. *)
Definition indexed {A} (l : list A) : list (Z * A) :=
  zip (seqZ 0 (Z.of_nat (length l))) l.

(** [sg_save_player_cities]: Save cities data. *)
Definition sg_save_player_cities (w : world) (plr : player)
  : sg_state -> sg_state :=
  let plrno := p_number plr in
  fn (
    sg_check_ret ;;
    secfile_insert_int (Z.of_nat (length (p_cities plr)))
      ("player" +:+ fmt_d plrno +:+ ".ncities") ;;
    (* First determine lenght of longest worklist and the nations we have. *)
    let wlist_max_length := wlist_max_length_of (p_cities plr) in
    for_each (indexed (p_cities plr)) (fun ic =>
      sg_save_player_city w plr wlist_max_length ic.1 ic.2)).

(** The five order strings of a unit with orders: one character per order. *)
Definition orders_buf (l : list unit_order) : string :=
  chars ((fun o => order2char (uo_order o)) <$> l).

Definition dir_buf (l : list unit_order) : string :=
  chars ((fun o =>
            match uo_order o with
            | ORDER_MOVE => dir2char (uo_dir o)
            | _ => "?"%char
            end) <$> l).

Definition act_buf (l : list unit_order) : string :=
  chars ((fun o =>
            match uo_order o with
            | ORDER_ACTIVITY => activity2char (uo_activity o)
            | _ => "?"%char
            end) <$> l).

Definition base_buf (l : list unit_order) : string :=
  chars ((fun o =>
            match uo_order o, uo_activity o with
            | ORDER_ACTIVITY, ACTIVITY_BASE => num2char (uo_base o)
            | _, _ => "?"%char
            end) <$> l).

Definition road_buf (l : list unit_order) : string :=
  chars ((fun o =>
            match uo_order o, uo_activity o with
            | ORDER_ACTIVITY, ACTIVITY_GEN_ROAD => num2char (uo_road o)
            | _, _ => "?"%char
            end) <$> l).

Global Instance act_tgt_type_eq_dec : EqDecision act_tgt_type.
Proof. solve_decision. Defined.

Definition act_tgt_is (t : act_tgt_type) (tgt : act_tgt) : bool :=
  bool_decide (tgt_type tgt = t).

(** What the loop of [sg_save_player_units] writes for one unit; [i] is its
    position in the unit list of the player. *)
Definition sg_save_player_unit (w : world) (plr : player) (i : Z)
           (punit : unit) : M () :=
  let d := u_data punit in
  let buf :=
    fc_snprintf 32 ("player" +:+ fmt_d (p_number plr) +:+ ".u" +:+ fmt_d i) in
  let dirbuf := char_str (dir2char (u_facing d)) in
  secfile_insert_int (u_id d) (buf +:+ ".id") ;;
  secfile_insert_int (index_to_native_x w (u_tile d)) (buf +:+ ".x") ;;
  secfile_insert_int (index_to_native_y w (u_tile d)) (buf +:+ ".y") ;;
  secfile_insert_str dirbuf (buf +:+ ".facing") ;;
  when (info_citizen_nationality w)
    (secfile_insert_int (u_nationality d) (buf +:+ ".nationality")) ;;
  secfile_insert_int (u_veteran d) (buf +:+ ".veteran") ;;
  secfile_insert_int (u_hp d) (buf +:+ ".hp") ;;
  secfile_insert_int (u_homecity d) (buf +:+ ".homecity") ;;
  secfile_insert_str (u_rule_name d) (buf +:+ ".type_by_name") ;;
  secfile_insert_int (u_activity d) (buf +:+ ".activity") ;;
  secfile_insert_int (u_activity_count d) (buf +:+ ".activity_count") ;;
  secfile_insert_int
    (if act_tgt_is ATT_SPECIAL (u_activity_target d)
     then tgt_obj (u_activity_target d) else S_LAST (cst w))
    (buf +:+ ".activity_target") ;;
  secfile_insert_int
    (if act_tgt_is ATT_BASE (u_activity_target d)
     then tgt_obj (u_activity_target d) else BASE_NONE (cst w))
    (buf +:+ ".activity_base") ;;
  secfile_insert_int
    (if act_tgt_is ATT_ROAD (u_activity_target d)
     then tgt_obj (u_activity_target d) else ROAD_NONE (cst w))
    (buf +:+ ".activity_road") ;;
  secfile_insert_int (u_changed_from d) (buf +:+ ".changed_from") ;;
  secfile_insert_int (u_changed_from_count d)
    (buf +:+ ".changed_from_count") ;;
  secfile_insert_int
    (if act_tgt_is ATT_SPECIAL (u_changed_from_target d)
     then tgt_obj (u_changed_from_target d) else S_LAST (cst w))
    (buf +:+ ".changed_from_target") ;;
  secfile_insert_int
    (if act_tgt_is ATT_BASE (u_changed_from_target d)
     then tgt_obj (u_changed_from_target d) else BASE_NONE (cst w))
    (buf +:+ ".changed_from_base") ;;
  secfile_insert_int
    (if act_tgt_is ATT_ROAD (u_changed_from_target d)
     then tgt_obj (u_changed_from_target d) else ROAD_NONE (cst w))
    (buf +:+ ".changed_from_road") ;;
  secfile_insert_bool (u_done_moving d) (buf +:+ ".done_moving") ;;
  secfile_insert_int (u_moves_left d) (buf +:+ ".moves") ;;
  secfile_insert_int (u_fuel d) (buf +:+ ".fuel") ;;
  secfile_insert_int (u_birth_turn d) (buf +:+ ".born") ;;
  secfile_insert_int (u_battlegroup d) (buf +:+ ".battlegroup") ;;
  match u_goto_tile d with
  | Some goto_tile =>
      secfile_insert_bool true (buf +:+ ".go") ;;
      secfile_insert_int (index_to_native_x w goto_tile) (buf +:+ ".goto_x") ;;
      secfile_insert_int (index_to_native_y w goto_tile) (buf +:+ ".goto_y")
  | None =>
      secfile_insert_bool false (buf +:+ ".go") ;;
      (* Set this values to allow saving it as table. *)
      secfile_insert_int 0 (buf +:+ ".goto_x") ;;
      secfile_insert_int 0 (buf +:+ ".goto_y")
  end ;;
  secfile_insert_bool (u_ai_controlled d) (buf +:+ ".ai") ;;
  (* Save AI data of the unit. *)
  secfile_insert_entries (u_ai_entries d buf) ;;
  secfile_insert_int (ord_map punit) (buf +:+ ".ord_map") ;;
  secfile_insert_int (ord_city punit) (buf +:+ ".ord_city") ;;
  secfile_insert_bool (u_moved d) (buf +:+ ".moved") ;;
  secfile_insert_bool (u_paradropped d) (buf +:+ ".paradropped") ;;
  secfile_insert_int (default (-1) (u_transporter d))
    (buf +:+ ".transported_by") ;;
  if u_has_orders d then
    let len := Z.of_nat (length (u_orders d)) in
    secfile_insert_int len (buf +:+ ".orders_length") ;;
    secfile_insert_int (u_orders_index d) (buf +:+ ".orders_index") ;;
    secfile_insert_bool (u_orders_repeat d) (buf +:+ ".orders_repeat") ;;
    secfile_insert_bool (u_orders_vigilant d) (buf +:+ ".orders_vigilant") ;;
    secfile_insert_bool (u_last_order_move_is_safe d)
      (buf +:+ ".orders_last_move_safe") ;;
    secfile_insert_str (orders_buf (u_orders d)) (buf +:+ ".orders_list") ;;
    secfile_insert_str (dir_buf (u_orders d)) (buf +:+ ".dir_list") ;;
    secfile_insert_str (act_buf (u_orders d)) (buf +:+ ".activity_list") ;;
    secfile_insert_str (base_buf (u_orders d)) (buf +:+ ".base_list") ;;
    secfile_insert_str (road_buf (u_orders d)) (buf +:+ ".road_list")
  else
    (* Put all the same fields into the savegame - otherwise the registry
       code can't correctly use a tabular format. *)
    secfile_insert_int 0 (buf +:+ ".orders_length") ;;
    secfile_insert_int 0 (buf +:+ ".orders_index") ;;
    secfile_insert_bool false (buf +:+ ".orders_repeat") ;;
    secfile_insert_bool false (buf +:+ ".orders_vigilant") ;;
    secfile_insert_bool false (buf +:+ ".orders_last_move_safe") ;;
    secfile_insert_str "-" (buf +:+ ".orders_list") ;;
    secfile_insert_str "-" (buf +:+ ".dir_list") ;;
    secfile_insert_str "-" (buf +:+ ".activity_list") ;;
    secfile_insert_str "-" (buf +:+ ".base_list") ;;
    secfile_insert_str "-" (buf +:+ ".road_list").

(** [sg_save_player_units]: Save unit data. A key of the unit list that the
    store does not hold would be a dangling pointer; the loop passes it by. *)
Definition sg_save_player_units (w : world) (plr : player)
  : sg_state -> sg_state :=
  fn (
    sg_check_ret ;;
    secfile_insert_int (Z.of_nat (length (p_units plr)))
      ("player" +:+ fmt_d (p_number plr) +:+ ".nunits") ;;
    for_each (indexed (p_units plr)) (fun ik =>
      s ← get_state;
      match sg_units s !! ik.2 with
      | Some punit => sg_save_player_unit w plr ik.1 punit
      | None => mret ()
      end)).

Definition PART_SIZE : nat := 3 * 256.
Definition PART_ADJUST : nat := 3.

(** Position of the first [':'] in a string ([strchr(quoted, ':')]). *)
Fixpoint index_of_colon (str : string) : nat :=
  match str with
  | EmptyString => O
  | String c rest => if Ascii.eqb c ":" then O else S (index_of_colon rest)
  end.

(** The loop over the parts of the quoted attribute block; the loop state is
    [quoted_at] (an offset into [quoted]) and [bytes_left]. *)
Fixpoint attribute_parts (pl quoted : string) (part_nrs : list Z)
         (quoted_at bytes_left : nat) : M () :=
  match part_nrs with
  | [] => when (negb (bytes_left =? 0)%nat) (log_sg (Log_assert "bytes_left == 0"))
  | current_part_nr :: rest =>
      let size_of_current_part := Nat.min bytes_left PART_SIZE in
      secfile_insert_str
        (String.substring quoted_at size_of_current_part quoted)
        (pl +:+ ".attribute_v2_block_data.part" +:+ fmt_d current_part_nr) ;;
      attribute_parts pl quoted rest (quoted_at + size_of_current_part)
        (bytes_left - size_of_current_part)
  end.

(** [sg_save_player_attributes]: Save player (client) attributes data. *)
Definition sg_save_player_attributes (w : world) (plr : player)
  : sg_state -> sg_state :=
  let pl := "player" +:+ fmt_d (p_number plr) in
  fn (
    sg_check_ret ;;
    match p_attribute_block plr with
    | None => mret ()
    | Some data =>
        let quoted := quote_block data in
        let bytes_left := String.length quoted in
        let bytes_at_colon := (1 + index_of_colon quoted)%nat in
        let bytes_adjust := (bytes_at_colon `mod` PART_ADJUST)%nat in
        secfile_insert_int (Z.of_nat (length data))
          (pl +:+ ".attribute_v2_block_length") ;;
        secfile_insert_int (Z.of_nat bytes_left)
          (pl +:+ ".attribute_v2_block_length_quoted") ;;
        let parts : Z :=
          if (PART_SIZE <? bytes_left - bytes_adjust)%nat
          then (* first line can be longer *)
            1 + Z.of_nat ((bytes_left - bytes_adjust - 1) `div` PART_SIZE)%nat
          else 1 in
        secfile_insert_int parts (pl +:+ ".attribute_v2_block_parts") ;;
        if parts >? 1 then
          let size_of_current_part := (PART_SIZE + bytes_adjust)%nat in
          (* first line can be longer *)
          secfile_insert_str (String.substring 0 size_of_current_part quoted)
            (pl +:+ ".attribute_v2_block_data.part" +:+ fmt_d 0) ;;
          attribute_parts pl quoted (seqZ 1 (parts - 1))
            size_of_current_part (bytes_left - size_of_current_part)
        else
          attribute_parts pl quoted (seqZ 0 parts) 0 bytes_left
    end).

(** [sg_save_players]: Save '[player]'. *)
Definition sg_save_players (w : world) : sg_state -> sg_state :=
  fn (
    sg_check_ret ;;
    s ← get_state;
    (if (scenario (saving s) && negb (save_players (saving s)))
        || negb (game_was_started w)
     then (* Nothing to do for a scenario without saved players or a game in
             INITIAL state. *) return_
     else mret ()) ;;
    secfile_insert_int (Z.of_nat (length (players w))) "players.nplayers" ;;
    (* Save destroyed wonders as bitvector. *)
    secfile_insert_str
      (bit_string (improvement_count w)
         (fun index =>
            is_great_wonder w index && great_wonder_is_destroyed w index))
      "players.destroyed_wonders" ;;
    secfile_insert_int (identity_number w) "players.identity_number_used" ;;
    (* Save player order. *)
    for_each (indexed (shuffled_players w)) (fun ip =>
      secfile_insert_int ip.2 ("players.shuffled_player_" +:+ fmt_d ip.1)) ;;
    (* Sort units. *)
    modify (fun s => set_units (unit_ordering_calc w (sg_units s)) s) ;;
    (* Save players. *)
    for_each (players w) (fun pplayer =>
      call (sg_save_player_main w pplayer) ;;
      call (sg_save_player_cities w pplayer) ;;
      call (sg_save_player_units w pplayer) ;;
      call (sg_save_player_attributes w pplayer))).

(** [sg_save_mapimg]: Save '[mapimg]'. *)
Definition sg_save_mapimg (w : world) : sg_state -> sg_state :=
  fn (
    sg_check_ret ;;
    secfile_insert_int (mapimg_count w) "mapimg.count" ;;
    when (mapimg_count w >? 0)
      (for_each (seqZ 0 (mapimg_count w)) (fun i =>
         secfile_insert_str (mapimg_id2str w i)
           ("mapimg.mapdef" +:+ fmt_d i)))).

(** [sg_save_sanitycheck]: Sanity check for saved game. *)
Definition sg_save_sanitycheck (w : world) : sg_state -> sg_state :=
  fn sg_check_ret.

(** [savedata_new]. *)
Definition savedata_new (file : section_file) (save_reason : string)
           (scenario : bool) : savedata :=
  {| file := file; secfile_options := "";
     save_reason := save_reason; scenario := scenario;
     save_players := false |}.

(** The stages called by [savegame2_save_real], in the order of the calls. *)
Definition top_stages (w : world) : list (sg_state -> sg_state) :=
  [ sg_save_scenario w; sg_save_savefile w; sg_save_game w;
    sg_save_random w; sg_save_script w; sg_save_settings w;
    sg_save_map w; sg_save_players w; sg_save_mapimg w;
    sg_save_sanitycheck w ].

(** Every function of the file that opens with [sg_check_ret()]. *)
Definition all_stages (w : world) : list (sg_state -> sg_state) :=
  top_stages w ++
  [ sg_save_savefile_options None;
    sg_save_map_tiles w; sg_save_map_startpos w;
    sg_save_map_tiles_bases w; sg_save_map_tiles_roads w;
    sg_save_map_tiles_specials w false; sg_save_map_tiles_specials w true;
    sg_save_map_tiles_resources w; sg_save_map_owner w;
    sg_save_map_worked w; sg_save_map_known w ].

(** [savegame2_save_real(file, save_reason, scenario)]: the state [s0] holds
    what the call finds (the log and the units); the result holds the
    section file as the call leaves it, the final [sg_success] and the log. *)
Definition savegame2_save_real (w : world) (file : section_file)
           (save_reason : string) (scenario : bool) (s0 : sg_state)
  : sg_state :=
  (* initialise loading *)
  let s := set_saving (savedata_new file save_reason scenario) s0 in
  let s := set_success true s in
  let s := sg_save_scenario w s in
  let s := sg_save_savefile w s in
  let s := sg_save_game w s in
  let s := sg_save_random w s in
  let s := sg_save_script w s in
  let s := sg_save_settings w s in
  let s := sg_save_map w s in
  let s := sg_save_players w s in
  let s := sg_save_mapimg w s in
  (* Sanity checks for the saved game. *)
  let s := sg_save_sanitycheck w s in
  if negb (sg_success s) then add_log Log_failure_saving s else s.

(** The state a save starts from and the one it reaches before the stage
    with the given position in [top_stages]. *)
Definition save_init (file : section_file) (save_reason : string)
           (scenario : bool) (s0 : sg_state) : sg_state :=
  set_success true (set_saving (savedata_new file save_reason scenario) s0).

Definition run_stages (stages : list (sg_state -> sg_state)) (s : sg_state)
  : sg_state := foldl (fun s stage => stage s) s stages.

(** [client_savegame2_save]: [None] is a NULL file. *)
Definition client_savegame2_save (w : world) (file : option section_file)
           (save_reason : string) (scenario : bool) (s0 : sg_state)
  : sg_state :=
  match file with
  | None => add_log (Log_assert "file != NULL") s0
  | Some f => savegame2_save_real w f save_reason scenario s0
  end.

(** ** Notions used to state the properties *)

(** The sentinel tests of the three helpers. *)
Definition special_absent (S_LAST : Z) (sp : Z) : bool := sp >=? S_LAST.
Definition index_absent (v : Z) : bool := v <? 0.

(** A window whose absent slots all come last: once a slot holds the
    sentinel, so does every later slot. *)
Definition sentinels_trailing (absent : Z -> bool) (index : list Z) : Prop :=
  forall a b, 0 <= a <= b -> b < 4 ->
    absent (slot index a) = true -> absent (slot index b) = true.

(** A statement [m] respects a relation between states when every run of
    [m], whether it falls through or returns, relates the state before to
    the state after; it proceeds under the relation when, in addition, it
    always falls through. *)
Definition respects {A} (R : relation sg_state) (m : M A) : Prop :=
  forall s, R s (outcome_state (m s)).

Definition proceeds {A} (R : relation sg_state) (m : M A) : Prop :=
  forall s, exists a s', m s = Next a s' /\ R s s'.

(** The relations used below. [same_control]: the flag and what the caller
    asked for are untouched. [same_request]: [saving->scenario] and
    [saving->save_players] are untouched. [keeps_entries]: every entry of
    the file is still there, the replaceable ["savefile.options"] apart.
    [appends]: the file has only grown at its end, the flag is untouched. *)
Definition same_control : relation sg_state := fun s s' =>
  sg_success s' = sg_success s /\
  scenario (saving s') = scenario (saving s) /\
  save_reason (saving s') = save_reason (saving s).

Definition same_request : relation sg_state := fun s s' =>
  scenario (saving s') = scenario (saving s) /\
  save_players (saving s') = save_players (saving s).

Definition keeps_entries : relation sg_state := fun s s' =>
  forall e, In e (sg_file s) -> e.1 <> "savefile.options" ->
            In e (sg_file s').

Definition appends : relation sg_state := fun s s' =>
  sg_success s' = sg_success s /\
  exists es, sg_file s' = sg_file s ++ es.


(** The state with the given entries added at the end of the file. *)
Definition add_entries (es : list entry) (s : sg_state) : sg_state :=
  set_saving (set_file (file (saving s) ++ es) (saving s)) s.

(** What [savegame2_save_real] does once the stages have run. *)
Definition save_finish (s : sg_state) : sg_state :=
  if negb (sg_success s) then add_log Log_failure_saving s else s.


(** *** Unit ordering

    [unit_ordering_calc] seen as a sequence of writes [(unit, ordinal)]; the
    value a unit ends with is the one of the last write made to it. *)
Definition apply_writes (set : Z -> unit -> unit) (ws : list (Z * Z))
           (us : gmap Z unit) : gmap Z unit :=
  foldl (fun us wr => alter (set wr.2) wr.1 us) us ws.

Definition numbering (l : list Z) (j : Z) : list (Z * Z) :=
  zip l (seqZ j (Z.of_nat (length l))).

Definition player_city_writes (pplayer : player) : list (Z * Z) :=
  ((fun punit => (punit, 0)) <$> p_units pplayer) ++
  concat ((fun pcity => numbering (c_units_supported pcity) 0)
            <$> p_cities pplayer).

Definition city_writes (w : world) : list (Z * Z) :=
  concat (player_city_writes <$> players w).

Definition map_writes (w : world) : list (Z * Z) :=
  concat ((fun index => numbering (t_units (index_to_tile w index)) 0)
            <$> whole_map w).

Fixpoint last_write (punit : Z) (ws : list (Z * Z)) : option Z :=
  match ws with
  | [] => None
  | wr :: ws' =>
      match last_write punit ws' with
      | Some j => Some j
      | None => if Z.eqb wr.1 punit then Some wr.2 else None
      end
  end.

(** A unit after the pass, given the last write of each kind made to it. *)
Definition ordered (oc om : option Z) (punit : unit) : unit :=
  {| u_data := u_data punit;
     ord_map := default (ord_map punit) om;
     ord_city := default (ord_city punit) oc |}.

(** The unit lists of a game: every unit is in the list of one player, once;
    the units a city supports belong to the owner of the city, and no unit
    is supported twice; no unit stands on two tiles or twice on one; and the
    lists hold units that exist. *)
Definition all_units (w : world) : list Z :=
  concat (p_units <$> players w).

Definition supported_units (pplayer : player) : list Z :=
  concat (c_units_supported <$> p_cities pplayer).

Definition all_supported (w : world) : list Z :=
  concat (supported_units <$> players w).

Definition all_tile_units (w : world) : list Z :=
  concat ((fun index => t_units (index_to_tile w index)) <$> whole_map w).

Record unit_lists_ok (w : world) (us : gmap Z unit) : Prop := {
  units_once : NoDup (all_units w);
  supported_once : NoDup (all_supported w);
  supported_owned :
    forall pplayer punit,
      pplayer ∈ players w -> punit ∈ supported_units pplayer ->
      punit ∈ p_units pplayer;
  tile_units_once : NoDup (all_tile_units w);
  units_exist :
    forall punit,
      punit ∈ all_units w \/ punit ∈ all_tile_units w ->
      is_Some (us !! punit)
}.

(** *** Worklists

    The path of the record of the city at position [i] of a player's list,
    and the worklist part of that record: what [worklist_save] writes for the
    city, taken from a run on an empty file. *)
Definition city_buf (plr : player) (i : Z) : string :=
  fc_snprintf 32 ("player" +:+ fmt_d (p_number plr) +:+ ".c" +:+ fmt_d i).

Definition blank_state : sg_state :=
  {| sg_success := true; saving := savedata_new [] "" false;
     sg_log := []; sg_units := ∅ |}.

Definition worklist_record (w : world) (pwl : worklist) (max_length : Z)
           (path : string) : section_file :=
  sg_file (worklist_save w pwl max_length path blank_state).

(** The paths of the worklist slots of the city at position [i], as
    [worklist_save] forms them, and the paths that are no slot of that
    city. *)
Definition wl_kind_path (plr : player) (i d : Z) : string :=
  fc_snprintf 1024 (city_buf plr i) +:+ ".wl_kind" +:+ fmt_d d.

Definition wl_value_path (plr : player) (i d : Z) : string :=
  fc_snprintf 1024 (city_buf plr i) +:+ ".wl_value" +:+ fmt_d d.

Definition worklist_slot (plr : player) (path : string) : Prop :=
  exists i d, path = wl_kind_path plr i d \/ path = wl_value_path plr i d.

Definition no_slot_of (plr : player) (i : Z) (path : string) : Prop :=
  forall d, path <> wl_kind_path plr i d /\ path <> wl_value_path plr i d.

(** [appends_paths Q]: as [appends], and every entry added has its path in
    [Q]. *)
Definition appends_paths (Q : string -> Prop) : relation sg_state :=
  fun s s' =>
    sg_success s' = sg_success s /\
    exists es, sg_file s' = sg_file s ++ es /\ Forall (fun e => Q e.1) es.

(** A statement writes the record [R] among entries with paths in [Q] when,
    started with the flag up, it falls through with the flag still up and
    has only added entries to the file: the entries of [R] in one block,
    and before and after it entries whose paths are in [Q]. *)
Definition writes_record (Q : string -> Prop) (R : section_file) (m : M ())
  : Prop :=
  forall s, sg_success s = true ->
    exists s' pre post,
      m s = Next () s' /\ sg_success s' = true /\
      sg_file s' = sg_file s ++ pre ++ R ++ post /\
      Forall (fun e => Q e.1) pre /\ Forall (fun e => Q e.1) post.

(** ** Sample data

    A small game used to run the definitions on concrete inputs: a map of
    two tiles in one row, no players, the constants of the 2.5 headers. *)
Definition sample_consts (resource_none : ascii) : consts :=
  {| S_LAST := 11; S_OLD_RIVER := 7;
     RESOURCE_NONE_IDENTIFIER := resource_none;
     MAX_LEN_WORKLIST := 64; MAX_NUM_ITEMS := 200;
     ACTIVITY_LAST_count := 21; TRAIT_COUNT := 3; CITYO_LAST := 3;
     MAX_TRADE_ROUTES := 4; NUM_SS_STRUCTURALS := 32; SP_COUNT := 3;
     SSHIP_NONE := 0; SSHIP_LAUNCHED := 2;
     A_NONE := 0; A_FUTURE := 88; A_UNSET := 89; A_UNKNOWN := 90;
     I_NEVER := -1; BASE_NONE := -1; ROAD_NONE := -1;
     MAJOR_VERSION := 2; MINOR_VERSION := 5; PATCH_VERSION := 0;
     unit_activity_name := fun _ => "Idle";
     trait_name := fun _ => "Expansionist";
     special_rule_name := fun _ => "Hut";
     specialist_rule_name := fun _ => "elvis" |}.

Definition sample_tile (owner : option Z) (units : list Z) : tile :=
  {| t_terrain := Some "Grassland";
     t_special := fun _ => false; t_bases := fun _ => false;
     t_roads := fun _ => false; t_resource := None;
     t_owner := owner; t_claimer := None; t_worked := None;
     t_spec_sprite := None; t_label := None;
     t_known := fun _ => false; t_units := units |}.

Definition sample_worklist (names : list string) : worklist :=
  {| wl_length := Z.of_nat (length names);
     wl_entries :=
       (fun name => {| type_rule_name := "Building"; rule_name := name |})
         <$> names |}.

Definition sample_city (id : Z) (supported : list Z) (wl : worklist) : city :=
  {| c_center := 0; c_id := id; c_original := 0; c_size := 1;
     c_specialists := fun _ => 0; c_trade := fun _ => 0;
     c_food_stock := 0; c_shield_stock := 0; c_airlift := 0;
     c_was_happy := false; c_turn_plague := 0; c_anarchy := 0;
     c_rapture := 0; c_steal := 0; c_turn_founded := 0;
     c_did_buy := false; c_did_sell := false; c_turn_last_built := 0;
     c_name := "Town";
     c_production := universal_none; c_changed_from := universal_none;
     c_before_change_shields := 0; c_caravan_shields := 0;
     c_disbanded_shields := 0; c_last_turns_shield_surplus := 0;
     c_city_radius_sq := 5; c_built_turn := fun _ => -1;
     c_worklist := wl; c_city_options := fun _ => false;
     c_citizens_nation := fun _ => 0;
     c_units_supported := supported; c_ai_entries := fun _ => [] |}.

Definition sample_player (units : list Z) (cities : list city) : player :=
  {| p_number := 0; p_index := 0; p_name := "Caesar"; p_username := "user";
     p_rgb := None; p_ranked_username := ""; p_delegation := None;
     p_nation_rule_name := "Roman"; p_team := Some 0;
     p_government_rule_name := "Despotism"; p_target_government := None;
     p_city_style_rule_name := "Classical";
     p_is_male := true; p_is_alive := true; p_ai_controlled := false;
     p_diplstate := fun _ =>
       {| ds_type := 0; ds_max_state := 0; ds_first_contact_turn := 0;
          ds_turns_left := 0; ds_has_reason_to_cancel := 0;
          ds_contact_turns_left := 0 |};
     p_has_real_embassy := fun _ => false;
     p_gives_shared_vision := fun _ => false;
     p_love := fun _ => 0; p_ai_entries := [];
     p_skill_level := 3; p_barbarian_type := 0; p_gold := 50;
     p_tax := 40; p_science := 60; p_luxury := 0;
     p_research :=
       {| tech_goal := 89; techs_researched := 1; future_tech := 0;
          bulbs_researching_saved := 0; researching_saved := 90;
          bulbs_researched := 0; researching := 1; got_tech := false |};
     p_bulbs_last_turn := 0; p_invention_known := fun _ => false;
     p_got_first_city := true; p_revolution_finishes := -1;
     p_units_built := 0; p_units_killed := 0; p_units_lost := 0;
     p_spaceship :=
       {| ss_state := 0; ss_structurals := 0; ss_components := 0;
          ss_modules := 0; ss_fuel := 0; ss_propulsion := 0;
          ss_habitation := 0; ss_life_support := 0; ss_solar_panels := 0;
          ss_structure := fun _ => false; ss_launch_year := 0 |};
     p_wonder_lost := fun _ => false; p_attribute_block := None;
     p_units := units; p_cities := cities |}.

Definition sample_unit (id : Z) : unit :=
  {| u_data :=
       {| u_id := id; u_tile := 0; u_facing := DIR8_NORTH;
          u_nationality := 0; u_veteran := 0; u_hp := 10; u_homecity := 0;
          u_rule_name := "Warriors"; u_activity := 0; u_activity_count := 0;
          u_activity_target := {| tgt_type := ATT_SPECIAL; tgt_obj := 11 |};
          u_changed_from := 0; u_changed_from_count := 0;
          u_changed_from_target :=
            {| tgt_type := ATT_SPECIAL; tgt_obj := 11 |};
          u_done_moving := false; u_moves_left := 3; u_fuel := 0;
          u_birth_turn := 0; u_battlegroup := -1; u_goto_tile := None;
          u_ai_controlled := false; u_moved := false;
          u_paradropped := false; u_transporter := None;
          u_has_orders := false; u_orders := []; u_orders_index := 0;
          u_orders_repeat := false; u_orders_vigilant := false;
          u_last_order_move_is_safe := false;
          u_ai_entries := fun _ => [] |};
     ord_map := 99; ord_city := 99 |}.

(** [scen_players] is [game.scenario.players]; tile (0,0) belongs to
    player 0. *)
Definition sample_world_with (resource_none : ascii) (scen_players : bool)
           (ps : list player) (tile_units : Z -> list Z) : world :=
  {| cst := sample_consts resource_none;
     scenario_is_scenario := true; scenario_name := "Sample";
     scenario_description := ""; scenario_players := scen_players;
     scenario_startpos_nations := false;
     info_skill_level := 3; info_phase_mode := 0; info_phase := 0;
     info_turn := 1; info_year := -4000; info_year_0_hack := false;
     info_globalwarming := 0; info_heating := 0; info_warminglevel := 0;
     info_nuclearwinter := 0; info_cooling := 0; info_coolinglevel := 0;
     info_global_advances := fun _ => false; info_is_new_game := false;
     info_citizen_nationality := false;
     num_tech_types := 2; num_base_types := 5; num_road_types := 2;
     improvement_count := 2; improvement_rule_name := fun _ => "Palace";
     is_great_wonder := fun _ => false;
     great_wonder_is_destroyed := fun _ => false;
     advance_rule_name := fun _ => "Alphabet";
     base_rule_name := fun _ => "Fortress";
     road_rule_name := fun _ => "Road";
     game_was_started := true; server_state := S_S_RUNNING;
     server_states_name := fun _ => "S_S_RUNNING";
     meta_patches_string := ""; meta_addr_port := ""; game_identifier := "";
     serverid := ""; identity_number := 100; fc_rand_is_init := true;
     random_entries := []; script_entries := []; settings_entries := [];
     mapimg_count := 0; mapimg_id2str := fun _ => "";
     map_is_empty := false; xsize := 2; ysize := 1;
     native_pos_to_tile := fun x _ =>
       sample_tile (if x =? 0 then Some 0 else None) (tile_units x);
     players := ps; shuffled_players := p_number <$> ps;
     player_slot_max_used_number := 0;
     player_slot_is_used := fun _ => false |}.

Definition sample_world (resource_none : ascii) (scen_players : bool)
  : world := sample_world_with resource_none scen_players [] (fun _ => []).

(** One player with the units 1, 2, 3 and two cities: the first supports
    units 2 and 3 and has an empty worklist, the second supports none and
    has three worklist entries; units 1 and 2 stand on tile (0,0), unit 3 on
    tile (1,0). *)
Definition sample_game : world :=
  sample_world_with " " true
    [sample_player [1; 2; 3]
       [sample_city 10 [2; 3] (sample_worklist []);
        sample_city 11 []
          (sample_worklist ["Barracks"; "Granary"; "Temple"])]]
    (fun x => if x =? 0 then [1; 2] else [3]).

Definition sample_units : gmap Z unit :=
  {[ 1 := sample_unit 1; 2 := sample_unit 2; 3 := sample_unit 3 ]}.

Definition sample_state (ok : bool) : sg_state :=
  {| sg_success := ok; saving := savedata_new [] "sample" true;
     sg_log := []; sg_units := ∅ |}.

(** ** Notions used to state the further properties *)

(** The characters [quote_block] promises: [" a-f0-9:"]. *)
Definition quote_alphabet : string := " 0123456789abcdef:".
Definition decimal_digits : string := "0123456789".

(** Every character of [text] is one of [alphabet]. *)
Definition chars_in (alphabet text : string) : Prop :=
  forall c, In c (list_ascii_of_string text) ->
            In c (list_ascii_of_string alphabet).

(** The registry path of a part of the attribute block, and the entries of
    the parts [values], numbered from [first]. *)
Definition attribute_part_key (pl : string) (nr : Z) : string :=
  pl +:+ ".attribute_v2_block_data.part" +:+ fmt_d nr.

Definition attribute_part_entries (pl : string) (first : Z)
           (values : list string) : list entry :=
  zip_with (fun nr v => (attribute_part_key pl nr, VStr v))
    (seqZ first (Z.of_nat (length values))) values.

(** The index [bin2ascii_hex] reads [hex_chars] at:
    [((value) >> ((halfbyte_wanted) * 4)) & 0xf]. *)
Definition nibble (value halfbyte_wanted : Z) : Z :=
  Z.land (Z.shiftr value (halfbyte_wanted * 4)) 15.

(** The line [SAVE_MAP_CHAR] builds for a row, and the entries of the rows
    [ys]. *)
Definition map_line (w : world) (GET_XY_CHAR : Z -> Z -> ascii) (y : Z)
  : string :=
  chars ((fun x => GET_XY_CHAR x y) <$> seqZ 0 (xsize w)).

Definition map_rows (w : world) (GET_XY_CHAR : Z -> Z -> ascii)
           (secpath : Z -> string) (ys : list Z) : list entry :=
  (fun y => (secpath y, VStr (map_line w GET_XY_CHAR y))) <$> ys.

(** The state in which a failed [sg_failure_ret] leaves the function:
    [sg_success = FALSE; log_sg(message);]. *)
Definition failed_with (message : log_event) (s : sg_state) : sg_state :=
  add_log message (set_success false s).

(** What [LOAD_MAP_CHAR] makes of a map whose lines are all there:
    [SET_XY_CHAR] applied tile by tile, row by row. *)
Definition decode_rows {St} (SET_XY_CHAR : ascii -> Z -> Z -> St -> St)
           (w : world) (char_of : Z -> Z -> ascii) (st : St) : St :=
  foldl (fun st y =>
           foldl (fun st x => SET_XY_CHAR (char_of x y) x y st) st
             (seqZ 0 (xsize w)))
    st (seqZ 0 (ysize w)).

(** A row is complete when its line is in the file and has the width of the
    map. *)
Definition row_complete (w : world) (secfile : section_file)
           (secpath : Z -> string) (y : Z) : Prop :=
  exists line, secfile_lookup_str secfile (secpath y) = Some line /\
               Z.of_nat (String.length line) = xsize w.

(** [keeps_options]: the option string of the save is untouched and a
    lookup of ["savefile.options"] finds what it found before. *)
Definition keeps_options : relation sg_state := fun s s' =>
  secfile_options (saving s') = secfile_options (saving s) /\
  forall v, secfile_lookup (sg_file s) "savefile.options" = Some v ->
            secfile_lookup (sg_file s') "savefile.options" = Some v.

(** ** More sample data *)

(** A player with the attribute block [data]. *)
Definition with_attribute_block (data : list Z) (plr : player) : player :=
  {| p_number := p_number plr; p_index := p_index plr; p_name := p_name plr;
     p_username := p_username plr; p_rgb := p_rgb plr;
     p_ranked_username := p_ranked_username plr;
     p_delegation := p_delegation plr;
     p_nation_rule_name := p_nation_rule_name plr; p_team := p_team plr;
     p_government_rule_name := p_government_rule_name plr;
     p_target_government := p_target_government plr;
     p_city_style_rule_name := p_city_style_rule_name plr;
     p_is_male := p_is_male plr; p_is_alive := p_is_alive plr;
     p_ai_controlled := p_ai_controlled plr; p_diplstate := p_diplstate plr;
     p_has_real_embassy := p_has_real_embassy plr;
     p_gives_shared_vision := p_gives_shared_vision plr;
     p_love := p_love plr; p_ai_entries := p_ai_entries plr;
     p_skill_level := p_skill_level plr;
     p_barbarian_type := p_barbarian_type plr; p_gold := p_gold plr;
     p_tax := p_tax plr; p_science := p_science plr;
     p_luxury := p_luxury plr; p_research := p_research plr;
     p_bulbs_last_turn := p_bulbs_last_turn plr;
     p_invention_known := p_invention_known plr;
     p_got_first_city := p_got_first_city plr;
     p_revolution_finishes := p_revolution_finishes plr;
     p_units_built := p_units_built plr; p_units_killed := p_units_killed plr;
     p_units_lost := p_units_lost plr; p_spaceship := p_spaceship plr;
     p_wonder_lost := p_wonder_lost plr; p_attribute_block := Some data;
     p_units := p_units plr; p_cities := p_cities plr |}.

(** The two cities of the sample game. *)
Definition sample_cities : list city :=
  [sample_city 10 [2; 3] (sample_worklist []);
   sample_city 11 [] (sample_worklist ["Barracks"; "Granary"; "Temple"])].


(** * Properties *)

(** ** Encoding tables *)

Lemma order2char_inj (o1 o2 : unit_orders) :
  order_valid o1 -> order_valid o2 -> order2char o1 = order2char o2 -> o1 = o2.
Proof.
  unfold order_valid.
  destruct o1, o2; simpl; intros H1 H2 Heq;
    first [reflexivity | discriminate Heq | contradiction].
Qed.

Lemma dir2char_inj (d1 d2 : direction8) :
  dir2char d1 = dir2char d2 -> d1 = d2.
Proof.
  destruct d1, d2; simpl; intros Heq; first [reflexivity | discriminate Heq].
Qed.

Lemma activity2char_inj_but_legacy (a1 a2 : unit_activity) :
  activity_valid a1 -> activity_valid a2 ->
  activity2char a1 = activity2char a2 ->
  a1 = a2 \/ (activity_legacy a1 /\ activity_legacy a2).
Proof.
  unfold activity_valid, activity_legacy.
  destruct a1, a2; simpl; intros H1 H2 Heq;
    first [ left; reflexivity | discriminate Heq | contradiction
          | right; split; auto ].
Qed.

(** C9 (as stated, refuted): two distinct members of the activity
    enumeration, both below the count marker, share the character ['?'], so
    the activity encoding is not injective on the valid values. *)
Lemma activity2char_not_injective :
  activity_valid ACTIVITY_UNKNOWN /\
  activity_valid ACTIVITY_PATROL_UNUSED /\
  ACTIVITY_UNKNOWN <> ACTIVITY_PATROL_UNUSED /\
  activity2char ACTIVITY_UNKNOWN = activity2char ACTIVITY_PATROL_UNUSED.
Proof. repeat split; discriminate. Qed.

(** C9 (amended): [order2char] and [dir2char] are injective on the valid
    values of their enumerations; [activity2char] is injective on the valid
    activities except that the two compatibility members
    [ACTIVITY_UNKNOWN] and [ACTIVITY_PATROL_UNUSED] both encode as ['?']. *)
Theorem encoding_injective_up_to_legacy :
  (forall o1 o2, order_valid o1 -> order_valid o2 ->
                 order2char o1 = order2char o2 -> o1 = o2) /\
  (forall d1 d2, dir2char d1 = dir2char d2 -> d1 = d2) /\
  (forall a1 a2, activity_valid a1 -> activity_valid a2 ->
                 activity2char a1 = activity2char a2 ->
                 a1 = a2 \/ (activity_legacy a1 /\ activity_legacy a2)).
Proof.
  split; [exact order2char_inj | split];
    [exact dir2char_inj | exact activity2char_inj_but_legacy].
Qed.

Lemma encoding_injective_up_to_legacy_witness :
  (order_valid ORDER_MOVE /\ order_valid ORDER_HOMECITY /\
   (order2char ORDER_MOVE = order2char ORDER_HOMECITY ->
    ORDER_MOVE = ORDER_HOMECITY)) /\
  (activity_valid ACTIVITY_MINE /\ activity_valid ACTIVITY_UNKNOWN /\
   (activity2char ACTIVITY_MINE = activity2char ACTIVITY_UNKNOWN ->
    ACTIVITY_MINE = ACTIVITY_UNKNOWN \/
    (activity_legacy ACTIVITY_MINE /\ activity_legacy ACTIVITY_UNKNOWN))).
Proof.
  split.
  - split; [discriminate | split; [discriminate |]].
    apply (proj1 encoding_injective_up_to_legacy); discriminate.
  - split; [discriminate | split; [discriminate |]].
    apply (proj2 (proj2 encoding_injective_up_to_legacy)); discriminate.
Defined.

(** ** Half-byte packing *)

Lemma lor_bit_bound (bin i : Z) :
  0 <= i -> 0 <= bin < 2 ^ i -> 0 <= Z.lor bin (Z.shiftl 1 i) < 2 ^ (i + 1).
Proof.
  intros Hi [Hb0 Hb1].
  rewrite Z.shiftl_1_l.
  assert (Hdisj : Z.land bin (2 ^ i) = 0).
  { apply Z.bits_inj_0. intros k. rewrite Z.land_spec.
    destruct (Z.eq_dec k i) as [->|Hne].
    - destruct (Z.eq_dec bin 0) as [->|Hnz]; [now rewrite Z.bits_0|].
      rewrite (Z.bits_above_log2 bin i); [reflexivity | lia |].
      apply Z.log2_lt_pow2; lia.
    - rewrite (Z.pow2_bits_false i k) by lia. apply andb_false_r. }
  rewrite <- Z.add_nocarry_lor by exact Hdisj.
  rewrite Z.pow_add_r by lia. lia.
Qed.

(** The loop keeps [bin] below [2 ^ i], whatever the window holds. *)
Lemma halfbyte_loop_bound stop isset index n :
  forall i bin, 0 <= i -> 0 <= bin < 2 ^ i ->
    0 <= halfbyte_loop stop isset index n i bin < 2 ^ (i + Z.of_nat n).
Proof.
  induction n as [|n IH]; intros i bin Hi Hb; simpl halfbyte_loop.
  - rewrite Z.add_0_r. exact Hb.
  - assert (Hmono : 2 ^ i <= 2 ^ (i + 1)) by (apply Z.pow_le_mono_r; lia).
    assert (Hmono' : 2 ^ i <= 2 ^ (i + Z.of_nat (S n)))
      by (apply Z.pow_le_mono_r; lia).
    destruct (stop (slot index i)); [lia|].
    replace (i + Z.of_nat (S n)) with ((i + 1) + Z.of_nat n) by lia.
    apply IH; [lia|].
    destruct (isset (slot index i)); [apply lor_bit_bound; assumption | lia].
Qed.

Lemma halfbyte_bin_range stop isset index :
  0 <= halfbyte_loop stop isset index 4 0 0 <= 15.
Proof.
  pose proof (halfbyte_loop_bound stop isset index 4 0 0) as H.
  change (2 ^ (0 + Z.of_nat 4)) with 16 in H.
  change (2 ^ 0) with 1 in H. lia.
Qed.

(** Every nibble value indexes [hex_chars] inside the constant, at one of
    its sixteen characters, and that character passes the check made by
    [SAVE_MAP_CHAR]. *)
Lemma hex_index_ok (bin : Z) :
  0 <= bin <= 15 ->
  char_at hex_chars bin = Some (string_index hex_chars bin) /\
  In (string_index hex_chars bin) (list_ascii_of_string hex_chars) /\
  map_char_ok (string_index hex_chars bin) = true.
Proof.
  intros H.
  assert (Hcases : bin = 0 \/ bin = 1 \/ bin = 2 \/ bin = 3 \/ bin = 4 \/
                   bin = 5 \/ bin = 6 \/ bin = 7 \/ bin = 8 \/ bin = 9 \/
                   bin = 10 \/ bin = 11 \/ bin = 12 \/ bin = 13 \/
                   bin = 14 \/ bin = 15) by lia.
  repeat (destruct Hcases as [-> | Hcases]); try subst bin;
    (split; [reflexivity | split; [simpl; tauto | reflexivity]]).
Qed.

(** C10: the three bit-packing helpers are total; the nibble they accumulate
    lies in [0, 15], so the read of [hex_chars] is in bounds, the result is
    one of ['0'-'9','a'-'f'], and it passes the printable-character check of
    the map-saving loop. *)
Theorem halfbyte_get_hex_char (S_LAST : Z) (specials bases roads : bv)
        (index : list Z) :
  (0 <= sg_special_bin S_LAST specials index <= 15 /\
   char_at hex_chars (sg_special_bin S_LAST specials index)
     = Some (sg_special_get S_LAST specials index) /\
   In (sg_special_get S_LAST specials index) (list_ascii_of_string hex_chars) /\
   map_char_ok (sg_special_get S_LAST specials index) = true) /\
  (0 <= sg_bases_bin bases index <= 15 /\
   char_at hex_chars (sg_bases_bin bases index)
     = Some (sg_bases_get bases index) /\
   In (sg_bases_get bases index) (list_ascii_of_string hex_chars) /\
   map_char_ok (sg_bases_get bases index) = true) /\
  (0 <= sg_roads_bin roads index <= 15 /\
   char_at hex_chars (sg_roads_bin roads index)
     = Some (sg_roads_get roads index) /\
   In (sg_roads_get roads index) (list_ascii_of_string hex_chars) /\
   map_char_ok (sg_roads_get roads index) = true).
Proof.
  unfold sg_special_get, sg_bases_get, sg_roads_get,
    sg_special_bin, sg_bases_bin, sg_roads_bin.
  repeat split;
    first [ apply halfbyte_bin_range
          | apply hex_index_ok, halfbyte_bin_range ].
Qed.

Lemma testbit_above (bin i k : Z) :
  0 <= bin < 2 ^ i -> i <= k -> Z.testbit bin k = false.
Proof.
  intros [H0 H1] Hk.
  destruct (Z.eq_dec bin 0) as [->|Hnz]; [apply Z.bits_0|].
  apply Z.bits_above_log2; [lia|].
  assert (0 <= i) by (destruct (Z.le_gt_cases 0 i); [assumption|];
                      rewrite Z.pow_neg_r in H1 by lia; lia).
  assert (Z.log2 bin < i) by (apply Z.log2_lt_pow2; lia). lia.
Qed.

(** What the loop computes, bit by bit: bit [k] of the result is set exactly
    when none of the slots up to [k] holds the sentinel and the vector
    contains the value of slot [k]; the first sentinel ends the window. *)
Lemma halfbyte_loop_testbit stop isset index n :
  forall i bin k, 0 <= i -> 0 <= bin < 2 ^ i -> 0 <= k ->
    Z.testbit (halfbyte_loop stop isset index n i bin) k =
    if k <? i then Z.testbit bin k
    else if k <? i + Z.of_nat n
         then forallb (fun m => negb (stop (slot index m))) (seqZ i (k - i + 1))
              && isset (slot index k)
         else false.
Proof.
  induction n as [|n IH]; intros i bin k Hi Hb Hk; simpl halfbyte_loop.
  - destruct (k <? i) eqn:Hki; [reflexivity|].
    apply Z.ltb_ge in Hki.
    replace (k <? i + Z.of_nat 0) with false
      by (symmetry; apply Z.ltb_ge; lia).
    apply (testbit_above bin i k); assumption.
  - destruct (k <? i) eqn:Hki.
    + apply Z.ltb_lt in Hki.
      destruct (stop (slot index i)); [reflexivity|].
      rewrite IH; [| lia | | lia].
      * replace (k <? i + 1) with true by (symmetry; apply Z.ltb_lt; lia).
        destruct (isset (slot index i)); [|reflexivity].
        rewrite Z.lor_spec, Z.shiftl_1_l, Z.pow2_bits_false by lia.
        apply orb_false_r.
      * assert (2 ^ i <= 2 ^ (i + 1)) by (apply Z.pow_le_mono_r; lia).
        destruct (isset (slot index i));
          [apply lor_bit_bound; assumption | lia].
    + apply Z.ltb_ge in Hki.
      rewrite (seqZ_cons i (k - i + 1)) by lia. simpl forallb.
      destruct (stop (slot index i)) eqn:Hstop.
      * simpl. destruct (k <? i + Z.of_nat (S n));
          apply (testbit_above bin i k); assumption.
      * simpl negb. rewrite andb_true_l.
        assert (Hb' : 0 <= (if isset (slot index i)
                            then Z.lor bin (Z.shiftl 1 i) else bin)
                      < 2 ^ (i + 1)).
        { assert (2 ^ i <= 2 ^ (i + 1)) by (apply Z.pow_le_mono_r; lia).
          destruct (isset (slot index i));
            [apply lor_bit_bound; assumption | lia]. }
        rewrite IH; [| lia | exact Hb' | lia].
        destruct (Z.eq_dec k i) as [->|Hne].
        -- replace (i <? i + 1) with true by (symmetry; apply Z.ltb_lt; lia).
           replace (i <? i + Z.of_nat (S n)) with true
             by (symmetry; apply Z.ltb_lt; lia).
           replace (Z.pred (i - i + 1)) with 0 by lia.
           simpl forallb. rewrite andb_true_l.
           destruct (isset (slot index i)).
           ++ rewrite Z.lor_spec, Z.shiftl_1_l, Z.pow2_bits_true by lia.
              apply orb_true_r.
           ++ apply (testbit_above bin i i); [exact Hb | lia].
        -- replace (k <? i + 1) with false by (symmetry; apply Z.ltb_ge; lia).
           replace (Z.succ i + Z.of_nat n) with (i + Z.of_nat (S n)) by lia.
           replace (i + 1 + Z.of_nat n) with (i + Z.of_nat (S n)) by lia.
           replace (Z.pred (k - i + 1)) with (k - (i + 1) + 1) by lia.
           replace (Z.succ i) with (i + 1) by lia.
           reflexivity.
Qed.

Lemma halfbyte_bits_general stop isset index k :
  0 <= k < 4 ->
  Z.testbit (halfbyte_loop stop isset index 4 0 0) k =
  forallb (fun m => negb (stop (slot index m))) (seqZ 0 (k + 1))
  && isset (slot index k).
Proof.
  intros Hk.
  rewrite halfbyte_loop_testbit by (try lia; change (2 ^ 0) with 1; lia).
  replace (k <? 0) with false by (symmetry; apply Z.ltb_ge; lia).
  replace (k <? 0 + Z.of_nat 4) with true by (symmetry; apply Z.ltb_lt; lia).
  replace (k - 0 + 1) with (k + 1) by lia. reflexivity.
Qed.

Lemma halfbyte_bits_trailing stop isset index k :
  sentinels_trailing stop index -> 0 <= k < 4 ->
  Z.testbit (halfbyte_loop stop isset index 4 0 0) k =
  negb (stop (slot index k)) && isset (slot index k).
Proof.
  intros Htr Hk. rewrite halfbyte_bits_general by assumption.
  f_equal.
  destruct (stop (slot index k)) eqn:Hstop; simpl.
  - apply not_true_is_false. intros Hall.
    rewrite forallb_forall in Hall.
    specialize (Hall k). rewrite Hstop in Hall.
    assert (In k (seqZ 0 (k + 1)))
      by (apply list_elem_of_In, elem_of_seqZ; lia).
    specialize (Hall H). discriminate.
  - apply forallb_forall. intros m Hm.
    apply list_elem_of_In, elem_of_seqZ in Hm.
    destruct (stop (slot index m)) eqn:Hsm; [|reflexivity].
    rewrite (Htr m k) in Hstop; [discriminate | lia | lia | assumption].
Qed.

(** C3 (as stated, refuted): a window with a sentinel in slot 0 and base 0 in
    slot 1, and a vector that contains base 0. Slot 1 is present and its
    value is in the vector, yet bit 1 of the nibble is clear and the helper
    returns ['0']: the loop stops at the first sentinel. *)
Lemma bases_get_stops_at_first_sentinel :
  index_absent (slot [-1; 0; -1; -1] 1) = false /\
  BV_ISSET (fun b => b =? 0) (slot [-1; 0; -1; -1] 1) = true /\
  Z.testbit (sg_bases_bin (fun b => b =? 0) [-1; 0; -1; -1]) 1 = false /\
  sg_bases_get (fun b => b =? 0) [-1; 0; -1; -1] = "0"%char.
Proof. repeat split. Qed.

(** C3 (amended): for every bit-set value and every four-slot window whose
    sentinel slots all come last, each helper returns the hex character of a
    nibble in [0, 15] whose bit [i] is set exactly when slot [i] is present
    and the bit set contains the value of that slot. *)
Theorem halfbyte_get_bits (S_LAST : Z) (specials bases roads : bv) :
  (forall index, sentinels_trailing (special_absent S_LAST) index ->
     0 <= sg_special_bin S_LAST specials index <= 15 /\
     char_at hex_chars (sg_special_bin S_LAST specials index)
       = Some (sg_special_get S_LAST specials index) /\
     forall i, 0 <= i < 4 ->
       Z.testbit (sg_special_bin S_LAST specials index) i =
       negb (special_absent S_LAST (slot index i))
       && contains_special specials (slot index i)) /\
  (forall index, sentinels_trailing index_absent index ->
     0 <= sg_bases_bin bases index <= 15 /\
     char_at hex_chars (sg_bases_bin bases index)
       = Some (sg_bases_get bases index) /\
     forall i, 0 <= i < 4 ->
       Z.testbit (sg_bases_bin bases index) i =
       negb (index_absent (slot index i)) && BV_ISSET bases (slot index i)) /\
  (forall index, sentinels_trailing index_absent index ->
     0 <= sg_roads_bin roads index <= 15 /\
     char_at hex_chars (sg_roads_bin roads index)
       = Some (sg_roads_get roads index) /\
     forall i, 0 <= i < 4 ->
       Z.testbit (sg_roads_bin roads index) i =
       negb (index_absent (slot index i)) && BV_ISSET roads (slot index i)).
Proof.
  unfold sg_special_get, sg_bases_get, sg_roads_get,
    sg_special_bin, sg_bases_bin, sg_roads_bin.
  repeat split;
    first [ apply halfbyte_bin_range
          | apply hex_index_ok, halfbyte_bin_range
          | intros i Hi; apply halfbyte_bits_trailing; assumption ].
Qed.

Lemma sentinels_trailing_sample :
  sentinels_trailing (special_absent 11) [8; 9; 10; 11].
Proof.
  intros a b Hab Hb.
  assert (Ha : a = 0 \/ a = 1 \/ a = 2 \/ a = 3) by lia.
  assert (Hb' : b = 0 \/ b = 1 \/ b = 2 \/ b = 3) by lia.
  destruct Ha as [-> | [-> | [-> | ->]]]; destruct Hb' as [-> | [-> | [-> | ->]]];
    vm_compute; intros; first [reflexivity | discriminate | lia].
Defined.

Lemma halfbyte_get_bits_witness :
  sentinels_trailing (special_absent 11) [8; 9; 10; 11] /\
  (0 <= sg_special_bin 11 (fun sp => sp =? 9) [8; 9; 10; 11] <= 15 /\
   char_at hex_chars (sg_special_bin 11 (fun sp => sp =? 9) [8; 9; 10; 11])
     = Some (sg_special_get 11 (fun sp => sp =? 9) [8; 9; 10; 11]) /\
   forall i, 0 <= i < 4 ->
     Z.testbit (sg_special_bin 11 (fun sp => sp =? 9) [8; 9; 10; 11]) i =
     negb (special_absent 11 (slot [8; 9; 10; 11] i))
     && contains_special (fun sp => sp =? 9) (slot [8; 9; 10; 11] i)).
Proof.
  split; [exact sentinels_trailing_sample |].
  apply (proj1 (halfbyte_get_bits 11 (fun sp => sp =? 9)
                  (fun _ => false) (fun _ => false))).
  exact sentinels_trailing_sample.
Defined.

(** ** The windows of the bit-packed classes *)

Lemma halfbyte_iterate_from_seqZ (num : Z) (fuel : nat) :
  forall j, 0 <= j -> (num + 3) `div` 4 - j <= Z.of_nat fuel ->
    halfbyte_iterate_from fuel num j = seqZ j ((num + 3) `div` 4 - j).
Proof.
  induction fuel as [|fuel IH]; intros j Hj Hfuel; simpl.
  - rewrite seqZ_nil by lia. reflexivity.
  - destruct (4 * j <? num) eqn:Hlt.
    + apply Z.ltb_lt in Hlt.
      assert (j < (num + 3) `div` 4) by (Z.div_mod_to_equations; lia).
      rewrite (seqZ_cons j) by lia.
      rewrite IH by lia. f_equal. f_equal; lia.
    + apply Z.ltb_ge in Hlt.
      assert ((num + 3) `div` 4 <= j) by (Z.div_mod_to_equations; lia).
      rewrite seqZ_nil by lia. reflexivity.
Qed.

(** The groups of a class of size [num] are [0 .. ceil(num/4) - 1]. *)
Lemma halfbyte_iterate_groups (num : Z) :
  halfbyte_iterate num = seqZ 0 ((num + 3) `div` 4).
Proof.
  unfold halfbyte_iterate.
  rewrite halfbyte_iterate_from_seqZ.
  - f_equal. lia.
  - lia.
  - destruct (Z.le_gt_cases num 0).
    + assert ((num + 3) `div` 4 <= 0) by (Z.div_mod_to_equations; lia).
      lia.
    + assert ((num + 3) `div` 4 <= num) by (Z.div_mod_to_equations; lia).
      lia.
Qed.

(** The window of the specials is built as C4 says: indices below [S_LAST]
    as they are, the sentinel [S_LAST] from there on. *)
Lemma specials_mod_slot (S_LAST S_OLD_RIVER j l : Z) :
  0 <= l < 4 ->
  slot (specials_mod S_LAST S_OLD_RIVER false j) l =
  if 4 * j + l <? S_LAST then 4 * j + l else S_LAST.
Proof.
  intros Hl.
  assert (Hc : l = 0 \/ l = 1 \/ l = 2 \/ l = 3) by lia.
  destruct Hc as [-> | [-> | [-> | ->]]]; unfold slot; simpl;
    match goal with
    | |- context [?a <? S_LAST] => destruct (Z.ltb_spec a S_LAST); lia
    end.
Qed.

Lemma specials_mod_trailing (S_LAST S_OLD_RIVER j : Z) :
  sentinels_trailing (special_absent S_LAST)
    (specials_mod S_LAST S_OLD_RIVER false j).
Proof.
  intros a b Hab Hb. unfold special_absent.
  rewrite !specials_mod_slot by lia.
  intros Ha. apply Z.geb_le in Ha. apply Z.geb_le.
  destruct (Z.ltb_spec (4 * j + a) S_LAST);
    destruct (Z.ltb_spec (4 * j + b) S_LAST); lia.
Qed.

(** C4 (what the code does): inside the loop over the groups, where
    [4 * j < N], the test [4 * j + 1 > N] of the bases and roads windows
    never holds, so the window is [4j, 4j+1, 4j+2, 4j+3] whatever [N] is:
    no slot ever receives the sentinel. *)
Theorem bases_roads_mod_never_sentinel (N j : Z) :
  4 * j < N ->
  bases_mod N j = [4 * j + 0; 4 * j + 1; 4 * j + 2; 4 * j + 3] /\
  roads_mod N j = [4 * j + 0; 4 * j + 1; 4 * j + 2; 4 * j + 3].
Proof.
  intros H. unfold bases_mod, roads_mod.
  assert (Hg : (4 * j + 1 >? N) = false)
    by (rewrite Z.gtb_ltb; apply Z.ltb_ge; lia).
  simpl. rewrite Hg. split; reflexivity.
Qed.

(** At five base types the second group queries the indices 5, 6 and 7:
    with base 5 alone in the vector (an index outside the class) the saved
    character is ['2'], where the window of C4 gives ['0']. *)
Lemma bases_roads_mod_never_sentinel_witness :
  In 1 (halfbyte_iterate 5) /\
  bases_mod 5 1 = [4; 5; 6; 7] /\
  roads_mod 5 1 = [4; 5; 6; 7] /\
  sg_bases_get (fun b => b =? 5) (bases_mod 5 1) = "2"%char /\
  sg_bases_get (fun b => b =? 5) [4; -1; -1; -1] = "0"%char.
Proof.
  split; [vm_compute; tauto |].
  pose proof (bases_roads_mod_never_sentinel 5 1 ltac:(lia)) as [Hb Hr].
  split; [exact Hb | split; [exact Hr | split; reflexivity]].
Defined.

(** ** Running statements *)

Section Respects.

Context (R : relation sg_state) `{!PreOrder R}.

Lemma respects_ret {A} (a : A) : respects R (mret a).
Proof. intros s. simpl. reflexivity. Qed.

Lemma respects_return {A} : respects R (@return_ A).
Proof. intros s. simpl. reflexivity. Qed.

Lemma respects_bind {A B} (m : M A) (k : A -> M B) :
  respects R m -> (forall a, respects R (k a)) -> respects R (m ≫= k).
Proof.
  intros Hm Hk s. unfold mbind, M_bind.
  specialize (Hm s). destruct (m s) as [a s'|s']; simpl in *.
  - etransitivity; [exact Hm | apply Hk].
  - exact Hm.
Qed.

Lemma respects_for_each {A} (l : list A) (body : A -> M ()) :
  (forall x, respects R (body x)) -> respects R (for_each l body).
Proof.
  intros Hb. induction l as [|x l IH]; simpl.
  - apply respects_ret.
  - apply respects_bind; [apply Hb | intros _; exact IH].
Qed.

Lemma respects_when (b : bool) (m : M ()) :
  respects R m -> respects R (when b m).
Proof. intros Hm. destruct b; simpl; [exact Hm | apply respects_ret]. Qed.

Lemma respects_get_state : respects R get_state.
Proof. intros s. simpl. reflexivity. Qed.

Lemma respects_sg_check_ret : respects R sg_check_ret.
Proof. intros s. unfold sg_check_ret. destruct (sg_success s); reflexivity. Qed.

Lemma respects_call (f : sg_state -> sg_state) :
  (forall s, R s (f s)) -> respects R (call f).
Proof. intros Hf s. simpl. apply Hf. Qed.

Lemma respects_modify (f : sg_state -> sg_state) :
  (forall s, R s (f s)) -> respects R (modify f).
Proof. intros Hf s. simpl. apply Hf. Qed.

Lemma respects_fn (body : M ()) :
  respects R body -> forall s, R s (fn body s).
Proof. intros Hb s. apply Hb. Qed.

Lemma proceeds_respects {A} (m : M A) : proceeds R m -> respects R m.
Proof.
  intros Hm s. destruct (Hm s) as (a & s' & -> & HR). exact HR.
Qed.

Lemma proceeds_ret {A} (a : A) : proceeds R (mret a).
Proof. intros s. exists a, s. split; reflexivity. Qed.

Lemma proceeds_bind {A B} (m : M A) (k : A -> M B) :
  proceeds R m -> (forall a, proceeds R (k a)) -> proceeds R (m ≫= k).
Proof.
  intros Hm Hk s. unfold mbind, M_bind.
  destruct (Hm s) as (a & s' & -> & HR).
  destruct (Hk a s') as (b & s'' & -> & HR').
  exists b, s''. split; [reflexivity | etransitivity; eassumption].
Qed.

Lemma proceeds_for_each {A} (l : list A) (body : A -> M ()) :
  (forall x, proceeds R (body x)) -> proceeds R (for_each l body).
Proof.
  intros Hb. induction l as [|x l IH]; simpl.
  - apply proceeds_ret.
  - apply proceeds_bind; [apply Hb | intros _; exact IH].
Qed.

Lemma proceeds_when (b : bool) (m : M ()) :
  proceeds R m -> proceeds R (when b m).
Proof. intros Hm. destruct b; simpl; [exact Hm | apply proceeds_ret]. Qed.

Lemma proceeds_get_state : proceeds R get_state.
Proof. intros s. exists s, s. split; reflexivity. Qed.

Lemma proceeds_call (f : sg_state -> sg_state) :
  (forall s, R s (f s)) -> proceeds R (call f).
Proof. intros Hf s. exists (), (f s). split; [reflexivity | apply Hf]. Qed.

Lemma proceeds_modify (f : sg_state -> sg_state) :
  (forall s, R s (f s)) -> proceeds R (modify f).
Proof. intros Hf s. exists (), (f s). split; [reflexivity | apply Hf]. Qed.

End Respects.

Global Instance same_control_preorder : PreOrder same_control.
Proof.
  split.
  - intros s. repeat split.
  - intros s1 s2 s3 (H1 & H2 & H3) (H1' & H2' & H3').
    repeat split; congruence.
Qed.

Global Instance same_request_preorder : PreOrder same_request.
Proof.
  split.
  - intros s. split; reflexivity.
  - intros s1 s2 s3 [H1 H2] [H1' H2']. split; congruence.
Qed.

Global Instance keeps_entries_preorder : PreOrder keeps_entries.
Proof.
  split.
  - intros s e He _. exact He.
  - intros s1 s2 s3 H12 H23 e He Hk. apply H23; [apply H12|]; assumption.
Qed.

Global Instance appends_preorder : PreOrder appends.
Proof.
  split.
  - intros s. split; [reflexivity|]. exists []. symmetry. apply app_nil_r.
  - intros s1 s2 s3 [Hf (es & Hes)] [Hf' (es' & Hes')].
    split; [congruence|]. exists (es ++ es').
    rewrite Hes', Hes. symmetry. apply app_assoc.
Qed.

(** The file operations, under each relation. *)
Lemma secfile_replace_keeps (v : value) (path : string) (f : section_file)
      (e : entry) :
  In e f -> e.1 <> path -> In e (secfile_replace v path f).
Proof.
  induction f as [|[p old] f IH]; simpl; intros He Hne; [contradiction|].
  destruct (String.eqb_spec p path) as [->|Hp].
  - destruct He as [<-|He]; [simpl in Hne; congruence | right; exact He].
  - destruct He as [<-|He]; [left; reflexivity | right; auto].
Qed.

Lemma modify_file_same_control g s :
  same_control s (set_saving (set_file (g (file (saving s))) (saving s)) s).
Proof. repeat split. Qed.

Lemma modify_file_same_request g s :
  same_request s (set_saving (set_file (g (file (saving s))) (saving s)) s).
Proof. split; reflexivity. Qed.

Lemma modify_file_keeps_append (es : list entry) s :
  keeps_entries s
    (set_saving (set_file (file (saving s) ++ es) (saving s)) s).
Proof. intros e He _. unfold sg_file. simpl. apply in_or_app. left. exact He. Qed.

Lemma modify_file_keeps_replace v s :
  keeps_entries s
    (set_saving
       (set_file (secfile_replace v "savefile.options" (file (saving s)))
          (saving s)) s).
Proof.
  intros e He Hne. unfold sg_file. simpl.
  apply secfile_replace_keeps; assumption.
Qed.

Lemma modify_file_appends (es : list entry) s :
  appends s (set_saving (set_file (file (saving s) ++ es) (saving s)) s).
Proof. split; [reflexivity|]. exists es. reflexivity. Qed.

Lemma keeps_entries_same_file s s' :
  sg_file s' = sg_file s -> keeps_entries s s'.
Proof. intros H e He _. rewrite H. exact He. Qed.

Lemma appends_same_file s s' :
  sg_success s' = sg_success s -> sg_file s' = sg_file s -> appends s s'.
Proof.
  intros Hf H. split; [exact Hf|]. exists []. rewrite H.
  symmetry; apply app_nil_r.
Qed.

Create HintDb sg_leaf.

Global Hint Resolve modify_file_same_control modify_file_same_request
  modify_file_keeps_append modify_file_keeps_replace modify_file_appends
  : sg_leaf.

(** Leaves of a statement: after the file operations are unfolded, a leaf is
    a [modify] whose effect is checked against the relation at hand. *)
Ltac sg_leaf :=
  intros; cbv beta;
  first
    [ solve [eauto with sg_leaf]
    | solve [unfold secfile_insert; eauto with sg_leaf]
    | solve [repeat split]
    | solve [apply keeps_entries_same_file; reflexivity]
    | solve [apply appends_same_file; reflexivity] ].

Ltac sg_unfold :=
  unfold secfile_insert_int, secfile_insert_bool, secfile_insert_str,
    secfile_insert_str_vec, secfile_replace_str, secfile_insert_entries,
    technology_save, log_sg, fc_assert_ret, modify_file.

(** ** The success flag *)

Lemma fn_check_false (body : () -> M ()) (s : sg_state) :
  sg_success s = false -> fn (sg_check_ret ≫= body) s = s.
Proof.
  intros H. unfold fn, mbind, M_bind, sg_check_ret. rewrite H. reflexivity.
Qed.

Lemma fn_check_only_false (s : sg_state) :
  sg_success s = false -> fn sg_check_ret s = s.
Proof. intros H. unfold fn, sg_check_ret. rewrite H. reflexivity. Qed.

Lemma fn_check_true (body : () -> M ()) (s : sg_state) :
  sg_success s = true ->
  fn (sg_check_ret ≫= body) s = outcome_state (body () s).
Proof.
  intros H. unfold fn, mbind, M_bind, sg_check_ret. rewrite H. reflexivity.
Qed.

Ltac head_of t :=
  lazymatch t with
  | ?f _ => head_of f
  | _ => t
  end.

Ltac stage_skipped :=
  lazymatch goal with
  | |- ?t = _ =>
      let h := head_of t in
      unfold h; cbv zeta;
      first [ apply fn_check_false | apply fn_check_only_false ];
      assumption
  end.

(** Every stage called by [savegame2_save_real] or by [sg_save_map] leaves
    the state as it found it when the flag is down. *)
Lemma stages_skip_when_failed (w : world) (s : sg_state) :
  sg_success s = false -> Forall (fun stage => stage s = s) (all_stages w).
Proof.
  intros H. unfold all_stages, top_stages. simpl.
  repeat (constructor; [stage_skipped |]). constructor.
Qed.

Lemma player_stages_skip_when_failed (w : world) (plr : player)
      (s : sg_state) :
  sg_success s = false ->
  sg_save_player_main w plr s = s /\
  sg_save_player_cities w plr s = s /\
  sg_save_player_units w plr s = s /\
  sg_save_player_attributes w plr s = s.
Proof. intros H. repeat split; stage_skipped. Qed.

Lemma run_stages_skip (stages : list (sg_state -> sg_state)) (s : sg_state) :
  Forall (fun stage => stage s = s) stages -> run_stages stages s = s.
Proof.
  unfold run_stages. induction 1 as [|stage stages Hs _ IH]; simpl.
  - reflexivity.
  - rewrite Hs. exact IH.
Qed.

Lemma run_stages_app (l1 l2 : list (sg_state -> sg_state)) (s : sg_state) :
  run_stages (l1 ++ l2) s = run_stages l2 (run_stages l1 s).
Proof. unfold run_stages. apply foldl_app. Qed.

(** [savegame2_save_real] is the run of the ten stages, in their order, from
    the initial state, followed by the final report. *)
Lemma savegame2_save_real_unfold (w : world) file reason scen s0 :
  savegame2_save_real w file reason scen s0 =
  save_finish (run_stages (top_stages w) (save_init file reason scen s0)).
Proof.
  cbv beta delta [savegame2_save_real save_finish run_stages top_stages
                    save_init foldl] iota zeta.
  reflexivity.
Qed.

(** C2: once [sg_success] is false, every [sg_save_*] stage invoked
    afterwards returns at its entry and leaves the file (indeed the whole
    state) as it was; [savegame2_save_real] is nevertheless the run of all
    ten stages in their fixed order followed by the final report, so when
    the flag is down after some of them, the call still goes through the
    remaining ones and ends in the state reached at the failure, with the
    failure reported in the log. *)
Theorem failed_save_skips_remaining_stages (w : world) :
  (forall s, sg_success s = false ->
     Forall (fun stage => stage s = s) (all_stages w) /\
     (forall option, sg_save_savefile_options option s = s) /\
     (forall plr,
        sg_save_player_main w plr s = s /\
        sg_save_player_cities w plr s = s /\
        sg_save_player_units w plr s = s /\
        sg_save_player_attributes w plr s = s)) /\
  (forall file reason scen s0,
     savegame2_save_real w file reason scen s0 =
     save_finish (run_stages (top_stages w) (save_init file reason scen s0))) /\
  (forall file reason scen s0 pre post,
     top_stages w = pre ++ post ->
     sg_success (run_stages pre (save_init file reason scen s0)) = false ->
     savegame2_save_real w file reason scen s0 =
     add_log Log_failure_saving
       (run_stages pre (save_init file reason scen s0))).
Proof.
  split; [| split].
  - intros s H. split; [| split].
    + apply stages_skip_when_failed; exact H.
    + intros option. stage_skipped.
    + intros plr. apply player_stages_skip_when_failed; exact H.
  - intros. apply savegame2_save_real_unfold.
  - intros file reason scen s0 pre post Hsplit Hfail.
    rewrite savegame2_save_real_unfold, Hsplit, run_stages_app.
    rewrite run_stages_skip.
    + unfold save_finish. rewrite Hfail. reflexivity.
    + pose proof (stages_skip_when_failed w _ Hfail) as Hall.
      unfold all_stages in Hall. rewrite Forall_app in Hall.
      destruct Hall as [Htop _]. rewrite Hsplit, Forall_app in Htop.
      exact (proj2 Htop).
Qed.

(** A run in which the resources line cannot be written (the identifier of
    "no resource" is taken to be NUL): the map stage lowers the flag, the
    three stages after it change nothing. *)
Lemma failed_save_skips_remaining_stages_witness :
  sg_success (sample_state false) = false /\
  Forall (fun stage => stage (sample_state false) = sample_state false)
    (all_stages (sample_world "000" false)) /\
  sg_success
    (run_stages (take 7 (top_stages (sample_world "000" false)))
       (save_init [] "sample" true (sample_state true))) = false /\
  savegame2_save_real (sample_world "000" false) [] "sample" true
    (sample_state true) =
  add_log Log_failure_saving
    (run_stages (take 7 (top_stages (sample_world "000" false)))
       (save_init [] "sample" true (sample_state true))).
Proof.
  split; [reflexivity |].
  split.
  { apply (proj1 (failed_save_skips_remaining_stages
                    (sample_world "000" false))).
    reflexivity. }
  split; [vm_compute; reflexivity |].
  apply (proj2 (proj2 (failed_save_skips_remaining_stages
                         (sample_world "000" false)))
           [] "sample" true (sample_state true)
           (take 7 (top_stages (sample_world "000" false)))
           (drop 7 (top_stages (sample_world "000" false)))).
  - reflexivity.
  - vm_compute; reflexivity.
Defined.

(** ** The map line macro *)

Section RespectsFailure.

(** Relations that do not mind the flag going down, a log line, or an
    entry added to the file. *)
Context (R : relation sg_state) `{!PreOrder R}.
Hypothesis R_flag : forall s, R s (set_success false s).
Hypothesis R_log : forall e s, R s (add_log e s).
Hypothesis R_add : forall es s, R s (add_entries es s).

Lemma respects_sg_failure_ret (condition : bool) (message : log_event) :
  respects R (sg_failure_ret condition message).
Proof.
  unfold sg_failure_ret. destruct condition; [apply (respects_ret R)|].
  apply (respects_bind R); [apply (respects_modify R), R_flag |].
  intros _. apply (respects_bind R);
    [apply (respects_modify R), R_log | intros _].
  apply (respects_sg_check_ret R).
Qed.

Lemma respects_save_map_line GET_XY_CHAR nat_y xs :
  forall line, respects R (save_map_line GET_XY_CHAR nat_y xs line).
Proof.
  induction xs as [|x xs IH]; intros line; simpl.
  - apply (respects_ret R).
  - apply (respects_bind R); [apply respects_sg_failure_ret |].
    intros _. apply IH.
Qed.

Lemma respects_SAVE_MAP_CHAR w GET_XY_CHAR secpath :
  respects R (SAVE_MAP_CHAR w GET_XY_CHAR secpath).
Proof.
  unfold SAVE_MAP_CHAR. apply (respects_for_each R). intros y.
  apply (respects_bind R); [apply respects_save_map_line |].
  intros line. apply (respects_modify R). intros s. apply R_add.
Qed.

End RespectsFailure.

Lemma same_request_flag s : same_request s (set_success false s).
Proof. split; reflexivity. Qed.
Lemma same_request_log e s : same_request s (add_log e s).
Proof. split; reflexivity. Qed.
Lemma same_request_add es s : same_request s (add_entries es s).
Proof. split; reflexivity. Qed.
Lemma keeps_entries_flag s : keeps_entries s (set_success false s).
Proof. apply keeps_entries_same_file; reflexivity. Qed.
Lemma keeps_entries_log e s : keeps_entries s (add_log e s).
Proof. apply keeps_entries_same_file; reflexivity. Qed.
Lemma keeps_entries_add es s : keeps_entries s (add_entries es s).
Proof. apply modify_file_keeps_append. Qed.

Global Hint Resolve same_request_flag same_request_log same_request_add
  keeps_entries_flag keeps_entries_log keeps_entries_add : sg_leaf.

Lemma add_entries_nil (s : sg_state) : add_entries [] s = s.
Proof.
  destruct s as [ok [f o r sc sp] lg us]. unfold add_entries. simpl.
  rewrite app_nil_r. reflexivity.
Qed.

Lemma add_entries_app (es1 es2 : list entry) (s : sg_state) :
  add_entries es2 (add_entries es1 s) = add_entries (es1 ++ es2) s.
Proof.
  destruct s as [ok [f o r sc sp] lg us]. unfold add_entries. simpl.
  rewrite app_assoc. reflexivity.
Qed.

Lemma sg_file_add_entries (es : list entry) (s : sg_state) :
  sg_file (add_entries es s) = sg_file s ++ es.
Proof. reflexivity. Qed.

(** When every character passes the check, a line is the characters of its
    tiles and the macro adds one entry per row. *)
Lemma save_map_line_ok GET_XY_CHAR nat_y xs :
  (forall x, map_char_ok (GET_XY_CHAR x nat_y) = true) ->
  forall line s,
    save_map_line GET_XY_CHAR nat_y xs line s =
    Next (line ++ ((fun x => GET_XY_CHAR x nat_y) <$> xs)) s.
Proof.
  intros Hok. induction xs as [|x xs IH]; intros line s; simpl.
  - rewrite app_nil_r. reflexivity.
  - unfold mbind, M_bind, sg_failure_ret. rewrite Hok. simpl.
    rewrite IH, <- app_assoc. reflexivity.
Qed.

Lemma for_each_map_lines_ok w GET_XY_CHAR secpath ys :
  (forall x y, map_char_ok (GET_XY_CHAR x y) = true) ->
  forall s,
    for_each ys (fun nat_y =>
      line ← save_map_line GET_XY_CHAR nat_y (seqZ 0 (xsize w)) [];
      secfile_insert_str (chars line) (secpath nat_y)) s =
    Next ()
      (add_entries
         ((fun y =>
             (secpath y,
              VStr (chars ((fun x => GET_XY_CHAR x y) <$> seqZ 0 (xsize w)))))
            <$> ys) s).
Proof.
  intros Hok. induction ys as [|y ys IH]; intros s; simpl.
  - rewrite add_entries_nil. reflexivity.
  - unfold mbind, M_bind.
    rewrite save_map_line_ok by (intros x; apply Hok).
    simpl. rewrite IH. f_equal.
    apply (add_entries_app [_] _ s).
Qed.

Lemma SAVE_MAP_CHAR_ok w GET_XY_CHAR secpath s :
  (forall x y, map_char_ok (GET_XY_CHAR x y) = true) ->
  SAVE_MAP_CHAR w GET_XY_CHAR secpath s =
  Next ()
    (add_entries
       ((fun y =>
           (secpath y,
            VStr (chars ((fun x => GET_XY_CHAR x y) <$> seqZ 0 (xsize w)))))
          <$> seqZ 0 (ysize w)) s).
Proof. intros Hok. apply for_each_map_lines_ok, Hok. Qed.

Lemma terrain2char_printable (pterrain : option string) :
  map_char_ok (terrain2char pterrain) = true.
Proof.
  destruct pterrain as [name|]; [| reflexivity].
  unfold terrain2char.
  repeat match goal with
         | |- context [String.eqb name ?n] => destruct (String.eqb name n)
         end; reflexivity.
Qed.

(** ** Stage by stage *)

Ltac respects_step :=
  lazymatch goal with
  | |- respects ?R (mbind _ _) => apply (respects_bind R); [| intros ?]
  | |- respects ?R (for_each _ _) => apply (respects_for_each R); intros ?
  | |- respects ?R (when _ _) => apply (respects_when R)
  | |- respects ?R (mret _) => apply (respects_ret R)
  | |- respects ?R return_ => apply (respects_return R)
  | |- respects ?R get_state => apply (respects_get_state R)
  | |- respects ?R sg_check_ret => apply (respects_sg_check_ret R)
  | |- respects ?R (call _) => apply (respects_call R)
  | |- respects ?R (modify _) => apply (respects_modify R); sg_leaf
  | |- respects ?R (sg_failure_ret _ _) =>
      apply (respects_sg_failure_ret R); sg_leaf
  | |- respects ?R (SAVE_MAP_CHAR _ _ _) =>
      apply (respects_SAVE_MAP_CHAR R); sg_leaf
  | |- respects _ (if ?b then _ else _) => destruct b
  | |- respects _ (match ?x with _ => _ end) => destruct x
  end.

Ltac respects_tac :=
  repeat (cbv zeta; sg_unfold; respects_step).

Lemma sg_save_savefile_options_same_control option s :
  same_control s (sg_save_savefile_options option s).
Proof.
  unfold sg_save_savefile_options; apply (respects_fn same_control). respects_tac.
Qed.

Lemma sg_save_scenario_same_control w s :
  same_control s (sg_save_scenario w s).
Proof. unfold sg_save_scenario; apply (respects_fn same_control). respects_tac. Qed.

Lemma sg_save_savefile_same_control w s :
  same_control s (sg_save_savefile w s).
Proof.
  unfold sg_save_savefile; apply (respects_fn same_control). respects_tac.
  apply sg_save_savefile_options_same_control.
Qed.

Lemma sg_save_game_same_control w s :
  same_control s (sg_save_game w s).
Proof. unfold sg_save_game; apply (respects_fn same_control). respects_tac. Qed.

Lemma sg_save_random_same_control w s :
  same_control s (sg_save_random w s).
Proof. unfold sg_save_random; apply (respects_fn same_control). respects_tac. Qed.

Lemma sg_save_script_same_control w s :
  same_control s (sg_save_script w s).
Proof. unfold sg_save_script; apply (respects_fn same_control). respects_tac. Qed.

Lemma sg_save_settings_same_control w s :
  same_control s (sg_save_settings w s).
Proof. unfold sg_save_settings; apply (respects_fn same_control). respects_tac. Qed.

Ltac stage_respects R :=
  lazymatch goal with
  | |- R _ ?t =>
      let h := head_of t in
      unfold h; cbv zeta; apply (respects_fn R); respects_tac
  end.

Lemma sg_save_savefile_options_same_request o s :
  same_request s (sg_save_savefile_options o s).
Proof. stage_respects same_request. Qed.
Lemma sg_save_map_tiles_same_request w s :
  same_request s (sg_save_map_tiles w s).
Proof. stage_respects same_request. Qed.
Lemma sg_save_map_startpos_same_request w s :
  same_request s (sg_save_map_startpos w s).
Proof. stage_respects same_request. Qed.
Lemma sg_save_map_tiles_bases_same_request w s :
  same_request s (sg_save_map_tiles_bases w s).
Proof. stage_respects same_request. Qed.
Lemma sg_save_map_tiles_roads_same_request w s :
  same_request s (sg_save_map_tiles_roads w s).
Proof. stage_respects same_request. Qed.
Lemma sg_save_map_tiles_specials_same_request w b s :
  same_request s (sg_save_map_tiles_specials w b s).
Proof. stage_respects same_request. Qed.
Lemma sg_save_map_tiles_resources_same_request w s :
  same_request s (sg_save_map_tiles_resources w s).
Proof. stage_respects same_request. Qed.
Lemma sg_save_map_owner_same_request w s :
  same_request s (sg_save_map_owner w s).
Proof. stage_respects same_request. Qed.
Lemma sg_save_map_worked_same_request w s :
  same_request s (sg_save_map_worked w s).
Proof. stage_respects same_request. Qed.
Lemma sg_save_map_known_same_request w s :
  same_request s (sg_save_map_known w s).
Proof. stage_respects same_request. Qed.

Global Hint Resolve sg_save_savefile_options_same_request
  sg_save_map_tiles_same_request sg_save_map_startpos_same_request
  sg_save_map_tiles_bases_same_request sg_save_map_tiles_roads_same_request
  sg_save_map_tiles_specials_same_request
  sg_save_map_tiles_resources_same_request sg_save_map_owner_same_request
  sg_save_map_worked_same_request sg_save_map_known_same_request : sg_leaf.


Lemma sg_save_savefile_options_keeps o s :
  keeps_entries s (sg_save_savefile_options o s).
Proof. stage_respects keeps_entries. Qed.
Lemma sg_save_map_startpos_keeps w s :
  keeps_entries s (sg_save_map_startpos w s).
Proof. stage_respects keeps_entries. Qed.
Lemma sg_save_map_tiles_bases_keeps w s :
  keeps_entries s (sg_save_map_tiles_bases w s).
Proof. stage_respects keeps_entries. Qed.
Lemma sg_save_map_tiles_roads_keeps w s :
  keeps_entries s (sg_save_map_tiles_roads w s).
Proof. stage_respects keeps_entries. Qed.
Lemma sg_save_map_tiles_specials_keeps w b s :
  keeps_entries s (sg_save_map_tiles_specials w b s).
Proof. stage_respects keeps_entries. Qed.
Lemma sg_save_map_tiles_resources_keeps w s :
  keeps_entries s (sg_save_map_tiles_resources w s).
Proof. stage_respects keeps_entries. Qed.
Lemma sg_save_map_owner_keeps w s :
  keeps_entries s (sg_save_map_owner w s).
Proof. stage_respects keeps_entries. Qed.
Lemma sg_save_map_worked_keeps w s :
  keeps_entries s (sg_save_map_worked w s).
Proof. stage_respects keeps_entries. Qed.
Lemma sg_save_map_known_keeps w s :
  keeps_entries s (sg_save_map_known w s).
Proof. stage_respects keeps_entries. Qed.

Global Hint Resolve sg_save_savefile_options_keeps sg_save_map_startpos_keeps
  sg_save_map_tiles_bases_keeps sg_save_map_tiles_roads_keeps
  sg_save_map_tiles_specials_keeps sg_save_map_tiles_resources_keeps
  sg_save_map_owner_keeps sg_save_map_worked_keeps sg_save_map_known_keeps
  : sg_leaf.


Lemma bind_next {A B} (m : M A) (k : A -> M B) s a s' :
  m s = Next a s' -> (m ≫= k) s = k a s'.
Proof. intros H. unfold mbind, M_bind. rewrite H. reflexivity. Qed.











(** ** Owner, source and worked lines *)

Lemma string_app_cons (ch : ascii) (a b : string) :
  String ch a +:+ b = String ch (a +:+ b).
Proof. reflexivity. Qed.

Lemma string_app_assoc (a b c : string) :
  (a +:+ b) +:+ c = a +:+ (b +:+ c).
Proof.
  induction a as [|ch a IH]; [reflexivity |].
  rewrite !string_app_cons, IH. reflexivity.
Qed.

Lemma string_app_nil_r (a : string) : a +:+ "" = a.
Proof.
  induction a as [|ch a IH]; [reflexivity |].
  rewrite string_app_cons, IH. reflexivity.
Qed.

Lemma concat_cons_cons (sep h h' : string) (t : list string) :
  String.concat sep (h :: h' :: t) = h +:+ sep +:+ String.concat sep (h' :: t).
Proof. reflexivity. Qed.

(** With the test [x + 1 < xsize], the loop joins the tokens with commas. *)
Lemma strcat_line_joined (token : Z -> string) (W : Z) (n : nat) :
  forall a acc, a + Z.of_nat n = W ->
    foldl (fun line x =>
             let line := line +:+ token x in
             if x + 1 <? W then line +:+ "," else line) acc
      (seqZ a (Z.of_nat n))
    = acc +:+ String.concat "," (token <$> seqZ a (Z.of_nat n)).
Proof.
  induction n as [|n IH]; intros a acc Ha.
  - simpl. rewrite string_app_nil_r. reflexivity.
  - rewrite seqZ_cons by lia.
    replace (Z.pred (Z.of_nat (S n))) with (Z.of_nat n) by lia.
    simpl foldl. rewrite IH by lia.
    destruct n as [|n].
    + simpl. replace (a + 1 <? W) with false
        by (symmetry; apply Z.ltb_ge; lia).
      rewrite string_app_nil_r. reflexivity.
    + replace (a + 1 <? W) with true by (symmetry; apply Z.ltb_lt; lia).
      rewrite (seqZ_cons (Z.succ a)) by lia.
      rewrite !fmap_cons, concat_cons_cons.
      rewrite !string_app_assoc. reflexivity.
Qed.

(** With the test [x < xsize], which holds at every turn of the loop, a
    comma follows every token, the last one included. *)
Lemma strcat_line_trailing (token : Z -> string) (W : Z) (n : nat) :
  forall a acc, a + Z.of_nat (S n) = W -> 0 <= a ->
    foldl (fun line x =>
             let line := line +:+ token x in
             if x <? W then line +:+ "," else line) acc
      (seqZ a (Z.of_nat (S n)))
    = acc +:+ String.concat "," (token <$> seqZ a (Z.of_nat (S n))) +:+ ",".
Proof.
  induction n as [|n IH]; intros a acc Ha Ha0.
  - rewrite seqZ_cons by lia. rewrite seqZ_nil by lia.
    simpl foldl. rewrite fmap_cons, fmap_nil.
    replace (a <? W) with true by (symmetry; apply Z.ltb_lt; lia).
    change (String.concat "," [token a]) with (token a).
    rewrite !string_app_assoc. reflexivity.
  - rewrite seqZ_cons by lia.
    replace (Z.pred (Z.of_nat (S (S n)))) with (Z.of_nat (S n)) by lia.
    simpl foldl.
    replace (a <? W) with true by (symmetry; apply Z.ltb_lt; lia).
    rewrite IH by lia.
    rewrite (seqZ_cons (Z.succ a) (Z.of_nat (S n))) by lia.
    rewrite !fmap_cons, concat_cons_cons.
    rewrite !string_app_assoc. reflexivity.
Qed.

Lemma owner_line_spec (token : Z -> string) (W : Z) :
  strcat_line token (fun x => x + 1 <? W) (seqZ 0 W)
  = String.concat "," (token <$> seqZ 0 W).
Proof.
  unfold strcat_line. cbv beta. destruct (Z.le_gt_cases W 0) as [Hle|Hgt].
  - rewrite seqZ_nil by exact Hle. reflexivity.
  - pose proof (strcat_line_joined token W (Z.to_nat W) 0 "") as H.
    rewrite Z2Nat.id in H by lia. exact (H ltac:(lia)).
Qed.

Lemma worked_line_spec (token : Z -> string) (W : Z) :
  0 < W ->
  strcat_line token (fun x => x <? W) (seqZ 0 W)
  = String.concat "," (token <$> seqZ 0 W) +:+ ",".
Proof.
  intros HW. unfold strcat_line. cbv beta.
  destruct (Z.to_nat W) as [|n] eqn:Hn; [lia |].
  pose proof (strcat_line_trailing token W n 0 "") as H.
  rewrite <- Hn, Z2Nat.id in H by lia. exact (H ltac:(lia) ltac:(lia)).
Qed.

Lemma for_each_insert_str {A} (l : list A) (f p : A -> string) :
  forall s,
    for_each l (fun a => secfile_insert_str (f a) (p a)) s
    = Next () (add_entries ((fun a => (p a, VStr (f a))) <$> l) s).
Proof.
  induction l as [|a l IH]; intros s; simpl.
  - rewrite add_entries_nil. reflexivity.
  - unfold mbind, M_bind. simpl. rewrite IH. f_equal.
    apply (add_entries_app [_] _ s).
Qed.

(** The part of C5 that holds: the ownership and source lines of a row are
    the tokens of its tiles joined by commas. *)
Lemma sg_save_map_owner_lines w s :
  sg_success s = true ->
  scenario (saving s) && negb (save_players (saving s)) = false ->
  sg_save_map_owner w s =
  add_entries
    (((fun y =>
         ("map.owner" +:+ fmt_0d 4 y,
          VStr (String.concat ","
                  ((fun x =>
                      if negb (save_players (saving s)) then "-"
                      else map_token (t_owner (native_pos_to_tile w x y)))
                     <$> seqZ 0 (xsize w))))) <$> seqZ 0 (ysize w)) ++
     ((fun y =>
         ("map.source" +:+ fmt_0d 4 y,
          VStr (String.concat ","
                  ((fun x => map_token (t_claimer (native_pos_to_tile w x y)))
                     <$> seqZ 0 (xsize w))))) <$> seqZ 0 (ysize w)))
    s.
Proof.
  intros Hok Hguard. unfold sg_save_map_owner.
  rewrite fn_check_true by exact Hok.
  rewrite (bind_next get_state _ s s s) by reflexivity.
  rewrite Hguard.
  rewrite (bind_next (mret ()) _ s () s) by reflexivity.
  erewrite bind_next by apply for_each_insert_str.
  rewrite for_each_insert_str. simpl outcome_state.
  rewrite add_entries_app. f_equal. f_equal.
  - apply list_fmap_ext. intros _ y _. rewrite owner_line_spec. reflexivity.
  - apply list_fmap_ext. intros _ y _. rewrite owner_line_spec. reflexivity.
Qed.

(** C5 (what the code does for the worked-by lines): the line of a row is
    the tokens of its tiles joined by commas and then one more comma, that
    is, W separators with a trailing one. *)
Theorem sg_save_map_worked_lines w s :
  sg_success s = true ->
  scenario (saving s) && negb (save_players (saving s)) = false ->
  0 < xsize w ->
  sg_save_map_worked w s =
  add_entries
    ((fun y =>
        ("map.worked" +:+ fmt_0d 4 y,
         VStr (String.concat ","
                 ((fun x => map_token (t_worked (native_pos_to_tile w x y)))
                    <$> seqZ 0 (xsize w)) +:+ ","))) <$> seqZ 0 (ysize w))
    s.
Proof.
  intros Hok Hguard HW. unfold sg_save_map_worked.
  rewrite fn_check_true by exact Hok.
  rewrite (bind_next get_state _ s s s) by reflexivity.
  rewrite Hguard.
  rewrite (bind_next (mret ()) _ s () s) by reflexivity.
  rewrite for_each_insert_str. simpl outcome_state.
  f_equal. apply list_fmap_ext. intros _ y _.
  rewrite worked_line_spec by exact HW. reflexivity.
Qed.

(** On the sample game (two tiles in a row, none worked) the worked-by line
    is ["-,-,"] while the ownership and source lines are ["0,-"] and
    ["-,-"]. *)
Lemma sg_save_map_worked_lines_witness :
  sg_success (save_init [] "sample" false (sample_state true)) = true /\
  0 < xsize (sample_world " " true) /\
  sg_file (sg_save_map_worked (sample_world " " true)
             (save_init [] "sample" false (sample_state true)))
  = [("map.worked0000", VStr "-,-,")] /\
  sg_file (sg_save_map_owner (sample_world " " true)
             (set_saving
                (set_save_players true (savedata_new [] "sample" false))
                (sample_state true)))
  = [("map.owner0000", VStr "0,-"); ("map.source0000", VStr "-,-")].
Proof.
  split; [reflexivity |]. split; [reflexivity |].
  split; [| vm_compute; reflexivity].
  rewrite (sg_save_map_worked_lines (sample_world " " true)
             (save_init [] "sample" false (sample_state true))
             eq_refl eq_refl eq_refl).
  vm_compute. reflexivity.
Defined.

(** ** Loading map lines *)

Section LoadProperties.

Context {St : Type} (SET_XY_CHAR : ascii -> Z -> Z -> St -> St).
Variables (w : world) (secfile : section_file) (secpath : Z -> string).

Lemma foldl_observed {A B} (f : St -> A -> St) (obs : St -> B)
      (l : list A) :
  (forall a st, In a l -> obs (f st a) = obs st) ->
  forall st, obs (foldl f st l) = obs st.
Proof.
  induction l as [|a l IH]; intros Hf st; simpl; [reflexivity |].
  rewrite IH by (intros; apply Hf; right; assumption).
  apply Hf. left. reflexivity.
Qed.

(** A turn of the loop over the rows touches the loaded data only through
    [SET_XY_CHAR] at positions of its own row, and only when the line of
    the row has exactly [xsize] characters. *)
Lemma load_map_step_observed {B} (obs : St -> B) (y0 : Z) acc y :
  (y = y0 ->
   forall line, secfile_lookup_str secfile (secpath y0) = Some line ->
                Z.of_nat (String.length line) <> xsize w) ->
  (forall ch x y st, y <> y0 -> obs (SET_XY_CHAR ch x y st) = obs st) ->
  obs (load_map_step SET_XY_CHAR w secfile secpath acc y).1.1 = obs acc.1.1.
Proof.
  intros Hbad Hobs. destruct acc as [[st lg] pw]. unfold load_map_step.
  destruct (secfile_lookup_str secfile (secpath y)) as [line|] eqn:Hl;
    [| reflexivity].
  destruct (Z.eqb_spec (Z.of_nat (String.length line)) (xsize w))
    as [Hlen|Hlen]; simpl; [| reflexivity].
  destruct (Z.eq_dec y y0) as [->|Hne].
  - exfalso. exact (Hbad eq_refl line Hl Hlen).
  - unfold load_map_row. apply foldl_observed.
    intros x st' _. apply Hobs. exact Hne.
Qed.

Lemma load_rows_observed {B} (obs : St -> B) (y0 : Z) (ys : list Z) :
  (forall y, In y ys -> y = y0 ->
     forall line, secfile_lookup_str secfile (secpath y0) = Some line ->
                  Z.of_nat (String.length line) <> xsize w) ->
  (forall ch x y st, y <> y0 -> obs (SET_XY_CHAR ch x y st) = obs st) ->
  forall acc,
    obs (foldl (load_map_step SET_XY_CHAR w secfile secpath) acc ys).1.1
    = obs acc.1.1.
Proof.
  intros Hbad Hobs. induction ys as [|y ys IH]; intros acc; simpl.
  - reflexivity.
  - rewrite IH by (intros y' Hy'; apply Hbad; right; exact Hy').
    apply load_map_step_observed with (y0 := y0).
    + apply Hbad. left. reflexivity.
    + exact Hobs.
Qed.

(** A row whose line has the right length is decoded position by
    position. *)
Lemma load_map_row_decodes {B} (obs : St -> B) (val : ascii -> B)
      (line : string) (x1 y1 : Z) (st : St) :
  0 <= x1 < xsize w ->
  (forall ch x st, x <> x1 -> obs (SET_XY_CHAR ch x y1 st) = obs st) ->
  (forall ch st, obs (SET_XY_CHAR ch x1 y1 st) = val ch) ->
  obs (load_map_row SET_XY_CHAR line y1 (seqZ 0 (xsize w)) st)
  = val (string_index line x1).
Proof.
  intros Hx Hframe Hset. unfold load_map_row.
  replace (xsize w) with (x1 + (1 + (xsize w - x1 - 1))) by lia.
  rewrite seqZ_app by lia. rewrite foldl_app.
  rewrite (seqZ_app (0 + x1) 1) by lia. rewrite foldl_app.
  rewrite foldl_observed.
  - simpl. apply Hset.
  - intros x st' Hin. apply Hframe.
    apply list_elem_of_In, elem_of_seqZ in Hin. lia.
Qed.

Lemma load_rows_decodes {B} (obs : St -> B) (val : ascii -> B)
      (line : string) (x1 y1 : Z) (ys : list Z) :
  secfile_lookup_str secfile (secpath y1) = Some line ->
  Z.of_nat (String.length line) = xsize w ->
  0 <= x1 < xsize w ->
  (forall ch x y st, x <> x1 \/ y <> y1 ->
                     obs (SET_XY_CHAR ch x y st) = obs st) ->
  (forall ch st, obs (SET_XY_CHAR ch x1 y1 st) = val ch) ->
  NoDup ys -> In y1 ys ->
  forall acc,
    obs (foldl (load_map_step SET_XY_CHAR w secfile secpath) acc ys).1.1
    = val (string_index line x1).
Proof.
  intros Hl Hlen Hx Hframe Hset Hnd Hin.
  induction ys as [|y ys IH]; intros acc; [destruct Hin |].
  apply NoDup_cons in Hnd as [Hnotin Hnd]. simpl.
  destruct (Z.eq_dec y y1) as [->|Hne].
  - rewrite (load_rows_observed obs y1).
    + destruct acc as [[st lg] pw]. unfold load_map_step.
      rewrite Hl. rewrite (proj2 (Z.eqb_eq _ _) Hlen). simpl.
      apply load_map_row_decodes; [exact Hx | | exact Hset].
      intros ch x st' Hxne. apply Hframe. left. exact Hxne.
    + intros y' Hy' ->. exfalso. apply Hnotin.
      apply list_elem_of_In. exact Hy'.
    + intros ch x y st' Hy. apply Hframe. right. exact Hy.
  - apply IH; [exact Hnd |].
    destruct Hin as [Heq|Hin]; [congruence | exact Hin].
Qed.

(** The log only grows, and [_printed_warning] stays set. *)
Lemma load_map_step_log acc y :
  (forall e, In e acc.1.2 ->
             In e (load_map_step SET_XY_CHAR w secfile secpath acc y).1.2) /\
  (acc.2 = true ->
   (load_map_step SET_XY_CHAR w secfile secpath acc y).2 = true).
Proof.
  destruct acc as [[st lg] pw]. unfold load_map_step.
  destruct (secfile_lookup_str secfile (secpath y)) as [line|];
    [destruct (negb _) |]; simpl; split; intros;
    try (apply in_or_app; left); auto.
Qed.

Lemma load_rows_log (ys : list Z) :
  forall acc,
    (forall e, In e acc.1.2 ->
       In e (foldl (load_map_step SET_XY_CHAR w secfile secpath) acc ys).1.2)
    /\ (acc.2 = true ->
        (foldl (load_map_step SET_XY_CHAR w secfile secpath) acc ys).2
        = true).
Proof.
  induction ys as [|y ys IH]; intros acc; simpl; [tauto |].
  destruct (IH (load_map_step SET_XY_CHAR w secfile secpath acc y))
    as [IH1 IH2].
  destruct (load_map_step_log acc y) as [H1 H2].
  split; auto.
Qed.

Lemma load_rows_warns (y0 : Z) (line : string) (ys : list Z) :
  In y0 ys ->
  secfile_lookup_str secfile (secpath y0) = Some line ->
  Z.of_nat (String.length line) <> xsize w ->
  forall acc,
    In (Log_line_too_short (xsize w) (Z.of_nat (String.length line))
          (fc_snprintf 64 (secpath y0)))
       (foldl (load_map_step SET_XY_CHAR w secfile secpath) acc ys).1.2 /\
    (foldl (load_map_step SET_XY_CHAR w secfile secpath) acc ys).2 = true.
Proof.
  intros Hin Hl Hlen. induction ys as [|y ys IH]; intros acc;
    [destruct Hin |].
  simpl. destruct Hin as [->|Hin]; [| apply IH; exact Hin].
  destruct (load_rows_log ys
              (load_map_step SET_XY_CHAR w secfile secpath acc y0))
    as [H1 H2].
  destruct acc as [[st lg] pw]. unfold load_map_step in *.
  rewrite Hl in *.
  destruct (Z.eqb_spec (Z.of_nat (String.length line)) (xsize w))
    as [Heq|_]; [contradiction |].
  simpl in *. split.
  - apply H1. apply in_or_app. right. left. reflexivity.
  - apply H2. reflexivity.
Qed.

End LoadProperties.

Lemma LOAD_MAP_CHAR_unfold {St} (SET_XY_CHAR : ascii -> Z -> Z -> St -> St)
      w secfile secpath st :
  LOAD_MAP_CHAR SET_XY_CHAR w secfile secpath st =
  let acc := foldl (load_map_step SET_XY_CHAR w secfile secpath)
               (st, [], false) (seqZ 0 (ysize w)) in
  (acc.1.1, if acc.2 then acc.1.2 ++ [Log_incomplete_map] else acc.1.2).
Proof.
  unfold LOAD_MAP_CHAR.
  destruct (foldl _ _ _) as [[st' lg] pw]. reflexivity.
Qed.

(** C1 (as stated, refuted): a map of width 2 whose only row is stored as
    the one-character line ["g"]. Loading records every character it
    decodes; it records none, so tile (0,0) is not decoded from the first
    W-1 characters: the whole row is passed over. With the full line both
    tiles are decoded. *)
Lemma short_line_row_not_decoded :
  LOAD_MAP_CHAR (fun ch x y st => st ++ [(x, y, ch)])
    (sample_world " " true) [("map.t0000", VStr "g")]
    (fun y => "map.t" +:+ fmt_0d 4 y) []
  = ([], [Log_line_too_short 2 1 "map.t0000"; Log_incomplete_map]) /\
  LOAD_MAP_CHAR (fun ch x y st => st ++ [(x, y, ch)])
    (sample_world " " true) [("map.t0000", VStr "gg")]
    (fun y => "map.t" +:+ fmt_0d 4 y) []
  = ([(0, 0, "g"%char); (1, 0, "g"%char)], []).
Proof. split; vm_compute; reflexivity. Qed.

(** C1 (amended): for every grid attribute class (every [SET_XY_CHAR]) and
    every row whose stored line is truncated to length W-1, loading logs the
    too-short line and the incomplete-map warning, applies [SET_XY_CHAR] to
    no tile of that row, so that whatever only that row's tiles determine
    keeps the value it had (the row is discarded as a whole and all W tiles
    stay at their default), and goes on to decode every row whose line has
    exactly W characters. *)
Theorem short_line_discards_row {St}
        (SET_XY_CHAR : ascii -> Z -> Z -> St -> St)
        (w : world) (secfile : section_file) (secpath : Z -> string)
        (st : St) (y0 : Z) (line : string) :
  0 <= y0 < ysize w ->
  secfile_lookup_str secfile (secpath y0) = Some line ->
  Z.of_nat (String.length line) = xsize w - 1 ->
  (In (Log_line_too_short (xsize w) (xsize w - 1)
         (fc_snprintf 64 (secpath y0)))
      (LOAD_MAP_CHAR SET_XY_CHAR w secfile secpath st).2 /\
   In Log_incomplete_map
      (LOAD_MAP_CHAR SET_XY_CHAR w secfile secpath st).2) /\
  (forall (B : Type) (obs : St -> B),
     (forall ch x y st', y <> y0 -> obs (SET_XY_CHAR ch x y st') = obs st') ->
     obs (LOAD_MAP_CHAR SET_XY_CHAR w secfile secpath st).1 = obs st) /\
  (forall (B : Type) (obs : St -> B) (val : ascii -> B) x1 y1 line1,
     0 <= y1 < ysize w ->
     secfile_lookup_str secfile (secpath y1) = Some line1 ->
     Z.of_nat (String.length line1) = xsize w ->
     0 <= x1 < xsize w ->
     (forall ch x y st', x <> x1 \/ y <> y1 ->
                         obs (SET_XY_CHAR ch x y st') = obs st') ->
     (forall ch st', obs (SET_XY_CHAR ch x1 y1 st') = val ch) ->
     obs (LOAD_MAP_CHAR SET_XY_CHAR w secfile secpath st).1
     = val (string_index line1 x1)).
Proof.
  intros Hy0 Hl Hlen. rewrite LOAD_MAP_CHAR_unfold. cbv zeta.
  assert (Hbad : Z.of_nat (String.length line) <> xsize w) by lia.
  assert (Hin : In y0 (seqZ 0 (ysize w)))
    by (apply list_elem_of_In, elem_of_seqZ; lia).
  destruct (load_rows_warns SET_XY_CHAR w secfile secpath y0 line
              (seqZ 0 (ysize w)) Hin Hl Hbad (st, [], false)) as [Hlog Hpw].
  rewrite Hlen in Hlog.
  split; [| split].
  - simpl. rewrite Hpw. split; apply in_or_app;
      [left; exact Hlog | right; left; reflexivity].
  - intros B obs Hobs. simpl.
    rewrite (load_rows_observed SET_XY_CHAR w secfile secpath obs y0).
    + reflexivity.
    + intros y _ _ line' Hl'. rewrite Hl in Hl'. injection Hl' as <-.
      exact Hbad.
    + exact Hobs.
  - intros B obs val x1 y1 line1 Hy1 Hl1 Hlen1 Hx1 Hframe Hset. simpl.
    apply (load_rows_decodes SET_XY_CHAR w secfile secpath obs val line1
             x1 y1); try assumption.
    + apply NoDup_seqZ.
    + apply list_elem_of_In, elem_of_seqZ. lia.
Qed.

(** A map of width 2 and height 1 whose row is stored as ["g"]: the warning
    is logged and the data loaded so far (here the empty record of decoded
    characters) is left as it was. *)
Lemma short_line_discards_row_witness :
  0 <= 0 < ysize (sample_world " " true) /\
  secfile_lookup_str [("map.t0000", VStr "g")] ("map.t" +:+ fmt_0d 4 0)
    = Some "g" /\
  Z.of_nat (String.length "g") = xsize (sample_world " " true) - 1 /\
  In Log_incomplete_map
     (LOAD_MAP_CHAR (fun ch x y st => st ++ [(x, y, ch)])
        (sample_world " " true) [("map.t0000", VStr "g")]
        (fun y => "map.t" +:+ fmt_0d 4 y) []).2.
Proof.
  split; [simpl; lia |]. split; [reflexivity |]. split; [reflexivity |].
  apply (short_line_discards_row (fun ch x y st => st ++ [(x, y, ch)])
           (sample_world " " true) [("map.t0000", VStr "g")]
           (fun y => "map.t" +:+ fmt_0d 4 y) [] 0 "g");
    [simpl; lia | reflexivity | reflexivity].
Defined.

(** ** Unit ordering *)

Lemma apply_writes_app set ws1 ws2 us :
  apply_writes set (ws1 ++ ws2) us
  = apply_writes set ws2 (apply_writes set ws1 us).
Proof. unfold apply_writes. apply foldl_app. Qed.

Lemma number_units_writes set l :
  forall j us, number_units set l j us = apply_writes set (numbering l j) us.
Proof.
  induction l as [|punit l IH]; intros j us; [reflexivity |].
  unfold numbering. simpl length.
  rewrite seqZ_cons by lia.
  replace (Z.pred (Z.of_nat (S (length l)))) with (Z.of_nat (length l))
    by lia.
  simpl. rewrite IH. unfold numbering.
  replace (Z.succ j) with (j + 1) by lia. reflexivity.
Qed.

Lemma foldl_apply_writes {A} set (f : A -> list (Z * Z)) (l : list A) :
  forall us,
    foldl (fun us a => apply_writes set (f a) us) us l
    = apply_writes set (concat (f <$> l)) us.
Proof.
  induction l as [|a l IH]; intros us; simpl; [reflexivity |].
  rewrite IH, apply_writes_app. reflexivity.
Qed.

Lemma foldl_ext_fun {A B} (f g : A -> B -> A) (l : list B) :
  (forall a b, f a b = g a b) -> forall a, foldl f a l = foldl g a l.
Proof.
  intros H. induction l as [|b l IH]; intros a; simpl; [reflexivity |].
  rewrite H. apply IH.
Qed.

(** [unit_ordering_calc] is the writes of the players' pass followed by the
    writes of the pass over the map. *)
Lemma unit_ordering_calc_writes w us :
  unit_ordering_calc w us
  = apply_writes set_ord_map (map_writes w)
      (apply_writes set_ord_city (city_writes w) us).
Proof.
  unfold unit_ordering_calc, map_writes, city_writes.
  rewrite <- !foldl_apply_writes.
  rewrite (foldl_ext_fun _
             (fun us index =>
                apply_writes set_ord_map
                  (numbering (t_units (index_to_tile w index)) 0) us))
    by (intros; apply number_units_writes).
  f_equal. apply foldl_ext_fun. intros us' pplayer.
  unfold player_city_writes. rewrite apply_writes_app.
  rewrite <- foldl_apply_writes.
  rewrite (foldl_ext_fun _
             (fun us pcity =>
                apply_writes set_ord_city
                  (numbering (c_units_supported pcity) 0) us))
    by (intros; apply number_units_writes).
  f_equal. unfold apply_writes. rewrite foldl_fmap. reflexivity.
Qed.

Lemma last_write_app punit ws1 ws2 :
  last_write punit (ws1 ++ ws2) =
  match last_write punit ws2 with
  | Some j => Some j
  | None => last_write punit ws1
  end.
Proof.
  induction ws1 as [|wr ws1 IH]; simpl.
  - destruct (last_write punit ws2); reflexivity.
  - rewrite IH. destruct (last_write punit ws2); reflexivity.
Qed.

Lemma last_write_none punit ws :
  punit ∉ ws.*1 -> last_write punit ws = None.
Proof.
  induction ws as [|wr ws IH]; intros Hnotin; simpl; [reflexivity |].
  rewrite fmap_cons, not_elem_of_cons in Hnotin.
  destruct Hnotin as [Hne Hnotin]. rewrite IH by exact Hnotin.
  destruct (Z.eqb_spec wr.1 punit); [congruence | reflexivity].
Qed.

(** The value after a sequence of writes: the last one made to the unit. *)
Lemma apply_writes_lookup set ws :
  (forall j j' u, set j (set j' u) = set j u) ->
  forall us punit,
    apply_writes set ws us !! punit =
    match last_write punit ws with
    | Some j => set j <$> us !! punit
    | None => us !! punit
    end.
Proof.
  intros Hset. induction ws as [|[a j0] ws IH]; intros us punit;
    [reflexivity |].
  unfold apply_writes in *. simpl. rewrite IH. rewrite lookup_alter.
  destruct (last_write punit ws) as [j|].
  - case_decide as Ha; [subst a | reflexivity].
    destruct (us !! punit) as [u|]; cbn; [f_equal; apply Hset | reflexivity].
  - destruct (Z.eqb_spec a punit) as [->|Hne].
    + rewrite decide_True by reflexivity. reflexivity.
    + rewrite decide_False by exact Hne. reflexivity.
Qed.

Lemma elem_of_concat {A} (x : A) (ls : list (list A)) :
  x ∈ concat ls <-> exists l, x ∈ l /\ l ∈ ls.
Proof.
  rewrite list_elem_of_In, in_concat. split.
  - intros (l & Hl & Hx). exists l.
    split; apply list_elem_of_In; assumption.
  - intros (l & Hx & Hl). exists l.
    split; apply list_elem_of_In; assumption.
Qed.

Lemma numbering_cons punit l j :
  numbering (punit :: l) j = (punit, j) :: numbering l (j + 1).
Proof.
  unfold numbering. simpl length. rewrite seqZ_cons by lia.
  replace (Z.pred (Z.of_nat (S (length l)))) with (Z.of_nat (length l))
    by lia.
  replace (Z.succ j) with (j + 1) by lia. reflexivity.
Qed.

Lemma numbering_keys l : forall j, (numbering l j).*1 = l.
Proof.
  induction l as [|punit l IH]; intros j; [reflexivity |].
  rewrite numbering_cons, fmap_cons, IH. reflexivity.
Qed.

Lemma concat_numbering_keys (ls : list (list Z)) :
  (concat ((fun l => numbering l 0) <$> ls)).*1 = concat ls.
Proof.
  induction ls as [|l ls IH]; [reflexivity |].
  rewrite fmap_cons, !concat_cons, fmap_app, numbering_keys, IH.
  reflexivity.
Qed.

Lemma last_write_numbering l :
  NoDup l -> forall j k punit,
    l !! k = Some punit ->
    last_write punit (numbering l j) = Some (j + Z.of_nat k).
Proof.
  induction l as [|a l IH]; intros Hnd j k punit Hk; [discriminate |].
  apply NoDup_cons in Hnd as [Hnotin Hnd].
  rewrite numbering_cons. simpl last_write.
  destruct k as [|k]; simpl in Hk.
  - injection Hk as ->.
    rewrite last_write_none by (rewrite numbering_keys; exact Hnotin).
    simpl. rewrite Z.eqb_refl. f_equal. lia.
  - rewrite (IH Hnd (j + 1) k punit Hk). f_equal. lia.
Qed.

Lemma last_write_concat_numbering (ls : list (list Z)) :
  NoDup (concat ls) -> forall l k punit,
    l ∈ ls -> l !! k = Some punit ->
    last_write punit (concat ((fun l => numbering l 0) <$> ls))
    = Some (Z.of_nat k).
Proof.
  induction ls as [|l0 ls IH]; intros Hnd l k punit Hl Hk.
  - apply elem_of_nil in Hl. destruct Hl.
  - rewrite concat_cons in Hnd.
    apply NoDup_app in Hnd as (Hnd0 & Hdisj & Hnd').
    rewrite fmap_cons, concat_cons, last_write_app.
    apply elem_of_cons in Hl as [-> | Hl].
    + rewrite last_write_none.
      * rewrite (last_write_numbering l0 Hnd0 0 k punit Hk). f_equal.
      * rewrite concat_numbering_keys. apply Hdisj.
        eapply list_elem_of_lookup_2. exact Hk.
    + rewrite (IH Hnd' l k punit Hl Hk). reflexivity.
Qed.

Lemma player_city_writes_keys pplayer punit :
  punit ∈ (player_city_writes pplayer).*1 ->
  punit ∈ p_units pplayer \/ punit ∈ supported_units pplayer.
Proof.
  unfold player_city_writes, supported_units.
  rewrite fmap_app, elem_of_app. intros [H | H].
  - left. rewrite <- list_fmap_compose in H.
    rewrite list_fmap_id in H. exact H.
  - right. rewrite (list_fmap_compose c_units_supported
                      (fun l => numbering l 0)) in H.
    rewrite concat_numbering_keys in H. exact H.
Qed.

Lemma city_writes_keys (ps : list player) punit :
  punit ∈ (concat (player_city_writes <$> ps)).*1 ->
  punit ∈ concat (p_units <$> ps) \/
  punit ∈ concat (supported_units <$> ps).
Proof.
  induction ps as [|p ps IH].
  - intros H. apply elem_of_nil in H. destruct H.
  - rewrite !fmap_cons, !concat_cons, fmap_app, !elem_of_app.
    intros [H | H].
    + apply player_city_writes_keys in H. tauto.
    + apply IH in H. tauto.
Qed.

Lemma last_write_player_city pplayer pcity k punit :
  NoDup (supported_units pplayer) ->
  pcity ∈ p_cities pplayer ->
  c_units_supported pcity !! k = Some punit ->
  last_write punit (player_city_writes pplayer) = Some (Z.of_nat k).
Proof.
  intros Hnd Hc Hk. unfold player_city_writes.
  rewrite last_write_app.
  rewrite (list_fmap_compose c_units_supported (fun l => numbering l 0)).
  rewrite (last_write_concat_numbering _ Hnd (c_units_supported pcity) k punit).
  - reflexivity.
  - apply list_elem_of_fmap. exists pcity. split; [reflexivity | exact Hc].
  - exact Hk.
Qed.

Lemma last_write_city_writes (ps : list player) :
  NoDup (concat (p_units <$> ps)) ->
  NoDup (concat (supported_units <$> ps)) ->
  (forall pplayer punit,
     pplayer ∈ ps -> punit ∈ supported_units pplayer ->
     punit ∈ p_units pplayer) ->
  forall pplayer pcity k punit,
    pplayer ∈ ps -> pcity ∈ p_cities pplayer ->
    c_units_supported pcity !! k = Some punit ->
    last_write punit (concat (player_city_writes <$> ps)) = Some (Z.of_nat k).
Proof.
  induction ps as [|p0 ps IH]; intros Hu Hs Hown p c k punit Hp Hc Hk.
  - apply elem_of_nil in Hp. destruct Hp.
  - rewrite fmap_cons, concat_cons in Hu, Hs.
    apply NoDup_app in Hu as (Hu0 & Hudisj & Hu').
    apply NoDup_app in Hs as (Hs0 & Hsdisj & Hs').
    rewrite fmap_cons, concat_cons, last_write_app.
    apply elem_of_cons in Hp as [-> | Hp].
    + assert (Hsup : punit ∈ supported_units p0).
      { unfold supported_units. apply elem_of_concat.
        exists (c_units_supported c). split.
        - eapply list_elem_of_lookup_2. exact Hk.
        - apply list_elem_of_fmap. exists c. split; [reflexivity | exact Hc]. }
      assert (Hunit : punit ∈ p_units p0)
        by (apply Hown; [left | exact Hsup]).
      rewrite last_write_none.
      * apply last_write_player_city with (pcity := c); assumption.
      * intros Hkeys. apply city_writes_keys in Hkeys as [Hin | Hin].
        -- exact (Hudisj punit Hunit Hin).
        -- exact (Hsdisj punit Hsup Hin).
    + rewrite (IH Hu' Hs') with (pplayer := p) (pcity := c) (k := k);
        try assumption; [reflexivity |].
      intros p' punit' Hp' Hsup'. apply Hown; [right; exact Hp' | exact Hsup'].
Qed.

Lemma last_write_elem punit ws j :
  last_write punit ws = Some j -> (punit, j) ∈ ws.
Proof.
  induction ws as [|[a j0] ws IH]; simpl; [discriminate |].
  destruct (last_write punit ws) as [j'|].
  - intros [= <-]. right. apply IH. reflexivity.
  - destruct (Z.eqb_spec a punit) as [->|Hne]; [| discriminate].
    intros [= <-]. left.
Qed.

Lemma last_write_some punit ws :
  punit ∈ ws.*1 -> is_Some (last_write punit ws).
Proof.
  induction ws as [|[a j0] ws IH]; simpl.
  - intros H. apply elem_of_nil in H. destruct H.
  - rewrite elem_of_cons. intros [-> | Hin].
    + destruct (last_write a ws); [eauto |]. simpl.
      rewrite Z.eqb_refl. eauto.
    + destruct (IH Hin) as [j Hj]. rewrite Hj. eauto.
Qed.

Lemma last_write_const punit v ws :
  (forall j, (punit, j) ∈ ws -> j = v) -> punit ∈ ws.*1 ->
  last_write punit ws = Some v.
Proof.
  intros Hall Hin. destruct (last_write_some punit ws Hin) as [j Hj].
  rewrite Hj. f_equal. apply Hall, last_write_elem, Hj.
Qed.

Lemma player_city_writes_elem pplayer punit j :
  (punit, j) ∈ player_city_writes pplayer ->
  j = 0 \/ punit ∈ supported_units pplayer.
Proof.
  unfold player_city_writes. rewrite elem_of_app. intros [H | H].
  - left. apply list_elem_of_fmap in H as (u & [= _ ->] & _). reflexivity.
  - right. unfold supported_units.
    rewrite <- (concat_numbering_keys
                  (c_units_supported <$> p_cities pplayer)).
    rewrite <- list_fmap_compose.
    apply (list_elem_of_fmap_2 fst _ _ H).
Qed.

Lemma unit_ordering_calc_lookup w us punit :
  unit_ordering_calc w us !! punit =
  ordered (last_write punit (city_writes w)) (last_write punit (map_writes w))
    <$> us !! punit.
Proof.
  rewrite unit_ordering_calc_writes.
  rewrite !apply_writes_lookup by (intros j j' [d m c]; reflexivity).
  destruct (last_write punit (map_writes w)) as [j|];
    destruct (last_write punit (city_writes w)) as [k|];
    destruct (us !! punit) as [[d m c]|]; reflexivity.
Qed.

Lemma unit_ordering_calc_idem w us :
  unit_ordering_calc w (unit_ordering_calc w us) = unit_ordering_calc w us.
Proof.
  apply map_eq. intros punit. rewrite !unit_ordering_calc_lookup.
  destruct (us !! punit) as [[d m c]|]; [| reflexivity].
  destruct (last_write punit (map_writes w));
    destruct (last_write punit (city_writes w)); reflexivity.
Qed.

(** C8: on a game whose unit lists are in order (every unit in one player's
    list, supported units owned by the city's owner, no unit supported or
    placed twice, every listed unit existing), after [unit_ordering_calc]
    the units supported by a city carry [ord_city] 0, 1, ..., n-1 in the
    order of the city's list, the units on a tile carry [ord_map] 0, 1, ...,
    m-1 in the order of the tile's list, every unit that no city supports
    has [ord_city] 0, and running the pass a second time changes nothing. *)
Theorem unit_ordering_calc_ordinals (w : world) (us : gmap Z unit) :
  unit_lists_ok w us ->
  (forall pplayer pcity k punit,
     pplayer ∈ players w -> pcity ∈ p_cities pplayer ->
     c_units_supported pcity !! k = Some punit ->
     ord_city <$> unit_ordering_calc w us !! punit = Some (Z.of_nat k)) /\
  (forall index k punit,
     index ∈ whole_map w ->
     t_units (index_to_tile w index) !! k = Some punit ->
     ord_map <$> unit_ordering_calc w us !! punit = Some (Z.of_nat k)) /\
  (forall pplayer punit,
     pplayer ∈ players w -> punit ∈ p_units pplayer ->
     punit ∉ all_supported w ->
     ord_city <$> unit_ordering_calc w us !! punit = Some 0) /\
  unit_ordering_calc w (unit_ordering_calc w us) = unit_ordering_calc w us.
Proof.
  intros [Hu Hs Hown Ht Hex].
  split; [| split; [| split]].
  - intros p c k punit Hp Hc Hk.
    assert (Hsup : punit ∈ supported_units p).
    { apply elem_of_concat. exists (c_units_supported c). split.
      - eapply list_elem_of_lookup_2. exact Hk.
      - apply list_elem_of_fmap. exists c. split; [reflexivity | exact Hc]. }
    assert (Hin : punit ∈ all_units w).
    { apply elem_of_concat. exists (p_units p). split.
      - apply Hown; assumption.
      - apply list_elem_of_fmap. exists p. split; [reflexivity | exact Hp]. }
    destruct (Hex punit (or_introl Hin)) as [u Hlook].
    rewrite unit_ordering_calc_lookup, Hlook.
    unfold city_writes.
    rewrite (last_write_city_writes (players w) Hu Hs Hown p c k punit)
      by assumption.
    reflexivity.
  - intros index k punit Hidx Hk.
    assert (Hin : punit ∈ all_tile_units w).
    { apply elem_of_concat. exists (t_units (index_to_tile w index)). split.
      - eapply list_elem_of_lookup_2. exact Hk.
      - apply list_elem_of_fmap. exists index.
        split; [reflexivity | exact Hidx]. }
    destruct (Hex punit (or_intror Hin)) as [u Hlook].
    rewrite unit_ordering_calc_lookup, Hlook.
    unfold map_writes.
    rewrite (list_fmap_compose (fun index => t_units (index_to_tile w index))
               (fun l => numbering l 0)).
    rewrite (last_write_concat_numbering _ Ht
               (t_units (index_to_tile w index)) k punit).
    + reflexivity.
    + apply list_elem_of_fmap. exists index. split; [reflexivity | exact Hidx].
    + exact Hk.
  - intros p punit Hp Hunit Hnot.
    assert (Hin : punit ∈ all_units w).
    { apply elem_of_concat. exists (p_units p). split; [exact Hunit |].
      apply list_elem_of_fmap. exists p. split; [reflexivity | exact Hp]. }
    destruct (Hex punit (or_introl Hin)) as [u Hlook].
    rewrite unit_ordering_calc_lookup, Hlook.
    rewrite (last_write_const punit 0 (city_writes w)); [reflexivity | |].
    + intros j Hj. unfold city_writes in Hj.
      apply elem_of_concat in Hj as (ws & Hj & Hws).
      apply list_elem_of_fmap in Hws as (p' & -> & Hp').
      apply player_city_writes_elem in Hj as [-> | Hsup]; [reflexivity |].
      exfalso. apply Hnot. apply elem_of_concat.
      exists (supported_units p'). split; [exact Hsup |].
      apply list_elem_of_fmap. exists p'. split; [reflexivity | exact Hp'].
    + unfold city_writes.
      apply (list_elem_of_fmap_2 fst _ (punit, 0)).
      apply elem_of_concat. exists (player_city_writes p). split.
      * unfold player_city_writes. apply elem_of_app. left.
        apply (list_elem_of_fmap_2 (fun punit => (punit, 0)) _ _ Hunit).
      * apply list_elem_of_fmap. exists p. split; [reflexivity | exact Hp].
  - apply unit_ordering_calc_idem.
Qed.

Lemma sample_game_lists_ok : unit_lists_ok sample_game sample_units.
Proof.
  assert (Hlist : forall punit : Z,
             punit ∈ [1; 2; 3] -> punit = 1 \/ punit = 2 \/ punit = 3).
  { intros punit H. repeat (apply elem_of_cons in H as [H | H]; [tauto |]).
    apply elem_of_nil in H. destruct H. }
  split.
  - apply (bool_decide_unpack _). vm_compute. exact I.
  - apply (bool_decide_unpack _). vm_compute. exact I.
  - intros pplayer punit Hp Hs.
    apply list_elem_of_singleton in Hp. subst pplayer.
    change (punit ∈ [2; 3]) in Hs. change (punit ∈ [1; 2; 3]).
    right. exact Hs.
  - apply (bool_decide_unpack _). vm_compute. exact I.
  - intros punit H.
    assert (Hin : punit ∈ [1; 2; 3]) by (destruct H as [H | H]; exact H).
    destruct (Hlist punit Hin) as [-> | [-> | ->]]; vm_compute; eauto.
Defined.

(** On the sample game: unit 3 is second in the list of its city and alone
    on its tile, unit 1 is supported by no city. *)
Lemma unit_ordering_calc_ordinals_witness :
  unit_lists_ok sample_game sample_units /\
  ord_city <$> unit_ordering_calc sample_game sample_units !! 3 = Some 1 /\
  ord_map <$> unit_ordering_calc sample_game sample_units !! 2 = Some 1 /\
  ord_city <$> unit_ordering_calc sample_game sample_units !! 1 = Some 0.
Proof.
  pose proof (unit_ordering_calc_ordinals sample_game sample_units
                sample_game_lists_ok) as (Hcity & Hmap & Hnone & _).
  split; [exact sample_game_lists_ok |].
  split; [| split].
  - apply (Hcity (sample_player [1; 2; 3]
                    [sample_city 10 [2; 3] (sample_worklist []);
                     sample_city 11 []
                       (sample_worklist ["Barracks"; "Granary"; "Temple"])])
                 (sample_city 10 [2; 3] (sample_worklist [])) 1%nat 3).
    + left.
    + left.
    + reflexivity.
  - apply (Hmap 0 1%nat 2).
    + unfold whole_map. apply elem_of_seqZ. vm_compute.
      split; [discriminate | reflexivity].
    + reflexivity.
  - apply (Hnone (sample_player [1; 2; 3]
                    [sample_city 10 [2; 3] (sample_worklist []);
                     sample_city 11 []
                       (sample_worklist ["Barracks"; "Granary"; "Temple"])])
                 1).
    + left.
    + left.
    + change (1 ∉ [2; 3]). intros H.
      repeat (apply elem_of_cons in H as [H | H]; [discriminate |]).
      apply elem_of_nil in H. exact H.
Defined.

(** ** Strings *)

Lemma string_length_app (a b : string) :
  String.length (a +:+ b) = (String.length a + String.length b)%nat.
Proof.
  induction a as [|c a IH]; [reflexivity |].
  rewrite string_app_cons. simpl. rewrite IH. reflexivity.
Qed.

Lemma list_ascii_app (a b : string) :
  list_ascii_of_string (a +:+ b)
  = (list_ascii_of_string a ++ list_ascii_of_string b)%list.
Proof.
  induction a as [|c a IH]; [reflexivity |].
  rewrite string_app_cons. simpl. rewrite IH. reflexivity.
Qed.

Lemma substring_nil (a n : nat) : String.substring a n "" = "".
Proof. destruct a, n; reflexivity. Qed.

Lemma substring_zero (a : nat) (s : string) : String.substring a 0 s = "".
Proof.
  revert a. induction s as [|c s IH]; intros a; [apply substring_nil |].
  destruct a as [|a]; [reflexivity |]. simpl. apply IH.
Qed.

Lemma substring_split (s : string) :
  forall a n m,
    String.substring a n s +:+ String.substring (a + n) m s
    = String.substring a (n + m) s.
Proof.
  induction s as [|c s IH]; intros a n m.
  - rewrite !substring_nil. reflexivity.
  - destruct a as [|a].
    + destruct n as [|n]; [reflexivity |].
      simpl. rewrite string_app_cons. f_equal. apply (IH 0%nat).
    + simpl. apply IH.
Qed.

Lemma substring_all (s : string) :
  forall n, (String.length s <= n)%nat -> String.substring 0 n s = s.
Proof.
  induction s as [|c s IH]; intros n Hn; [apply substring_nil |].
  destruct n as [|n]; simpl in *; [lia |]. f_equal. apply IH. lia.
Qed.

Lemma substring_length (s : string) :
  forall a n, (String.length (String.substring a n s) <= n)%nat.
Proof.
  induction s as [|c s IH]; intros a n.
  - rewrite substring_nil. simpl. lia.
  - destruct a as [|a]; simpl; [| apply IH].
    destruct n as [|n]; simpl; [lia |]. specialize (IH 0%nat n). lia.
Qed.

(** ** Decimal numbers *)

Lemma pretty_N_char_digit (x : N) :
  In (pretty_N_char x) (list_ascii_of_string decimal_digits).
Proof.
  unfold pretty_N_char. destruct x as [|p]; [simpl; tauto |].
  do 4 (try destruct p as [p|p|]); simpl; tauto.
Qed.

Lemma pretty_N_go_chars (x : N) :
  forall s c,
    In c (list_ascii_of_string (pretty_N_go x s)) ->
    In c (list_ascii_of_string decimal_digits) \/
    In c (list_ascii_of_string s).
Proof.
  induction (N.lt_wf_0 x) as [x _ IH]; intros s c Hc.
  assert (x = 0 \/ 0 < x)%N as [-> | Hpos] by lia.
  - rewrite pretty_N_go_0 in Hc. right. exact Hc.
  - rewrite pretty_N_go_step in Hc by exact Hpos.
    apply IH in Hc; [| apply N.div_lt; [exact Hpos | reflexivity]].
    destruct Hc as [Hc | Hc]; [left; exact Hc |].
    destruct Hc as [<- | Hc]; [left; apply pretty_N_char_digit | right; exact Hc].
Qed.

Lemma pretty_N_go_length_ge (x : N) :
  forall s, (String.length s <= String.length (pretty_N_go x s))%nat.
Proof.
  induction (N.lt_wf_0 x) as [x _ IH]; intros s.
  assert (x = 0 \/ 0 < x)%N as [-> | Hpos] by lia.
  - rewrite pretty_N_go_0. lia.
  - rewrite pretty_N_go_step by exact Hpos.
    etransitivity; [| apply IH; apply N.div_lt; [exact Hpos | reflexivity]].
    simpl. lia.
Qed.

Lemma pretty_N_go_length_le (k : nat) :
  forall x s, (x < 10 ^ N.of_nat k)%N ->
    (String.length (pretty_N_go x s) <= String.length s + k)%nat.
Proof.
  induction k as [|k IH]; intros x s Hx.
  - assert (x = 0%N) as -> by (simpl in Hx; lia).
    rewrite pretty_N_go_0. lia.
  - assert (x = 0 \/ 0 < x)%N as [-> | Hpos] by lia.
    + rewrite pretty_N_go_0. lia.
    + rewrite pretty_N_go_step by exact Hpos.
      etransitivity; [apply IH |]; [| simpl; lia].
      rewrite Nat2N.inj_succ, N.pow_succ_r' in Hx.
      apply N.Div0.div_lt_upper_bound. exact Hx.
Qed.

Lemma fmt_d_of_nat (n : nat) :
  fmt_d (Z.of_nat n) =
  if decide (N.of_nat n = 0%N) then "0" else pretty_N_go (N.of_nat n) "".
Proof.
  unfold fmt_d, pretty, pretty_Z. destruct n as [|n]; [reflexivity |].
  reflexivity.
Qed.

Lemma fmt_d_of_nat_digits (n : nat) :
  chars_in decimal_digits (fmt_d (Z.of_nat n)).
Proof.
  intros c Hc. rewrite fmt_d_of_nat in Hc. case_decide.
  - destruct Hc as [<- | []]. simpl; tauto.
  - apply pretty_N_go_chars in Hc as [Hc | []]. exact Hc.
Qed.

Lemma fmt_d_of_nat_length (n : nat) :
  (1 <= String.length (fmt_d (Z.of_nat n)))%nat /\
  (10 <= n -> 2 <= String.length (fmt_d (Z.of_nat n)))%nat /\
  (n < 1000 -> String.length (fmt_d (Z.of_nat n)) <= 3)%nat.
Proof.
  rewrite fmt_d_of_nat. case_decide as H0.
  - simpl. repeat split; lia.
  - assert (Hpos : (0 < N.of_nat n)%N) by lia.
    rewrite pretty_N_go_step by exact Hpos.
    split; [| split].
    + etransitivity; [| apply pretty_N_go_length_ge]. simpl. lia.
    + intros Hn.
      assert (Hpos' : (0 < N.of_nat n `div` 10)%N)
        by (apply N.div_str_pos; lia).
      rewrite pretty_N_go_step by exact Hpos'.
      etransitivity; [| apply pretty_N_go_length_ge]. simpl. lia.
    + intros Hn.
      etransitivity; [apply (pretty_N_go_length_le 2) |]; [| simpl; lia].
      apply N.Div0.div_lt_upper_bound. simpl. lia.
Qed.

Lemma fmt_d_length_le (n : Z) (k : nat) :
  0 <= n < 10 ^ Z.of_nat k -> (1 <= k)%nat ->
  (String.length (fmt_d n) <= k)%nat.
Proof.
  intros Hn Hk. rewrite <- (Z2Nat.id n) by lia. rewrite fmt_d_of_nat.
  case_decide; [simpl; lia |].
  etransitivity; [apply (pretty_N_go_length_le k) |]; [| simpl; lia].
  apply N2Z.inj_lt. rewrite N2Z.inj_pow, nat_N_Z, Z2Nat.id by lia.
  change (Z.of_N 10) with 10. rewrite nat_N_Z. lia.
Qed.

(** ** Worklists *)

Lemma for_each_insert_pair {A} (l : list A) (f1 p1 f2 p2 : A -> string) :
  forall s,
    for_each l (fun a =>
      secfile_insert_str (f1 a) (p1 a) ;; secfile_insert_str (f2 a) (p2 a)) s
    = Next ()
        (add_entries
           (concat ((fun a => [(p1 a, VStr (f1 a)); (p2 a, VStr (f2 a))])
                      <$> l)) s).
Proof.
  induction l as [|a l IH]; intros s; simpl.
  - rewrite add_entries_nil. reflexivity.
  - unfold mbind, M_bind. simpl. rewrite IH. f_equal.
    transitivity
      (add_entries
         (concat ((fun a => [(p1 a, VStr (f1 a)); (p2 a, VStr (f2 a))])
                    <$> l))
         (add_entries [(p2 a, VStr (f2 a))]
            (add_entries [(p1 a, VStr (f1 a))] s)));
      [reflexivity |].
    rewrite !add_entries_app. reflexivity.
Qed.

(** What [worklist_save] writes when [max_length] passes the assertion. *)
Lemma worklist_save_entries w pwl max_length path s :
  max_length <= MAX_LEN_WORKLIST (cst w) ->
  worklist_save w pwl max_length path s =
  add_entries
    ([(fc_snprintf 1024 path +:+ ".wl_length", VInt (wl_length pwl))] ++
     concat ((fun i =>
                [(fc_snprintf 1024 path +:+ ".wl_kind" +:+ fmt_d i,
                  VStr (type_rule_name (worklist_entry pwl i)));
                 (fc_snprintf 1024 path +:+ ".wl_value" +:+ fmt_d i,
                  VStr (rule_name (worklist_entry pwl i)))])
               <$> seqZ 0 (wl_length pwl)) ++
     concat ((fun i =>
                [(fc_snprintf 1024 path +:+ ".wl_kind" +:+ fmt_d i, VStr "");
                 (fc_snprintf 1024 path +:+ ".wl_value" +:+ fmt_d i, VStr "")])
               <$> seqZ (wl_length pwl) (max_length - wl_length pwl)))
    s.
Proof.
  intros Hmax. unfold worklist_save, fn. cbv zeta.
  erewrite bind_next by reflexivity.
  erewrite bind_next
    by (apply (for_each_insert_pair _
                 (fun i => type_rule_name (worklist_entry pwl i))
                 (fun i => fc_snprintf 1024 path +:+ ".wl_kind" +:+ fmt_d i)
                 (fun i => rule_name (worklist_entry pwl i))
                 (fun i => fc_snprintf 1024 path +:+ ".wl_value" +:+ fmt_d i))).
  unfold fc_assert_ret.
  rewrite (proj2 (Z.leb_le _ _) Hmax).
  erewrite bind_next by reflexivity.
  rewrite (for_each_insert_pair _ (fun _ => "")
             (fun i => fc_snprintf 1024 path +:+ ".wl_kind" +:+ fmt_d i)
             (fun _ => "")
             (fun i => fc_snprintf 1024 path +:+ ".wl_value" +:+ fmt_d i)).
  simpl outcome_state.
  change (set_saving
            (set_file
               (secfile_insert (VInt (wl_length pwl))
                  (fc_snprintf 1024 path +:+ ".wl_length")
                  (file (saving s)))
               (saving s)) s)
    with (add_entries
            [(fc_snprintf 1024 path +:+ ".wl_length", VInt (wl_length pwl))]
            s).
  rewrite !add_entries_app. reflexivity.
Qed.

Lemma secfile_lookup_cons (p : string) (v : value) (f : section_file)
      (path : string) :
  secfile_lookup ((p, v) :: f) path =
  if String.eqb p path then Some v else secfile_lookup f path.
Proof. reflexivity. Qed.

Section WorklistKeys.

Variable ps : string.

Let K (i : Z) : string := ps +:+ ".wl_kind" +:+ fmt_d i.
Let V (i : Z) : string := ps +:+ ".wl_value" +:+ fmt_d i.

Lemma wl_kind_inj i j : K i = K j -> i = j.
Proof.
  unfold K, fmt_d. intros H.
  apply (inj (String.append ps)) in H.
  apply (inj (String.append ".wl_kind")) in H.
  apply (inj pretty) in H. exact H.
Qed.

Lemma wl_value_inj i j : V i = V j -> i = j.
Proof.
  unfold V, fmt_d. intros H.
  apply (inj (String.append ps)) in H.
  apply (inj (String.append ".wl_value")) in H.
  apply (inj pretty) in H. exact H.
Qed.

Lemma wl_kind_value i j : K i <> V j.
Proof.
  unfold K, V. intros H. apply (inj (String.append ps)) in H.
  cbv [String.append] in H. discriminate H.
Qed.

Lemma wl_length_kind i : ps +:+ ".wl_length" <> K i.
Proof.
  unfold K. intros H. apply (inj (String.append ps)) in H.
  cbv [String.append] in H. discriminate H.
Qed.

Lemma wl_length_value i : ps +:+ ".wl_length" <> V i.
Proof.
  unfold V. intros H. apply (inj (String.append ps)) in H.
  cbv [String.append] in H. discriminate H.
Qed.

Lemma lookup_pairs_kind (vk vv : Z -> value) (l : list Z)
      (rest : section_file) (d : Z) :
  secfile_lookup
    (concat ((fun i => [(K i, vk i); (V i, vv i)]) <$> l) ++ rest) (K d)
  = if bool_decide (d ∈ l) then Some (vk d)
    else secfile_lookup rest (K d).
Proof.
  induction l as [|i l IH].
  - rewrite bool_decide_eq_false_2 by apply not_elem_of_nil. reflexivity.
  - rewrite fmap_cons, concat_cons, <- app_assoc.
    change ([(K i, vk i); (V i, vv i)] ++ ?Y)
      with ((K i, vk i) :: (V i, vv i) :: Y).
    rewrite !secfile_lookup_cons.
    destruct (String.eqb_spec (K i) (K d)) as [Heq | Hne].
    + apply wl_kind_inj in Heq. subst i.
      rewrite bool_decide_eq_true_2 by left. reflexivity.
    + destruct (String.eqb_spec (V i) (K d)) as [Heq' | _];
        [symmetry in Heq'; destruct (wl_kind_value _ _ Heq') |].
      etransitivity; [exact IH |].
      destruct (decide (d ∈ l)) as [Hin | Hnotin].
      * rewrite !bool_decide_eq_true_2; [reflexivity | right | ]; exact Hin.
      * rewrite !bool_decide_eq_false_2; [reflexivity | | exact Hnotin].
        rewrite not_elem_of_cons. split; [congruence | exact Hnotin].
Qed.

Lemma lookup_pairs_value (vk vv : Z -> value) (l : list Z)
      (rest : section_file) (d : Z) :
  secfile_lookup
    (concat ((fun i => [(K i, vk i); (V i, vv i)]) <$> l) ++ rest) (V d)
  = if bool_decide (d ∈ l) then Some (vv d)
    else secfile_lookup rest (V d).
Proof.
  induction l as [|i l IH].
  - rewrite bool_decide_eq_false_2 by apply not_elem_of_nil. reflexivity.
  - rewrite fmap_cons, concat_cons, <- app_assoc.
    change ([(K i, vk i); (V i, vv i)] ++ ?Y)
      with ((K i, vk i) :: (V i, vv i) :: Y).
    rewrite !secfile_lookup_cons.
    destruct (String.eqb_spec (K i) (V d)) as [Heq | _];
      [destruct (wl_kind_value _ _ Heq) |].
    destruct (String.eqb_spec (V i) (V d)) as [Heq | Hne].
    + apply wl_value_inj in Heq. subst i.
      rewrite bool_decide_eq_true_2 by left. reflexivity.
    + etransitivity; [exact IH |].
      destruct (decide (d ∈ l)) as [Hin | Hnotin].
      * rewrite !bool_decide_eq_true_2; [reflexivity | right | ]; exact Hin.
      * rewrite !bool_decide_eq_false_2; [reflexivity | | exact Hnotin].
        rewrite not_elem_of_cons. split; [congruence | exact Hnotin].
Qed.

End WorklistKeys.

Lemma bool_decide_seqZ (d m n : Z) :
  bool_decide (d ∈ seqZ m n) = (m <=? d) && (d <? m + n).
Proof.
  destruct (decide (d ∈ seqZ m n)) as [Hin | Hnotin].
  - rewrite bool_decide_eq_true_2 by exact Hin.
    apply elem_of_seqZ in Hin. symmetry. apply andb_true_intro.
    split; [apply Z.leb_le | apply Z.ltb_lt]; lia.
  - rewrite bool_decide_eq_false_2 by exact Hnotin.
    rewrite elem_of_seqZ in Hnotin. symmetry.
    destruct (Z.leb_spec m d); destruct (Z.ltb_spec d (m + n));
      simpl; try reflexivity; lia.
Qed.

(** The slots of a worklist record: position [d] holds the entry of the
    worklist below its length, the empty string from there up to
    [max_length], and nothing beyond. *)
Lemma worklist_record_slots w pwl max_length path d :
  max_length <= MAX_LEN_WORKLIST (cst w) -> 0 <= wl_length pwl -> 0 <= d ->
  secfile_lookup (worklist_record w pwl max_length path)
    (fc_snprintf 1024 path +:+ ".wl_kind" +:+ fmt_d d)
  = (if d <? wl_length pwl
     then Some (VStr (type_rule_name (worklist_entry pwl d)))
     else if d <? max_length then Some (VStr "") else None) /\
  secfile_lookup (worklist_record w pwl max_length path)
    (fc_snprintf 1024 path +:+ ".wl_value" +:+ fmt_d d)
  = (if d <? wl_length pwl
     then Some (VStr (rule_name (worklist_entry pwl d)))
     else if d <? max_length then Some (VStr "") else None).
Proof.
  intros Hmax Hlen Hd. unfold worklist_record.
  rewrite worklist_save_entries by exact Hmax.
  rewrite sg_file_add_entries.
  change (sg_file blank_state) with (@nil entry). rewrite app_nil_l.
  change ([?e] ++ ?Y) with (e :: Y).
  rewrite !secfile_lookup_cons.
  rewrite (proj2 (eqb_neq _ _) (wl_length_kind (fc_snprintf 1024 path) d)).
  rewrite (proj2 (eqb_neq _ _) (wl_length_value (fc_snprintf 1024 path) d)).
  rewrite (lookup_pairs_kind (fc_snprintf 1024 path)
             (fun i => VStr (type_rule_name (worklist_entry pwl i)))
             (fun i => VStr (rule_name (worklist_entry pwl i)))).
  rewrite (lookup_pairs_value (fc_snprintf 1024 path)
             (fun i => VStr (type_rule_name (worklist_entry pwl i)))
             (fun i => VStr (rule_name (worklist_entry pwl i)))).
  rewrite <- (app_nil_r (concat (_ <$> seqZ (wl_length pwl) _))).
  rewrite (lookup_pairs_kind (fc_snprintf 1024 path)
             (fun _ => VStr "") (fun _ => VStr "")).
  rewrite (lookup_pairs_value (fc_snprintf 1024 path)
             (fun _ => VStr "") (fun _ => VStr "")).
  rewrite !bool_decide_seqZ, !Z.add_0_l.
  replace (wl_length pwl + (max_length - wl_length pwl)) with max_length
    by lia.
  rewrite (proj2 (Z.leb_le 0 d) Hd). simpl andb.
  destruct (Z.ltb_spec d (wl_length pwl)) as [Hlt | Hge].
  - split; reflexivity.
  - rewrite (proj2 (Z.leb_le _ _) Hge). simpl andb.
    destruct (d <? max_length); split; reflexivity.
Qed.

Lemma worklist_save_record w pwl max_length path s :
  max_length <= MAX_LEN_WORKLIST (cst w) ->
  worklist_save w pwl max_length path s =
  add_entries (worklist_record w pwl max_length path) s.
Proof.
  intros Hmax. unfold worklist_record.
  rewrite !worklist_save_entries by exact Hmax.
  rewrite sg_file_add_entries.
  change (sg_file blank_state) with (@nil entry). rewrite app_nil_l.
  reflexivity.
Qed.

Lemma worklist_save_appends w pwl max_length path s :
  max_length <= MAX_LEN_WORKLIST (cst w) ->
  appends s (worklist_save w pwl max_length path s).
Proof.
  intros Hmax. rewrite worklist_save_record by exact Hmax.
  apply modify_file_appends.
Qed.

Global Hint Resolve worklist_save_appends : sg_leaf.

Lemma proceeds_sg_failure_ret_true (R : relation sg_state) `{!PreOrder R}
      (condition : bool) (message : log_event) :
  condition = true -> proceeds R (sg_failure_ret condition message).
Proof. intros ->. apply (proceeds_ret R). Qed.

Ltac proceeds_step :=
  lazymatch goal with
  | |- proceeds ?R (mbind _ _) => apply (proceeds_bind R); [| intros ?]
  | |- proceeds ?R (for_each _ _) => apply (proceeds_for_each R); intros ?
  | |- proceeds ?R (when _ _) => apply (proceeds_when R)
  | |- proceeds ?R (mret _) => apply (proceeds_ret R)
  | |- proceeds ?R get_state => apply (proceeds_get_state R)
  | |- proceeds ?R (call _) => apply (proceeds_call R); sg_leaf
  | |- proceeds ?R (modify _) => apply (proceeds_modify R); sg_leaf
  | |- proceeds ?R (sg_failure_ret _ _) =>
      apply (proceeds_sg_failure_ret_true R); solve [eauto]
  | |- proceeds _ (if ?b then _ else _) => destruct b
  | |- proceeds _ (match ?x with _ => _ end) => destruct x
  end.

Ltac proceeds_tac :=
  repeat (cbv zeta; sg_unfold; proceeds_step).

Lemma string_of_list_ascii_length (l : list ascii) :
  String.length (string_of_list_ascii l) = length l.
Proof.
  induction l as [|c l IH]; simpl; [reflexivity | rewrite IH; reflexivity].
Qed.

Lemma bit_string_length (n : Z) (f : Z -> bool) :
  String.length (bit_string n f) = Z.to_nat n.
Proof.
  unfold bit_string, chars.
  rewrite string_of_list_ascii_length, length_fmap, length_seqZ.
  reflexivity.
Qed.

Section CityRecord.

Variable w : world.
Hypothesis improvements_fit : improvement_count w <= MAX_NUM_ITEMS (cst w).
Hypothesis items_nonneg : 0 <= MAX_NUM_ITEMS (cst w).

Lemma improvement_vector_fits (f : Z -> bool) :
  (Z.of_nat (String.length (bit_string (improvement_count w) f))
   <? MAX_NUM_ITEMS (cst w) + 1) = true.
Proof. rewrite bit_string_length. apply Z.ltb_lt. lia. Qed.

End CityRecord.

Lemma wlist_max_length_of_spec (cities : list city) :
  forall acc,
    let r := foldl (fun wlist_max_length pcity =>
                      if wl_length (c_worklist pcity) >? wlist_max_length
                      then wl_length (c_worklist pcity)
                      else wlist_max_length) acc cities in
    acc <= r /\
    (forall pcity, pcity ∈ cities -> wl_length (c_worklist pcity) <= r) /\
    (r = acc \/ exists pcity, pcity ∈ cities /\ wl_length (c_worklist pcity) = r).
Proof.
  induction cities as [|c cities IH]; intros acc; simpl.
  - split; [lia |]. split; [| left; reflexivity].
    intros pcity H. apply elem_of_nil in H. destruct H.
  - destruct (IH (if wl_length (c_worklist c) >? acc
                  then wl_length (c_worklist c) else acc))
      as (Hle & Hall & Hex).
    destruct (Z.gtb_spec (wl_length (c_worklist c)) acc) as [Hgt | Hngt].
    + split; [lia |]. split.
      * intros pcity Hin. apply elem_of_cons in Hin as [-> | Hin];
          [lia | apply Hall, Hin].
      * right. destruct Hex as [-> | (pcity & Hin & Heq)].
        -- exists c. split; [left | reflexivity].
        -- exists pcity. split; [right; exact Hin | exact Heq].
    + split; [lia |]. split.
      * intros pcity Hin. apply elem_of_cons in Hin as [-> | Hin];
          [lia | apply Hall, Hin].
      * destruct Hex as [-> | (pcity & Hin & Heq)]; [left; reflexivity |].
        right. exists pcity. split; [right; exact Hin | exact Heq].
Qed.

Lemma indexed_split {A} (l : list A) (i : nat) (x : A) :
  l !! i = Some x ->
  exists l1 l2, indexed l = l1 ++ (Z.of_nat i, x) :: l2.
Proof.
  intros Hi.
  assert (Hlook : indexed l !! i = Some (Z.of_nat i, x)).
  { unfold indexed. apply lookup_zip_with_Some.
    exists (Z.of_nat i), x. split; [reflexivity |]. split; [| exact Hi].
    rewrite lookup_seqZ_lt; [f_equal; lia |].
    apply lookup_lt_Some in Hi. lia. }
  exists (take i (indexed l)), (drop (S i) (indexed l)).
  symmetry. apply take_drop_middle. exact Hlook.
Qed.

(** *** Paths of the city records *)

Lemma digits_dot_sep (a : string) :
  forall b x y,
    chars_in decimal_digits a -> chars_in decimal_digits b ->
    String.get 0 x = Some "."%char -> String.get 0 y = Some "."%char ->
    a +:+ x = b +:+ y -> a = b /\ x = y.
Proof.
  assert (Hdot : ~ In "."%char (list_ascii_of_string decimal_digits)).
  { simpl. intros H.
    repeat (destruct H as [H | H]; [discriminate H |]). exact H. }
  induction a as [|c a IH]; intros [|c' b] x y Ha Hb Hx Hy Heq.
  - split; [reflexivity | exact Heq].
  - exfalso. apply Hdot. apply Hb.
    change ("" +:+ x) with x in Heq. rewrite Heq in Hx.
    rewrite string_app_cons in Hx. simpl in Hx. injection Hx as ->.
    left. reflexivity.
  - exfalso. apply Hdot. apply Ha.
    change ("" +:+ y) with y in Heq. rewrite <- Heq in Hy.
    rewrite string_app_cons in Hy. simpl in Hy. injection Hy as ->.
    left. reflexivity.
  - rewrite !string_app_cons in Heq. injection Heq as -> Heq.
    destruct (IH b x y) as [-> ->]; try assumption.
    + intros ch Hch. apply Ha. right. exact Hch.
    + intros ch Hch. apply Hb. right. exact Hch.
    + split; reflexivity.
Qed.

Lemma fmt_d_digits (n : Z) : 0 <= n -> chars_in decimal_digits (fmt_d n).
Proof.
  intros Hn. rewrite <- (Z2Nat.id n) by exact Hn. apply fmt_d_of_nat_digits.
Qed.

(** Two paths under the records of the cities at positions [i] and [j] of
    one player are the same only for the same city and the same field. *)
Lemma city_path_sep (n i j : Z) (s1 s2 : string) :
  0 <= i -> 0 <= j ->
  String.get 0 s1 = Some "."%char -> String.get 0 s2 = Some "."%char ->
  ("player" +:+ fmt_d n +:+ ".c" +:+ fmt_d j) +:+ s1
  = ("player" +:+ fmt_d n +:+ ".c" +:+ fmt_d i) +:+ s2 ->
  j = i /\ s1 = s2.
Proof.
  intros Hi Hj H1 H2 Heq.
  rewrite !string_app_assoc in Heq.
  apply (inj (String.append "player")) in Heq.
  apply (inj (String.append (fmt_d n))) in Heq.
  apply (inj (String.append ".c")) in Heq.
  apply digits_dot_sep in Heq as [Heq ->];
    try (apply fmt_d_digits; assumption); try assumption.
  split; [| reflexivity]. unfold fmt_d in Heq.
  apply (inj pretty) in Heq. exact Heq.
Qed.

Lemma fc_snprintf_fits (size : nat) (text : string) :
  (String.length text < size)%nat -> fc_snprintf size text = text.
Proof. intros H. unfold fc_snprintf. apply substring_all. lia. Qed.

Lemma city_path_length (n j : Z) :
  0 <= n < 10 ^ 9 -> 0 <= j < 10 ^ 9 ->
  (String.length ("player" +:+ fmt_d n +:+ ".c" +:+ fmt_d j) <= 26)%nat.
Proof.
  intros Hn Hj. rewrite !string_length_app.
  pose proof (fmt_d_length_le n 9 Hn ltac:(lia)).
  pose proof (fmt_d_length_le j 9 Hj ltac:(lia)).
  change (String.length "player") with 6%nat.
  change (String.length ".c") with 2%nat. lia.
Qed.

Lemma city_buf_fits (plr : player) (j : Z) :
  0 <= p_number plr < 10 ^ 9 -> 0 <= j < 10 ^ 9 ->
  fc_snprintf 32 ("player" +:+ fmt_d (p_number plr) +:+ ".c" +:+ fmt_d j)
  = "player" +:+ fmt_d (p_number plr) +:+ ".c" +:+ fmt_d j /\
  fc_snprintf 1024 ("player" +:+ fmt_d (p_number plr) +:+ ".c" +:+ fmt_d j)
  = "player" +:+ fmt_d (p_number plr) +:+ ".c" +:+ fmt_d j.
Proof.
  intros Hn Hj. pose proof (city_path_length (p_number plr) j Hn Hj).
  split; apply fc_snprintf_fits; lia.
Qed.

(** *** Entries added with paths of a kind *)

Global Instance appends_paths_preorder (Q : string -> Prop) :
  PreOrder (appends_paths Q).
Proof.
  split.
  - intros s. split; [reflexivity |]. exists [].
    split; [symmetry; apply app_nil_r | constructor].
  - intros s1 s2 s3 [Hf1 (es1 & H1 & HQ1)] [Hf2 (es2 & H2 & HQ2)].
    split; [congruence |]. exists (es1 ++ es2). split.
    + rewrite H2, H1, <- app_assoc. reflexivity.
    + apply Forall_app. split; assumption.
Qed.

Lemma entries_appends_paths (Q : string -> Prop) (es : list entry) s :
  Forall (fun e => Q e.1) es ->
  appends_paths Q s
    (set_saving (set_file (file (saving s) ++ es) (saving s)) s).
Proof. intros HQ. split; [reflexivity |]. exists es. split; [reflexivity | exact HQ]. Qed.

Lemma insert_appends_paths (Q : string -> Prop) (v : value) (path : string)
      s :
  Q path ->
  appends_paths Q s
    (set_saving
       (set_file (secfile_insert v path (file (saving s))) (saving s)) s).
Proof.
  intros HQ. apply entries_appends_paths. constructor; [exact HQ | constructor].
Qed.

Lemma writes_record_skip {A} (Q : string -> Prop) (R : section_file)
      (m : M A) (k : A -> M ()) :
  proceeds (appends_paths Q) m -> (forall a, writes_record Q R (k a)) ->
  writes_record Q R (m ≫= k).
Proof.
  intros Hm Hk s Hok.
  destruct (Hm s) as (a & s1 & Hrun & Hflag & es & Hes & HQ).
  destruct (Hk a s1) as (s' & pre & post & Hrun' & Hok' & Hfile & Hpre & Hpost);
    [congruence |].
  exists s', (es ++ pre), post. split; [| split; [exact Hok' | split; [| split]]].
  - unfold mbind, M_bind. rewrite Hrun. exact Hrun'.
  - rewrite Hfile, Hes, <- !app_assoc. reflexivity.
  - apply Forall_app. split; assumption.
  - exact Hpost.
Qed.

Lemma writes_record_here (Q : string -> Prop) (R : section_file)
      (f : sg_state -> sg_state) (k : () -> M ()) :
  (forall s, f s = add_entries R s) ->
  (forall a, proceeds (appends_paths Q) (k a)) ->
  writes_record Q R (call f ≫= k).
Proof.
  intros Hf Hk s Hok.
  destruct (Hk () (f s)) as ([] & s' & Hrun & Hflag & es & Hes & HQ).
  exists s', [], es. split; [| split; [| split; [| split]]].
  - unfold mbind, M_bind. simpl. exact Hrun.
  - rewrite Hflag, Hf. exact Hok.
  - rewrite Hes, Hf, sg_file_add_entries, <- app_assoc. reflexivity.
  - constructor.
  - exact HQ.
Qed.

Lemma for_each_writes_record {A} (Q : string -> Prop) (R : section_file)
      (body : A -> M ()) (l1 l2 : list A) (x : A) :
  (forall y, y ∈ l1 ++ l2 -> proceeds (appends_paths Q) (body y)) ->
  writes_record Q R (body x) ->
  writes_record Q R (for_each (l1 ++ x :: l2) body).
Proof.
  intros Hall Hx. induction l1 as [|y l1 IH]; simpl.
  - intros s Hok.
    destruct (Hx s Hok) as (s1 & pre & post & Hrun & Hok1 & Hfile & Hpre & Hpost).
    assert (Hrest : proceeds (appends_paths Q) (for_each l2 body)).
    { clear -Hall. induction l2 as [|z l2 IH]; simpl.
      - apply (proceeds_ret (appends_paths Q)).
      - apply (proceeds_bind (appends_paths Q)).
        + apply Hall. left.
        + intros _. apply IH. intros y Hy. apply Hall. right. exact Hy. }
    destruct (Hrest s1) as ([] & s' & Hrun' & Hflag & es & Hes & HQ).
    exists s', pre, (post ++ es). split; [| split; [| split; [| split]]].
    + unfold mbind, M_bind. rewrite Hrun. exact Hrun'.
    + congruence.
    + rewrite Hes, Hfile, <- !app_assoc. reflexivity.
    + exact Hpre.
    + apply Forall_app. split; assumption.
  - apply writes_record_skip.
    + apply Hall. left.
    + intros _. apply IH. intros z Hz. apply Hall. right. exact Hz.
Qed.

Lemma secfile_lookup_other (l r : section_file) (path : string) :
  Forall (fun e => e.1 <> path) l ->
  secfile_lookup (l ++ r) path = secfile_lookup r path.
Proof.
  induction 1 as [|[p v] l Hne _ IH]; [reflexivity |].
  cbn [app secfile_lookup]. simpl in Hne.
  destruct (String.eqb_spec p path); [contradiction | exact IH].
Qed.

Lemma secfile_lookup_absent (l : section_file) (path : string) :
  Forall (fun e => e.1 <> path) l -> secfile_lookup l path = None.
Proof.
  intros H. rewrite <- (app_nil_r l). rewrite secfile_lookup_other by exact H.
  reflexivity.
Qed.

Section CityPaths.

Variables (w : world) (plr : player) (max_length : Z) (i : Z).
Hypothesis improvements_fit : improvement_count w <= MAX_NUM_ITEMS (cst w).
Hypothesis items_nonneg : 0 <= MAX_NUM_ITEMS (cst w).
Hypothesis max_fits : max_length <= MAX_LEN_WORKLIST (cst w).
Hypothesis number_fits : 0 <= p_number plr < 10 ^ 9.
Hypothesis position_fits : 0 <= i < 10 ^ 9.

Local Abbreviation city_path j :=
  ("player" +:+ fmt_d (p_number plr) +:+ ".c" +:+ fmt_d j).

Lemma no_slot_of_intro (path : string) :
  (forall d, path <> city_path i +:+ ".wl_kind" +:+ fmt_d d /\
             path <> city_path i +:+ ".wl_value" +:+ fmt_d d) ->
  no_slot_of plr i path.
Proof.
  intros H d. unfold wl_kind_path, wl_value_path, city_buf.
  destruct (city_buf_fits plr i number_fits position_fits) as [-> ->].
  apply H.
Qed.

Lemma city_field_no_slot (j : Z) (field : string) :
  0 <= j ->
  String.get 0 field = Some "."%char ->
  (j = i -> forall d, field <> ".wl_kind" +:+ fmt_d d /\
                      field <> ".wl_value" +:+ fmt_d d) ->
  no_slot_of plr i (city_path j +:+ field).
Proof.
  intros Hj Hdot Hfield. apply no_slot_of_intro. intros d.
  split; intros Heq;
    apply city_path_sep in Heq as [Hji Hf];
    try reflexivity; try lia; try exact Hdot;
    destruct (Hfield Hji d) as [H1 H2]; contradiction.
Qed.

Lemma ncities_no_slot :
  no_slot_of plr i ("player" +:+ fmt_d (p_number plr) +:+ ".ncities").
Proof.
  apply no_slot_of_intro. intros d.
  split; intros Heq; rewrite !string_app_assoc in Heq;
    apply (inj (String.append "player")) in Heq;
    apply (inj (String.append (fmt_d (p_number plr)))) in Heq;
    cbv [String.append] in Heq; discriminate Heq.
Qed.

Lemma city_field_tail (j : Z) (field : string) :
  "player" +:+ fmt_d (p_number plr) +:+ ".c" +:+ fmt_d j +:+ field
  = city_path j +:+ field.
Proof. rewrite !string_app_assoc. reflexivity. Qed.

Ltac city_field :=
  apply city_field_no_slot;
  [ lia | reflexivity
  | intros ? ?;
    first [ lia
          | split; intros ?; cbv [String.append] in *; discriminate ] ].

Lemma worklist_save_other (pwl : worklist) (j : Z) s :
  0 <= j < 10 ^ 9 -> j <> i ->
  appends_paths (no_slot_of plr i) s
    (worklist_save w pwl max_length (city_path j) s).
Proof.
  intros Hj Hne. rewrite worklist_save_entries by exact max_fits.
  rewrite (proj2 (city_buf_fits plr j number_fits Hj)).
  apply entries_appends_paths.
  repeat (apply Forall_app; split).
  - apply Forall_cons_2; [| apply Forall_nil_2]. cbn [fst]. city_field.
  - apply Forall_concat, Forall_fmap, Forall_forall. intros d _.
    apply Forall_cons_2; [| apply Forall_cons_2; [| apply Forall_nil_2]]; cbn [fst]; city_field.
  - apply Forall_concat, Forall_fmap, Forall_forall. intros d _.
    apply Forall_cons_2; [| apply Forall_cons_2; [| apply Forall_nil_2]]; cbn [fst]; city_field.
Qed.

Local Hint Resolve insert_appends_paths entries_appends_paths
  worklist_save_other : sg_leaf.
Local Hint Extern 1 (no_slot_of _ _ _) => solve [city_field] : sg_leaf.

Lemma sg_save_player_city_other (j : Z) (pcity : city) :
  0 <= j < 10 ^ 9 -> j <> i ->
  (forall path,
     Forall (fun e => no_slot_of plr i e.1) (c_ai_entries pcity path)) ->
  proceeds (appends_paths (no_slot_of plr i))
    (sg_save_player_city w plr max_length j pcity).
Proof.
  intros Hj Hne Hai.
  pose proof (improvement_vector_fits w improvements_fit items_nonneg)
    as Hfit.
  unfold sg_save_player_city. cbv zeta.
  rewrite (proj1 (city_buf_fits plr j number_fits Hj)).
  rewrite city_field_tail.
  proceeds_tac.
Qed.

Lemma worklist_save_here (pwl : worklist) s :
  worklist_save w pwl max_length (city_path i) s =
  add_entries (worklist_record w pwl max_length (city_buf plr i)) s.
Proof.
  unfold city_buf.
  rewrite (proj1 (city_buf_fits plr i number_fits position_fits)).
  apply worklist_save_record. exact max_fits.
Qed.

Ltac writes_record_tac :=
  repeat (cbv zeta;
          lazymatch goal with
          | |- writes_record _ _ (call (worklist_save _ _ _ _) ≫= _) =>
              apply writes_record_here;
              [ intros; apply worklist_save_here | intros; proceeds_tac ]
          | |- writes_record _ _ (_ ≫= _) =>
              apply writes_record_skip; [proceeds_tac | intros ?]
          end).

Lemma sg_save_player_city_writes (pcity : city) :
  (forall path,
     Forall (fun e => no_slot_of plr i e.1) (c_ai_entries pcity path)) ->
  writes_record (no_slot_of plr i)
    (worklist_record w (c_worklist pcity) max_length (city_buf plr i))
    (sg_save_player_city w plr max_length i pcity).
Proof.
  intros Hai.
  pose proof (improvement_vector_fits w improvements_fit items_nonneg)
    as Hfit.
  unfold sg_save_player_city. cbv zeta.
  rewrite (proj1 (city_buf_fits plr i number_fits position_fits)).
  rewrite city_field_tail.
  writes_record_tac.
Qed.

End CityPaths.

Lemma indexed_others {A} (l1 l2 : list (Z * A)) (xs : list A) (i : Z)
      (x : A) :
  indexed xs = l1 ++ (i, x) :: l2 ->
  forall j c, (j, c) ∈ l1 ++ l2 ->
    j <> i /\ 0 <= j < Z.of_nat (length xs) /\ c ∈ xs.
Proof.
  intros Hsplit j c Hin.
  assert (Hkeys : (indexed xs).*1 = seqZ 0 (Z.of_nat (length xs))).
  { unfold indexed. apply fst_zip. rewrite length_seqZ. lia. }
  assert (Hin' : (j, c) ∈ indexed xs).
  { rewrite Hsplit. apply elem_of_app in Hin as [Hin | Hin];
      apply elem_of_app; [left; exact Hin | right; right; exact Hin]. }
  split; [| split].
  - pose proof (NoDup_seqZ 0 (Z.of_nat (length xs))) as Hnd.
    rewrite <- Hkeys, Hsplit, fmap_app, fmap_cons in Hnd.
    apply NoDup_app in Hnd as (_ & Hl1 & Hnd).
    apply NoDup_cons in Hnd as [Hl2 _]. cbn [fst] in Hl1, Hl2.
    intros ->. apply elem_of_app in Hin as [Hin | Hin].
    + apply (Hl1 i); [| left].
      apply list_elem_of_fmap. exists (i, c). split; [reflexivity | exact Hin].
    + apply Hl2. apply list_elem_of_fmap. exists (i, c).
      split; [reflexivity | exact Hin].
  - assert (Hj : j ∈ (indexed xs).*1).
    { apply list_elem_of_fmap. exists (j, c). split; [reflexivity | exact Hin']. }
    rewrite Hkeys in Hj. apply elem_of_seqZ in Hj. lia.
  - unfold indexed in Hin'. apply elem_of_zip_r in Hin'. exact Hin'.
Qed.

Lemma secfile_lookup_app (f1 f2 : section_file) (path : string) :
  secfile_lookup (f1 ++ f2) path =
  match secfile_lookup f1 path with
  | Some v => Some v
  | None => secfile_lookup f2 path
  end.
Proof.
  induction f1 as [|[p v] f1 IH]; [reflexivity |].
  cbn [app secfile_lookup]. destruct (String.eqb p path); [reflexivity | exact IH].
Qed.

(** C6: when the cities of a player are saved (flag up, improvement vector
    within [MAX_NUM_ITEMS], worklist lengths within [0, MAX_LEN_WORKLIST],
    a player number and a number of cities that leave the paths uncut, no
    worklist slot of the player in the file before nor among the entries of
    the AI savers), [M] is the maximum worklist length over the player's
    cities, and in the saved file the row of every city has exactly [M]
    slot-pairs: [wl_kind<d>] and [wl_value<d>] hold the kind and rule name
    of entry [d] for [d] below the city's worklist length, the empty string
    for [d] from that length up to [M - 1], and are absent from [M] on. *)
Theorem city_worklists_rectangular (w : world) (plr : player) (s : sg_state)
        (i : nat) (pcity : city) :
  sg_success s = true ->
  improvement_count w <= MAX_NUM_ITEMS (cst w) ->
  0 <= MAX_NUM_ITEMS (cst w) ->
  (forall c, c ∈ p_cities plr ->
             0 <= wl_length (c_worklist c) <= MAX_LEN_WORKLIST (cst w)) ->
  0 <= p_number plr < 10 ^ 9 ->
  Z.of_nat (length (p_cities plr)) <= 10 ^ 9 ->
  (forall e, e ∈ sg_file s -> ~ worklist_slot plr e.1) ->
  (forall c path e, c ∈ p_cities plr -> e ∈ c_ai_entries c path ->
                    ~ worklist_slot plr e.1) ->
  p_cities plr !! i = Some pcity ->
  (forall c, c ∈ p_cities plr ->
             wl_length (c_worklist c) <= wlist_max_length_of (p_cities plr)) /\
  (exists c, c ∈ p_cities plr /\
             wl_length (c_worklist c) = wlist_max_length_of (p_cities plr)) /\
  (forall d, 0 <= d ->
     secfile_lookup (sg_file (sg_save_player_cities w plr s))
       (wl_kind_path plr (Z.of_nat i) d)
     = (if d <? wl_length (c_worklist pcity)
        then Some (VStr (type_rule_name (worklist_entry (c_worklist pcity) d)))
        else if d <? wlist_max_length_of (p_cities plr)
             then Some (VStr "") else None) /\
     secfile_lookup (sg_file (sg_save_player_cities w plr s))
       (wl_value_path plr (Z.of_nat i) d)
     = (if d <? wl_length (c_worklist pcity)
        then Some (VStr (rule_name (worklist_entry (c_worklist pcity) d)))
        else if d <? wlist_max_length_of (p_cities plr)
             then Some (VStr "") else None)).
Proof.
  intros Hok Himpr Hitems Hlens Hnumber Hcount Hfresh Hai Hi.
  assert (Hin : pcity ∈ p_cities plr)
    by (eapply list_elem_of_lookup_2; exact Hi).
  destruct (wlist_max_length_of_spec (p_cities plr) 0) as (H0 & Hall & Hex).
  fold (wlist_max_length_of (p_cities plr)) in H0, Hall, Hex.
  assert (Hattained : exists c, c ∈ p_cities plr /\
            wl_length (c_worklist c) = wlist_max_length_of (p_cities plr)).
  { destruct Hex as [Hzero | Hex]; [| exact Hex].
    exists pcity. split; [exact Hin |].
    pose proof (Hall pcity Hin). pose proof (Hlens pcity Hin). lia. }
  assert (Hmax : wlist_max_length_of (p_cities plr)
                 <= MAX_LEN_WORKLIST (cst w)).
  { destruct Hattained as (c & Hc & <-). apply (Hlens c Hc). }
  split; [exact Hall |]. split; [exact Hattained |].
  assert (Hpos : 0 <= Z.of_nat i < 10 ^ 9).
  { apply lookup_lt_Some in Hi. lia. }
  assert (Hother : forall k, ~ worklist_slot plr k ->
                             no_slot_of plr (Z.of_nat i) k).
  { intros k Hk d. split; intros ->; apply Hk; exists (Z.of_nat i), d;
      [left | right]; reflexivity. }
  assert (Hai' : forall c, c ∈ p_cities plr -> forall path,
            Forall (fun e => no_slot_of plr (Z.of_nat i) e.1)
              (c_ai_entries c path)).
  { intros c Hc path. apply Forall_forall. intros e He.
    apply Hother. eapply Hai; eassumption. }
  destruct (indexed_split (p_cities plr) i pcity Hi) as (l1 & l2 & Hsplit).
  assert (Hrun :
    exists pre post,
      sg_file (sg_save_player_cities w plr s) =
      (sg_file s ++
       [("player" +:+ fmt_d (p_number plr) +:+ ".ncities",
         VInt (Z.of_nat (length (p_cities plr))))]) ++
      pre ++
      worklist_record w (c_worklist pcity)
        (wlist_max_length_of (p_cities plr)) (city_buf plr (Z.of_nat i)) ++
      post /\
      Forall (fun e => no_slot_of plr (Z.of_nat i) e.1) pre /\
      Forall (fun e => no_slot_of plr (Z.of_nat i) e.1) post).
  { unfold sg_save_player_cities. cbv zeta.
    rewrite fn_check_true by exact Hok.
    erewrite bind_next by reflexivity.
    rewrite Hsplit.
    match goal with
    | |- context [for_each _ ?body ?s1] =>
        destruct (for_each_writes_record
                    (no_slot_of plr (Z.of_nat i))
                    (worklist_record w (c_worklist pcity)
                       (wlist_max_length_of (p_cities plr))
                       (city_buf plr (Z.of_nat i)))
                    body l1 l2 (Z.of_nat i, pcity)) with (s := s1)
          as (s' & pre & post & Hrun & _ & Hfile & Hpre & Hpost)
    end.
    - intros [j c] Hy.
      destruct (indexed_others l1 l2 (p_cities plr) (Z.of_nat i) pcity
                  Hsplit j c Hy) as (Hne & Hj & Hc).
      apply sg_save_player_city_other; cbn [fst snd];
        try assumption; try lia.
      apply Hai'. exact Hc.
    - apply sg_save_player_city_writes; cbn [fst snd]; try assumption.
      apply Hai'. exact Hin.
    - exact Hok.
    - rewrite Hrun. cbn [outcome_state]. rewrite Hfile.
      exists pre, post. split; [reflexivity |]. split; assumption. }
  destruct Hrun as (pre & post & Hfile & Hpre & Hpost).
  assert (Hbefore :
    Forall (fun e => no_slot_of plr (Z.of_nat i) e.1)
      (sg_file s ++
       [("player" +:+ fmt_d (p_number plr) +:+ ".ncities",
         VInt (Z.of_nat (length (p_cities plr))))])).
  { apply Forall_app. split.
    - apply Forall_forall. intros e He. apply Hother, Hfresh, He.
    - apply Forall_cons_2; [| apply Forall_nil_2].
      apply ncities_no_slot; assumption. }
  intros d Hd.
  destruct (worklist_record_slots w (c_worklist pcity)
              (wlist_max_length_of (p_cities plr))
              (city_buf plr (Z.of_nat i)) d Hmax
              (proj1 (Hlens pcity Hin)) Hd) as [Hkind Hvalue].
  fold (wl_kind_path plr (Z.of_nat i) d) in Hkind.
  fold (wl_value_path plr (Z.of_nat i) d) in Hvalue.
  assert (Hne : forall l : section_file,
            Forall (fun e => no_slot_of plr (Z.of_nat i) e.1) l ->
            Forall (fun e => e.1 <> wl_kind_path plr (Z.of_nat i) d) l /\
            Forall (fun e => e.1 <> wl_value_path plr (Z.of_nat i) d) l).
  { intros l Hl. split; eapply Forall_impl; try exact Hl;
      intros e He; apply (He d). }
  rewrite Hfile. split.
  - rewrite (secfile_lookup_other _ _ _ (proj1 (Hne _ Hbefore))).
    rewrite (secfile_lookup_other _ _ _ (proj1 (Hne _ Hpre))).
    rewrite secfile_lookup_app, Hkind.
    rewrite (secfile_lookup_absent _ _ (proj1 (Hne _ Hpost))).
    destruct (d <? wl_length (c_worklist pcity)); [reflexivity |].
    destruct (d <? wlist_max_length_of (p_cities plr)); reflexivity.
  - rewrite (secfile_lookup_other _ _ _ (proj2 (Hne _ Hbefore))).
    rewrite (secfile_lookup_other _ _ _ (proj2 (Hne _ Hpre))).
    rewrite secfile_lookup_app, Hvalue.
    rewrite (secfile_lookup_absent _ _ (proj2 (Hne _ Hpost))).
    destruct (d <? wl_length (c_worklist pcity)); [reflexivity |].
    destruct (d <? wlist_max_length_of (p_cities plr)); reflexivity.
Qed.

(** The sample player has two cities with worklists of lengths 0 and 3: in
    the saved file both rows have the three slot-pairs 0, 1, 2 and no
    fourth; the slots of the first city hold empty strings. *)
Lemma city_worklists_rectangular_witness :
  wlist_max_length_of sample_cities = 3 /\
  (forall d, 0 <= d ->
     secfile_lookup
       (sg_file
          (sg_save_player_cities sample_game
             (sample_player [1; 2; 3] sample_cities) blank_state))
       (wl_kind_path (sample_player [1; 2; 3] sample_cities) 0 d)
     = (if d <? 3 then Some (VStr "") else None)) /\
  secfile_lookup
    (sg_file
       (sg_save_player_cities sample_game
          (sample_player [1; 2; 3] sample_cities) blank_state))
    (wl_value_path (sample_player [1; 2; 3] sample_cities) 1 2)
  = Some (VStr "Temple").
Proof.
  split; [reflexivity |].
  pose proof (city_worklists_rectangular sample_game
                (sample_player [1; 2; 3] sample_cities) blank_state)
    as Hthm.
  assert (Hlens : forall c, c ∈ sample_cities ->
                            0 <= wl_length (c_worklist c) <= 64).
  { intros c H.
    repeat (apply elem_of_cons in H as [-> | H]; [simpl; lia |]).
    apply elem_of_nil in H. destruct H. }
  assert (Hfresh : forall e : entry, e ∈ sg_file blank_state ->
            ~ worklist_slot (sample_player [1; 2; 3] sample_cities) e.1).
  { intros e H. apply elem_of_nil in H. destruct H. }
  assert (Hai : forall (c : city) (path : string) (e : entry),
            c ∈ sample_cities -> e ∈ c_ai_entries c path ->
            ~ worklist_slot (sample_player [1; 2; 3] sample_cities) e.1).
  { intros c path e H He.
    repeat (apply elem_of_cons in H as [-> | H];
            [apply elem_of_nil in He; destruct He |]).
    apply elem_of_nil in H. destruct H. }
  split.
  - intros d Hd.
    destruct (Hthm 0%nat (sample_city 10 [2; 3] (sample_worklist []))
                eq_refl ltac:(simpl; lia) ltac:(simpl; lia) Hlens
                ltac:(simpl; lia) ltac:(simpl; lia) Hfresh Hai eq_refl)
      as (_ & _ & Hslots).
    destruct (Hslots d Hd) as [Hkind _].
    assert (Hd0 : (d <? 0) = false) by lia.
    etransitivity; [exact Hkind |].
    change (wl_length
              (c_worklist (sample_city 10 [2; 3] (sample_worklist []))))
      with 0.
    rewrite Hd0. reflexivity.
  - destruct (Hthm 1%nat
                (sample_city 11 []
                   (sample_worklist ["Barracks"; "Granary"; "Temple"]))
                eq_refl ltac:(simpl; lia) ltac:(simpl; lia) Hlens
                ltac:(simpl; lia) ltac:(simpl; lia) Hfresh Hai eq_refl)
      as (_ & _ & Hslots).
    exact (proj2 (Hslots 2 ltac:(lia))).
Defined.

(** * Further properties *)

(** ** [quote_block] *)

Lemma hex_bytes_length (data : list Z) :
  String.length (String.concat "" (hex_byte <$> data))
  = (3 * length data)%nat.
Proof.
  induction data as [|b data IH]; [reflexivity |].
  rewrite fmap_cons.
  assert (Hcons : String.concat "" (hex_byte b :: (hex_byte <$> data))
                  = hex_byte b +:+ String.concat "" (hex_byte <$> data)).
  { destruct (hex_byte <$> data); [symmetry; apply string_app_nil_r |].
    reflexivity. }
  rewrite Hcons, string_length_app, IH. simpl. lia.
Qed.

Lemma hex_digit_in_alphabet (n : Z) :
  In (string_index hex_chars (Z.land n 15)) (list_ascii_of_string quote_alphabet).
Proof.
  assert (Hr : 0 <= Z.land n 15 <= 15).
  { change (Z.land n 15) with (Z.land n (Z.ones 4)). rewrite Z.land_ones by lia.
    change (2 ^ 4) with 16.
    pose proof (Z.mod_pos_bound n 16 ltac:(lia)). lia. }
  destruct (hex_index_ok _ Hr) as (_ & Hin & _).
  simpl in Hin |- *. tauto.
Qed.

Lemma hex_bytes_chars (data : list Z) :
  chars_in quote_alphabet (String.concat "" (hex_byte <$> data)).
Proof.
  induction data as [|b data IH]; intros c Hc; [destruct Hc |].
  rewrite fmap_cons in Hc.
  assert (Hcons : String.concat "" (hex_byte b :: (hex_byte <$> data))
                  = hex_byte b +:+ String.concat "" (hex_byte <$> data)).
  { destruct (hex_byte <$> data); [symmetry; apply string_app_nil_r |].
    reflexivity. }
  rewrite Hcons, list_ascii_app in Hc. apply in_app_or in Hc as [Hc | Hc].
  - unfold hex_byte in Hc. simpl in Hc.
    destruct Hc as [<- | [<- | [<- | []]]].
    + apply hex_digit_in_alphabet.
    + apply hex_digit_in_alphabet.
    + simpl. tauto.
  - apply IH. exact Hc.
Qed.

Lemma index_of_colon_app (a b : string) :
  ~ In ":"%char (list_ascii_of_string a) ->
  index_of_colon (a +:+ ":" +:+ b) = String.length a.
Proof.
  induction a as [|c a IH]; intros Hno; [reflexivity |].
  rewrite string_app_cons. simpl.
  destruct (Ascii.eqb_spec c ":") as [-> | _].
  - exfalso. apply Hno. left. reflexivity.
  - f_equal. apply IH. intros Hin. apply Hno. right. exact Hin.
Qed.

Lemma quote_block_length (data : list Z) :
  String.length (quote_block data)
  = (String.length (fmt_d (Z.of_nat (length data))) + 1 + 3 * length data)%nat.
Proof.
  unfold quote_block.
  rewrite !string_length_app, hex_bytes_length. simpl. lia.
Qed.

Lemma quote_block_colon (data : list Z) :
  index_of_colon (quote_block data)
  = String.length (fmt_d (Z.of_nat (length data))).
Proof.
  unfold quote_block. apply index_of_colon_app.
  intros Hin. apply fmt_d_of_nat_digits in Hin. simpl in Hin.
  repeat (destruct Hin as [Hin | Hin]; [discriminate Hin |]). exact Hin.
Qed.

Lemma quote_block_chars (data : list Z) :
  chars_in quote_alphabet (quote_block data).
Proof.
  intros c Hc. unfold quote_block in Hc.
  rewrite !list_ascii_app in Hc.
  apply in_app_or in Hc as [Hc | Hc];
    [| apply in_app_or in Hc as [Hc | Hc]].
  - apply fmt_d_of_nat_digits in Hc. simpl in Hc |- *. tauto.
  - simpl in Hc |- *. tauto.
  - apply hex_bytes_chars in Hc. exact Hc.
Qed.

(** X1: [quote_block] keeps its promise. The quoted block consists only of
    the characters [" a-f0-9:"]; it is the decimal length, a colon, and three
    characters for every byte; the first colon stands right after the
    decimal length. *)
Theorem quote_block_shape (data : list Z) :
  chars_in quote_alphabet (quote_block data) /\
  String.length (quote_block data)
  = (String.length (fmt_d (Z.of_nat (length data))) + 1 + 3 * length data)%nat /\
  String.get (String.length (fmt_d (Z.of_nat (length data)))) (quote_block data)
  = Some ":"%char /\
  index_of_colon (quote_block data)
  = String.length (fmt_d (Z.of_nat (length data))).
Proof.
  split; [apply quote_block_chars |].
  split; [apply quote_block_length |].
  split; [| apply quote_block_colon].
  unfold quote_block.
  rewrite <- (append_correct2 (fmt_d (Z.of_nat (length data))) _ 0).
  reflexivity.
Qed.

(** ** The attribute block *)

Lemma concat_empty_cons (v : string) (vs : list string) :
  String.concat "" (v :: vs) = v +:+ String.concat "" vs.
Proof. destruct vs; [symmetry; apply string_app_nil_r | reflexivity]. Qed.

Lemma substring_length_exact (s : string) :
  forall a n, (a + n <= String.length s)%nat ->
    String.length (String.substring a n s) = n.
Proof.
  induction s as [|c s IH]; intros a n Hn; simpl in Hn.
  - assert (n = 0%nat) as -> by lia. rewrite substring_nil. reflexivity.
  - destruct a as [|a]; simpl.
    + destruct n as [|n]; [reflexivity |]. simpl. f_equal. apply IH. lia.
    + apply IH. lia.
Qed.

Lemma attribute_parts_run (pl quoted : string) (nrs : list Z) :
  forall quoted_at bytes_left s,
    exists values,
      attribute_parts pl quoted nrs quoted_at bytes_left s =
      Next ()
        ((if (bytes_left <=? length nrs * PART_SIZE)%nat then id
          else add_log (Log_assert "bytes_left == 0"))
           (add_entries
              (zip_with (fun nr v => (attribute_part_key pl nr, VStr v))
                 nrs values) s)) /\
      length values = length nrs /\
      String.concat "" values =
        String.substring quoted_at
          (Nat.min bytes_left (length nrs * PART_SIZE)) quoted /\
      Forall (fun v => (String.length v <= PART_SIZE)%nat) values.
Proof.
  induction nrs as [|nr nrs IH]; intros quoted_at bytes_left s.
  - exists []. split; [| split; [reflexivity | split; [| constructor]]].
    + cbn [attribute_parts length Nat.mul zip_with].
      rewrite add_entries_nil.
      destruct bytes_left as [|n]; reflexivity.
    + cbn [length Nat.mul]. rewrite Nat.min_0_r, substring_zero. reflexivity.
  - cbn [attribute_parts].
    set (size := Nat.min bytes_left PART_SIZE).
    destruct (IH (quoted_at + size)%nat (bytes_left - size)%nat
                (add_entries
                   [(attribute_part_key pl nr,
                     VStr (String.substring quoted_at size quoted))] s))
      as (values & Hrun & Hlen & Hcat & Hall).
    exists (String.substring quoted_at size quoted :: values).
    split; [| split; [| split]].
    + etransitivity; [exact Hrun |]. f_equal.
      rewrite add_entries_app. cbn [length zip_with app].
      assert (Hc : (bytes_left - size <=? length nrs * PART_SIZE)%nat
                   = (bytes_left <=? S (length nrs) * PART_SIZE)%nat).
      { subst size.
        destruct (Nat.leb_spec (bytes_left - Nat.min bytes_left PART_SIZE)
                    (length nrs * PART_SIZE));
          destruct (Nat.leb_spec bytes_left (S (length nrs) * PART_SIZE));
          try reflexivity; lia. }
      rewrite Hc. reflexivity.
    + cbn [length]. rewrite Hlen. reflexivity.
    + rewrite concat_empty_cons, Hcat, substring_split. f_equal.
      subst size. cbn [length]. lia.
    + constructor; [| exact Hall]. subst size.
      etransitivity; [apply substring_length |]. lia.
Qed.

Lemma attribute_block_fits (data : list Z) :
  length data <> 255%nat ->
  (String.length (quote_block data) <= PART_SIZE)%nat \/
  (PART_SIZE <
   String.length (quote_block data)
   - (1 + index_of_colon (quote_block data)) `mod` PART_ADJUST)%nat.
Proof.
  intros Hn. rewrite quote_block_colon, quote_block_length.
  destruct (fmt_d_of_nat_length (length data)) as (H1 & H2 & H3).
  unfold PART_SIZE, PART_ADJUST.
  set (d := String.length (fmt_d (Z.of_nat (length data)))) in *.
  set (n := length data) in *.
  pose proof (Nat.mod_upper_bound (1 + d) 3 ltac:(lia)) as Hm.
  pose proof (Nat.div_mod_eq (1 + d) 3) as Hd.
  destruct (Nat.le_gt_cases n 254) as [Hle | Hgt].
  - left. specialize (H3 ltac:(lia)). lia.
  - right. specialize (H2 ltac:(lia)).
    assert (1 <= (1 + d) `div` 3)%nat by (apply Nat.div_le_lower_bound; lia).
    lia.
Qed.

Section Attributes.

Variables (w : world) (plr : player) (data : list Z) (s : sg_state).
Hypothesis flag_up : sg_success s = true.
Hypothesis block : p_attribute_block plr = Some data.

Local Abbreviation pl := ("player" +:+ fmt_d (p_number plr)).
Local Abbreviation quoted := (quote_block data).

Lemma sg_save_player_attributes_unfold :
  sg_save_player_attributes w plr s =
  outcome_state
    (let bytes_left := String.length quoted in
     let bytes_adjust :=
       ((1 + index_of_colon quoted) `mod` PART_ADJUST)%nat in
     let parts : Z :=
       if (PART_SIZE <? bytes_left - bytes_adjust)%nat
       then 1 + Z.of_nat ((bytes_left - bytes_adjust - 1) `div` PART_SIZE)%nat
       else 1 in
     (if parts >? 1 then
        secfile_insert_str
          (String.substring 0 (PART_SIZE + bytes_adjust) quoted)
          (pl +:+ ".attribute_v2_block_data.part" +:+ fmt_d 0) ;;
        attribute_parts pl quoted (seqZ 1 (parts - 1))
          (PART_SIZE + bytes_adjust)
          (bytes_left - (PART_SIZE + bytes_adjust))
      else attribute_parts pl quoted (seqZ 0 parts) 0 bytes_left)
       (add_entries
          [(pl +:+ ".attribute_v2_block_length", VInt (Z.of_nat (length data)));
           (pl +:+ ".attribute_v2_block_length_quoted",
            VInt (Z.of_nat (String.length quoted)));
           (pl +:+ ".attribute_v2_block_parts", VInt parts)] s)).
Proof.
  unfold sg_save_player_attributes. cbv zeta.
  rewrite fn_check_true by exact flag_up. rewrite block.
  erewrite bind_next
    by (exact (eq_refl : secfile_insert_int _ _ s
                         = Next () (add_entries [(_, VInt _)] s))).
  erewrite bind_next
    by (exact (eq_refl : secfile_insert_int _ _ (add_entries _ s)
                         = Next () (add_entries [(_, VInt _)]
                                      (add_entries _ s)))).
  erewrite bind_next
    by (exact (eq_refl : secfile_insert_int _ _ (add_entries _ (add_entries _ s))
                         = Next () (add_entries [(_, VInt _)]
                                      (add_entries _ (add_entries _ s))))).
  rewrite !add_entries_app. reflexivity.
Qed.

Lemma attribute_part_entries_cons (first : Z) (v : string)
      (values : list string) :
  attribute_part_entries pl first (v :: values)
  = (attribute_part_key pl first, VStr v)
      :: attribute_part_entries pl (first + 1) values.
Proof.
  unfold attribute_part_entries. cbn [length].
  rewrite Nat2Z.inj_succ, seqZ_cons by lia. cbn [zip_with].
  do 3 f_equal. lia.
Qed.

(** X2: a player's attribute block of any length but 255 is saved whole.
    [sg_save_player_attributes] writes the length, the quoted length and the
    number of parts, then the parts numbered from 0; there is at least one
    part, the parts put end to end are the quoted block, none is longer than
    the buffer [part] holds ([PART_SIZE + PART_ADJUST - 1] characters), and
    nothing is logged. *)
Theorem attribute_block_parts :
  length data <> 255%nat ->
  exists values,
    sg_save_player_attributes w plr s =
    add_entries
      ([(pl +:+ ".attribute_v2_block_length", VInt (Z.of_nat (length data)));
        (pl +:+ ".attribute_v2_block_length_quoted",
         VInt (Z.of_nat (String.length quoted)));
        (pl +:+ ".attribute_v2_block_parts",
         VInt (Z.of_nat (length values)))] ++
       attribute_part_entries pl 0 values) s /\
    String.concat "" values = quoted /\
    values <> [] /\
    Forall (fun v => (String.length v <= PART_SIZE + 2)%nat) values.
Proof.
  intros Hn. rewrite sg_save_player_attributes_unfold. cbv zeta.
  pose proof (attribute_block_fits data Hn) as Hfits.
  set (B := String.length quoted) in *.
  set (a := ((1 + index_of_colon quoted) `mod` PART_ADJUST)%nat) in *.
  assert (Ha : (a < 3)%nat) by (apply Nat.mod_upper_bound; discriminate).
  destruct (Nat.ltb_spec PART_SIZE (B - a)) as [Hlong | Hshort].
  - set (k := ((B - a - 1) `div` PART_SIZE)%nat).
    assert (HPS : (0 < PART_SIZE)%nat) by (unfold PART_SIZE; lia).
    pose proof (Nat.div_mod_eq (B - a - 1) PART_SIZE) as Hdiv.
    pose proof (Nat.mod_upper_bound (B - a - 1) PART_SIZE ltac:(lia)) as Hmod.
    fold k in Hdiv.
    assert (Hk : (1 <= k)%nat)
      by (apply Nat.div_le_lower_bound; lia).
    assert (Hgt : (1 + Z.of_nat k >? 1) = true) by lia.
    rewrite Hgt.
    erewrite bind_next
      by (exact (eq_refl : secfile_insert_str _ _ (add_entries _ s)
                           = Next () (add_entries [(_, VStr _)]
                                        (add_entries _ s)))).
    destruct (attribute_parts_run pl quoted (seqZ 1 (1 + Z.of_nat k - 1))
                (PART_SIZE + a) (B - (PART_SIZE + a))
                (add_entries
                   [(pl +:+ ".attribute_v2_block_data.part" +:+ fmt_d 0,
                     VStr (String.substring 0 (PART_SIZE + a) quoted))]
                   (add_entries
                      [(pl +:+ ".attribute_v2_block_length",
                        VInt (Z.of_nat (length data)));
                       (pl +:+ ".attribute_v2_block_length_quoted",
                        VInt (Z.of_nat B));
                       (pl +:+ ".attribute_v2_block_parts",
                        VInt (1 + Z.of_nat k))] s)))
      as (values & Hrun & Hlen & Hcat & Hall).
    rewrite length_seqZ in Hlen, Hrun, Hcat.
    replace (Z.to_nat (1 + Z.of_nat k - 1)) with k in Hlen, Hrun, Hcat by lia.
    assert (Hleft : (B - (PART_SIZE + a) <= k * PART_SIZE)%nat) by lia.
    apply Nat.leb_le in Hleft as Hleb. rewrite Hleb in Hrun.
    rewrite Nat.min_l in Hcat by exact Hleft.
    exists (String.substring 0 (PART_SIZE + a) quoted :: values).
    split; [| split; [| split]].
    + rewrite Hrun. cbn [outcome_state id].
      rewrite !add_entries_app. rewrite attribute_part_entries_cons.
      unfold attribute_part_entries. cbn [length]. rewrite Hlen.
      replace (1 + Z.of_nat k - 1) with (Z.of_nat k) by lia.
      replace (1 + Z.of_nat k) with (Z.of_nat (S k)) by lia.
      reflexivity.
    + rewrite concat_empty_cons, Hcat.
      rewrite (substring_split quoted 0).
      apply substring_all. fold B. lia.
    + discriminate.
    + constructor.
      * etransitivity; [apply substring_length |]. lia.
      * eapply Forall_impl; [exact Hall |]. cbv beta. intros v Hv. lia.
  - assert (HB : (B <= PART_SIZE)%nat) by lia.
    change (1 >? 1) with false. cbv iota.
    destruct (attribute_parts_run pl quoted (seqZ 0 1) 0 B
                (add_entries
                   [(pl +:+ ".attribute_v2_block_length",
                     VInt (Z.of_nat (length data)));
                    (pl +:+ ".attribute_v2_block_length_quoted",
                     VInt (Z.of_nat B));
                    (pl +:+ ".attribute_v2_block_parts", VInt 1)] s))
      as (values & Hrun & Hlen & Hcat & Hall).
    change (length (seqZ 0 1)) with 1%nat in Hlen, Hrun, Hcat.
    rewrite Nat.mul_1_l in Hrun, Hcat.
    apply Nat.leb_le in HB as Hleb. rewrite Hleb in Hrun.
    rewrite Nat.min_l in Hcat by exact HB.
    exists values. split; [| split; [| split]].
    + rewrite Hrun. cbn [outcome_state id]. rewrite !add_entries_app.
      unfold attribute_part_entries. rewrite Hlen. reflexivity.
    + rewrite Hcat. apply substring_all. fold B. lia.
    + intros ->. discriminate Hlen.
    + eapply Forall_impl; [exact Hall |]. cbv beta. intros v Hv. lia.
Qed.

(** X3: an attribute block of exactly 255 bytes is saved one character
    short. Its quoted form has 769 characters, the number of parts is
    computed as 1, the only part holds the first 768 of them, and
    [fc_assert(bytes_left == 0)] fails. *)
Theorem attribute_block_255 :
  length data = 255%nat ->
  sg_save_player_attributes w plr s =
  add_log (Log_assert "bytes_left == 0")
    (add_entries
       [(pl +:+ ".attribute_v2_block_length", VInt 255);
        (pl +:+ ".attribute_v2_block_length_quoted", VInt 769);
        (pl +:+ ".attribute_v2_block_parts", VInt 1);
        (attribute_part_key pl 0, VStr (String.substring 0 PART_SIZE quoted))]
       s) /\
  String.length quoted = 769%nat /\
  String.length (String.substring 0 PART_SIZE quoted) = 768%nat.
Proof.
  intros Hn.
  assert (HB : String.length quoted = 769%nat).
  { rewrite quote_block_length, Hn. reflexivity. }
  assert (Hcolon : index_of_colon quoted = 3%nat).
  { rewrite quote_block_colon, Hn. reflexivity. }
  split; [| split; [exact HB |]].
  - rewrite sg_save_player_attributes_unfold. cbv zeta.
    rewrite HB, Hcolon, Hn.
    change ((1 + 3) `mod` PART_ADJUST)%nat with 1%nat.
    change (PART_SIZE <? 769 - 1)%nat with false. cbv iota.
    change (1 >? 1) with false. cbv iota.
    destruct (attribute_parts_run pl quoted (seqZ 0 1) 0 769
                (add_entries
                   [(pl +:+ ".attribute_v2_block_length",
                     VInt (Z.of_nat 255));
                    (pl +:+ ".attribute_v2_block_length_quoted",
                     VInt (Z.of_nat 769));
                    (pl +:+ ".attribute_v2_block_parts", VInt 1)] s))
      as (values & Hrun & Hlen & Hcat & Hall).
    change (length (seqZ 0 1)) with 1%nat in Hlen, Hrun, Hcat.
    rewrite Nat.mul_1_l in Hrun, Hcat.
    change (769 <=? PART_SIZE)%nat with false in Hrun.
    change (Nat.min 769 PART_SIZE) with PART_SIZE in Hcat.
    destruct values as [|v [|v' values]]; try discriminate Hlen.
    rewrite concat_empty_cons in Hcat. change (String.concat "" []) with "" in Hcat.
    rewrite string_app_nil_r in Hcat. subst v.
    rewrite Hrun. cbn [outcome_state]. rewrite add_entries_app. reflexivity.
  - apply substring_length_exact. rewrite HB. unfold PART_SIZE. lia.
Qed.

End Attributes.

Lemma attribute_block_255_witness :
  sg_save_player_attributes sample_game
    (with_attribute_block (replicate 255 0) (sample_player [] []))
    (sample_state true) =
  add_log (Log_assert "bytes_left == 0")
    (add_entries
       [("player" +:+ fmt_d 0 +:+ ".attribute_v2_block_length", VInt 255);
        ("player" +:+ fmt_d 0 +:+ ".attribute_v2_block_length_quoted",
         VInt 769);
        ("player" +:+ fmt_d 0 +:+ ".attribute_v2_block_parts", VInt 1);
        (attribute_part_key ("player" +:+ fmt_d 0) 0,
         VStr (String.substring 0 PART_SIZE
                 (quote_block (replicate 255 0))))]
       (sample_state true)) /\
  String.length (quote_block (replicate 255 0)) = 769%nat /\
  String.length
    (String.substring 0 PART_SIZE (quote_block (replicate 255 0)))
  = 768%nat.
Proof.
  apply (attribute_block_255 sample_game
           (with_attribute_block (replicate 255 0) (sample_player [] []))
           (replicate 255 0) (sample_state true));
    reflexivity.
Defined.

Lemma attribute_block_parts_witness :
  exists values,
    sg_save_player_attributes sample_game
      (with_attribute_block [1; 2; 3] (sample_player [] []))
      (sample_state true) =
    add_entries
      ([("player" +:+ fmt_d 0 +:+ ".attribute_v2_block_length", VInt 3);
        ("player" +:+ fmt_d 0 +:+ ".attribute_v2_block_length_quoted",
         VInt (Z.of_nat (String.length (quote_block [1; 2; 3]))));
        ("player" +:+ fmt_d 0 +:+ ".attribute_v2_block_parts",
         VInt (Z.of_nat (length values)))] ++
       attribute_part_entries ("player" +:+ fmt_d 0) 0 values)
      (sample_state true) /\
    String.concat "" values = quote_block [1; 2; 3] /\
    values <> [] /\
    Forall (fun v => (String.length v <= PART_SIZE + 2)%nat) values.
Proof.
  apply (attribute_block_parts sample_game
           (with_attribute_block [1; 2; 3] (sample_player [] []))
           [1; 2; 3] (sample_state true));
    [reflexivity | reflexivity | simpl; lia].
Defined.

(** ** [num2char] and the order strings *)

Lemma string_get_lookup (s : string) :
  forall n, String.get n s = list_ascii_of_string s !! n.
Proof.
  induction s as [|c s IH]; intros [|n]; simpl; try reflexivity. apply IH.
Qed.

Lemma chars_get (l : list ascii) (n : nat) :
  String.get n (chars l) = l !! n.
Proof.
  unfold chars. rewrite string_get_lookup, list_ascii_of_string_of_list_ascii.
  reflexivity.
Qed.

Lemma chars_length (l : list ascii) : String.length (chars l) = length l.
Proof. apply string_of_list_ascii_length. Qed.

Lemma num_chars_distinct : NoDup (list_ascii_of_string num_chars).
Proof. apply (bool_decide_unpack _). vm_compute. exact I. Qed.

Lemma num2char_in_range (num : Z) :
  0 <= num < 65 ->
  list_ascii_of_string num_chars !! Z.to_nat num = Some (num2char num).
Proof.
  intros Hn. unfold num2char.
  change (Z.of_nat (String.length num_chars)) with 65.
  destruct (Z.ltb_spec num 0); [lia |].
  destruct (Z.geb_spec num 65); [lia |]. cbn [orb].
  unfold string_index, char_at. destruct (Z.ltb_spec num 0); [lia |].
  rewrite string_get_lookup.
  destruct (list_ascii_of_string num_chars !! Z.to_nat num) eqn:Hl;
    [reflexivity |].
  apply lookup_ge_None in Hl. simpl in Hl. lia.
Qed.

(** X4: [num2char] is unambiguous below 65. For a number that is not
    negative the result is ['?'] exactly when the number is 65 or more; two
    numbers below 65 with the same character are equal; the character of a
    number below 65 is one of [num_chars] and can be written to a map
    line. *)
Theorem num2char_unambiguous :
  (forall num, 0 <= num ->
     (num2char num = "?"%char <-> 65 <= num)) /\
  (forall a b, 0 <= a < 65 -> 0 <= b < 65 ->
     num2char a = num2char b -> a = b) /\
  (forall num, 0 <= num < 65 ->
     In (num2char num) (list_ascii_of_string num_chars) /\
     map_char_ok (num2char num) = true).
Proof.
  split; [| split].
  - intros num Hn. split.
    + intros Hq. destruct (Z.le_gt_cases 65 num) as [|Hlt]; [assumption |].
      exfalso. pose proof (num2char_in_range num ltac:(lia)) as Hl.
      rewrite Hq in Hl. apply list_elem_of_lookup_2 in Hl.
      revert Hl. apply (bool_decide_unpack _). vm_compute. exact I.
    + intros Hge. unfold num2char.
      change (Z.of_nat (String.length num_chars)) with 65.
      destruct (Z.geb_spec num 65); [| lia].
      rewrite orb_true_r. reflexivity.
  - intros a b Ha Hb Heq.
    pose proof (num2char_in_range a Ha) as Hla.
    pose proof (num2char_in_range b Hb) as Hlb.
    rewrite <- Heq in Hlb.
    pose proof (NoDup_lookup _ _ _ _ num_chars_distinct Hla Hlb). lia.
  - intros num Hn. pose proof (num2char_in_range num Hn) as Hl.
    apply list_elem_of_lookup_2 in Hl. split.
    + apply list_elem_of_In. exact Hl.
    + revert Hl. generalize (num2char num). intros c Hc.
      assert (Hall : Forall (fun c => map_char_ok c = true)
                       (list_ascii_of_string num_chars)).
      { apply (bool_decide_unpack _). vm_compute. exact I. }
      rewrite Forall_forall in Hall. apply Hall. exact Hc.
Qed.

Lemma num2char_unambiguous_witness :
  num2char 65 = "?"%char /\
  (num2char 10 = num2char 10 -> 10 = 10) /\
  map_char_ok (num2char 64) = true.
Proof.
  destruct num2char_unambiguous as (Hq & Hinj & Hin).
  split; [apply (Hq 65); lia |].
  split; [apply (Hinj 10 10); lia |].
  apply (Hin 64). lia.
Defined.



(** ** The groups of four bits *)

(** X6: a group of four specials of the full specials map (not the rivers
    overlay). The number packed for group [j] is a hexadecimal digit, the
    saved character is that digit, and bit [l] of it says whether special
    [4 * j + l] exists (is below [S_LAST]) and is set on the tile. *)
Theorem specials_group_bits (S_LAST S_OLD_RIVER : Z) (specials : bv) (j : Z) :
  0 <= sg_special_bin S_LAST specials
         (specials_mod S_LAST S_OLD_RIVER false j) <= 15 /\
  char_at hex_chars
    (sg_special_bin S_LAST specials (specials_mod S_LAST S_OLD_RIVER false j))
  = Some (sg_special_get S_LAST specials
            (specials_mod S_LAST S_OLD_RIVER false j)) /\
  forall l, 0 <= l < 4 ->
    Z.testbit
      (sg_special_bin S_LAST specials
         (specials_mod S_LAST S_OLD_RIVER false j)) l
    = (4 * j + l <? S_LAST) && contains_special specials (4 * j + l).
Proof.
  split; [apply halfbyte_bin_range |].
  split; [apply hex_index_ok, halfbyte_bin_range |].
  intros l Hl. unfold sg_special_bin.
  rewrite (halfbyte_bits_trailing (fun sp => sp >=? S_LAST))
    by (first [apply specials_mod_trailing | exact Hl]).
  rewrite specials_mod_slot by exact Hl.
  destruct (Z.ltb_spec (4 * j + l) S_LAST).
  - destruct (Z.geb_spec (4 * j + l) S_LAST); [lia | reflexivity].
  - destruct (Z.geb_spec S_LAST S_LAST); [reflexivity | lia].
Qed.

Lemma specials_group_bits_witness :
  Z.testbit
    (sg_special_bin 11 (fun sp => sp =? 5) (specials_mod 11 7 false 1)) 1
  = true /\
  Z.testbit
    (sg_special_bin 11 (fun sp => sp =? 5) (specials_mod 11 7 false 1)) 2
  = false.
Proof.
  destruct (specials_group_bits 11 7 (fun sp => sp =? 5) 1)
    as (_ & _ & Hbits).
  split; [exact (Hbits 1 ltac:(lia)) | exact (Hbits 2 ltac:(lia))].
Defined.

(** X7: a group of four bases or roads. When the group starts below the
    number of types and the bit vector has no bit set at or above that
    number, bit [l] of the packed number says whether type [4 * j + l]
    exists and is set. *)
Theorem bases_roads_group_bits (num j : Z) (v : bv) :
  0 <= j -> 4 * j < num ->
  (forall b, num <= b -> BV_ISSET v b = false) ->
  forall l, 0 <= l < 4 ->
    Z.testbit (sg_bases_bin v (bases_mod num j)) l
    = (4 * j + l <? num) && BV_ISSET v (4 * j + l) /\
    Z.testbit (sg_roads_bin v (roads_mod num j)) l
    = (4 * j + l <? num) && BV_ISSET v (4 * j + l).
Proof.
  intros Hj Hnum Hclean l Hl.
  assert (Hmod : bases_mod num j = [4 * j + 0; 4 * j + 1; 4 * j + 2; 4 * j + 3]
                 /\ roads_mod num j
                    = [4 * j + 0; 4 * j + 1; 4 * j + 2; 4 * j + 3]).
  { unfold bases_mod, roads_mod.
    destruct (Z.gtb_spec (4 * j + 1) num); [lia |]. split; reflexivity. }
  destruct Hmod as [-> ->].
  assert (Hbit :
    Z.testbit (halfbyte_loop (fun base => base <? 0) (BV_ISSET v)
                 [4 * j + 0; 4 * j + 1; 4 * j + 2; 4 * j + 3] 4 0 0) l
    = (4 * j + l <? num) && BV_ISSET v (4 * j + l)).
  { rewrite halfbyte_bits_trailing; [| | exact Hl].
    - assert (Hs : slot [4 * j + 0; 4 * j + 1; 4 * j + 2; 4 * j + 3] l
                   = 4 * j + l).
      { assert (l = 0 \/ l = 1 \/ l = 2 \/ l = 3) as [-> | [-> | [-> | ->]]]
          by lia; reflexivity. }
      rewrite Hs. destruct (Z.ltb_spec (4 * j + l) 0); [lia |].
      destruct (Z.ltb_spec (4 * j + l) num); [reflexivity |].
      simpl. apply Hclean. lia.
    - intros a b Hab Hb Habs. exfalso.
      assert (Hs : slot [4 * j + 0; 4 * j + 1; 4 * j + 2; 4 * j + 3] a
                   = 4 * j + a).
      { assert (a = 0 \/ a = 1 \/ a = 2 \/ a = 3) as [-> | [-> | [-> | ->]]]
          by lia; reflexivity. }
      rewrite Hs in Habs. apply Z.ltb_lt in Habs. lia. }
  split; exact Hbit.
Qed.

Lemma bases_roads_group_bits_witness :
  Z.testbit (sg_bases_bin (fun b => b =? 4) (bases_mod 5 1)) 0
  = (4 * 1 + 0 <? 5) && BV_ISSET (fun b => b =? 4) (4 * 1 + 0) /\
  Z.testbit (sg_roads_bin (fun b => b =? 4) (roads_mod 5 1)) 0
  = (4 * 1 + 0 <? 5) && BV_ISSET (fun b => b =? 4) (4 * 1 + 0).
Proof.
  apply (bases_roads_group_bits 5 1 (fun b => b =? 4)); try lia.
  intros b Hb. unfold BV_ISSET. lia.
Defined.

Lemma rivers_mod_slot (S_LAST S_OLD_RIVER j l : Z) :
  0 <= l < 4 ->
  slot (specials_mod S_LAST S_OLD_RIVER true j) l =
  if 4 * j + l =? S_OLD_RIVER then S_OLD_RIVER else S_LAST.
Proof.
  intros Hl.
  assert (l = 0 \/ l = 1 \/ l = 2 \/ l = 3) as [-> | [-> | [-> | ->]]] by lia;
    reflexivity.
Qed.

Lemma halfbyte_loop_step stop isset index n i bin :
  halfbyte_loop stop isset index (S n) i bin =
  if stop (slot index i) then bin
  else halfbyte_loop stop isset index n (i + 1)
         (if isset (slot index i) then Z.lor bin (Z.shiftl 1 i) else bin).
Proof. reflexivity. Qed.

(** X8: the rivers overlay of the specials. The number packed for group
    [j] is 1 when [S_OLD_RIVER] is the first special of the group, exists
    and is set on the tile, and 0 otherwise: a sentinel in the first place
    ends the loop before the river is looked at. So when [S_OLD_RIVER] is
    not a multiple of 4 every character of the overlay is ['0']. *)
Theorem rivers_overlay_bits (S_LAST S_OLD_RIVER : Z) (specials : bv) (j : Z) :
  sg_special_bin S_LAST specials (specials_mod S_LAST S_OLD_RIVER true j)
  = (if (4 * j =? S_OLD_RIVER) && (S_OLD_RIVER <? S_LAST)
        && contains_special specials S_OLD_RIVER
     then 1 else 0) /\
  (S_OLD_RIVER `mod` 4 <> 0 ->
   sg_special_get S_LAST specials (specials_mod S_LAST S_OLD_RIVER true j)
   = "0"%char).
Proof.
  assert (Hbin :
    sg_special_bin S_LAST specials (specials_mod S_LAST S_OLD_RIVER true j)
    = (if (4 * j =? S_OLD_RIVER) && (S_OLD_RIVER <? S_LAST)
          && contains_special specials S_OLD_RIVER
       then 1 else 0)).
  { unfold sg_special_bin.
    pose proof (rivers_mod_slot S_LAST S_OLD_RIVER j 0 ltac:(lia)) as H0.
    pose proof (rivers_mod_slot S_LAST S_OLD_RIVER j 1 ltac:(lia)) as H1.
    rewrite Z.add_0_r in H0.
    generalize dependent (specials_mod S_LAST S_OLD_RIVER true j).
    intros index H0 H1.
    rewrite halfbyte_loop_step, H0.
    destruct (Z.eqb_spec (4 * j) S_OLD_RIVER) as [Heq | Hne].
    - destruct (Z.eqb_spec (4 * j + 1) S_OLD_RIVER); [lia |].
      destruct (Z.geb_spec S_OLD_RIVER S_LAST);
        destruct (Z.ltb_spec S_OLD_RIVER S_LAST); try lia; [reflexivity |].
      rewrite halfbyte_loop_step. change (0 + 1) with 1. rewrite H1.
      destruct (Z.geb_spec S_LAST S_LAST); [| lia].
      destruct (contains_special specials S_OLD_RIVER); reflexivity.
    - destruct (Z.geb_spec S_LAST S_LAST); [reflexivity | lia]. }
  split; [exact Hbin |].
  intros Hmod. unfold sg_special_get.
  unfold sg_special_bin in Hbin |- *. rewrite Hbin.
  destruct (Z.eqb_spec (4 * j) S_OLD_RIVER) as [Heq | Hne]; [| reflexivity].
  exfalso. apply Hmod. rewrite <- Heq, Z.mul_comm. apply Z.mod_mul. lia.
Qed.

Lemma rivers_overlay_bits_witness :
  sg_special_get 11 (fun _ => true) (specials_mod 11 7 true 1) = "0"%char.
Proof.
  apply (proj2 (rivers_overlay_bits 11 7 (fun _ => true) 1)).
  vm_compute. discriminate.
Defined.

(** ** [bin2ascii_hex] and the known tiles *)

Lemma nibble_range (value j : Z) : 0 <= nibble value j <= 15.
Proof.
  unfold nibble.
  change (Z.land (Z.shiftr value (j * 4)) 15)
    with (Z.land (Z.shiftr value (j * 4)) (Z.ones 4)).
  rewrite Z.land_ones by lia. change (2 ^ 4) with 16.
  pose proof (Z.mod_pos_bound (Z.shiftr value (j * 4)) 16 ltac:(lia)). lia.
Qed.

Lemma nibble_testbit (value j i : Z) :
  0 <= j -> 0 <= i < 4 ->
  Z.testbit (nibble value j) i = Z.testbit value (4 * j + i).
Proof.
  intros Hj Hi. unfold nibble.
  rewrite Z.land_spec, Z.shiftr_spec by lia.
  replace (i + j * 4) with (4 * j + i) by lia.
  change 15 with (Z.ones 4). rewrite Z.ones_spec_low by lia.
  apply andb_true_r.
Qed.

Lemma hex_chars_distinct : NoDup (list_ascii_of_string hex_chars).
Proof. apply (bool_decide_unpack _). vm_compute. exact I. Qed.

Lemma hex_index_inj (a b : Z) :
  0 <= a <= 15 -> 0 <= b <= 15 ->
  string_index hex_chars a = string_index hex_chars b -> a = b.
Proof.
  intros Ha Hb Heq.
  destruct (hex_index_ok a Ha) as (Hca & _).
  destruct (hex_index_ok b Hb) as (Hcb & _).
  unfold char_at in Hca, Hcb.
  destruct (Z.ltb_spec a 0); [lia |]. destruct (Z.ltb_spec b 0); [lia |].
  rewrite string_get_lookup in Hca, Hcb. rewrite <- Heq in Hcb.
  pose proof (NoDup_lookup _ _ _ _ hex_chars_distinct Hca Hcb). lia.
Qed.

(** X9: [bin2ascii_hex] loses nothing of a 32-bit word. The character of
    half-byte [j] is the hexadecimal digit of the four bits [4 * j] to
    [4 * j + 3] of the value, it is one of [hex_chars] and can be written
    to a map line; two words below [2 ^ 32] with the same eight characters
    are equal. *)
Theorem bin2ascii_hex_lossless :
  (forall value j,
     bin2ascii_hex value j = string_index hex_chars (nibble value j) /\
     In (bin2ascii_hex value j) (list_ascii_of_string hex_chars) /\
     map_char_ok (bin2ascii_hex value j) = true) /\
  (forall value j i, 0 <= j -> 0 <= i < 4 ->
     Z.testbit (nibble value j) i = Z.testbit value (4 * j + i)) /\
  (forall v1 v2, 0 <= v1 < 2 ^ 32 -> 0 <= v2 < 2 ^ 32 ->
     (forall j, 0 <= j < 8 -> bin2ascii_hex v1 j = bin2ascii_hex v2 j) ->
     v1 = v2).
Proof.
  split; [| split].
  - intros value j. split; [reflexivity |].
    apply (hex_index_ok (nibble value j)), nibble_range.
  - apply nibble_testbit.
  - intros v1 v2 H1 H2 Heq. apply Z.bits_inj'. intros n Hn.
    destruct (Z.lt_ge_cases n 32) as [Hlt | Hge].
    + assert (Hnib : nibble v1 (n / 4) = nibble v2 (n / 4)).
      { apply hex_index_inj; try apply nibble_range.
        apply (Heq (n / 4)). split.
        - apply Z.div_pos; lia.
        - apply Z.div_lt_upper_bound; lia. }
      pose proof (Z.div_mod n 4 ltac:(lia)) as Hdm.
      pose proof (Z.mod_pos_bound n 4 ltac:(lia)) as Hm.
      rewrite Hdm.
      rewrite <- !nibble_testbit by (first [apply Z.div_pos; lia | lia]).
      rewrite Hnib. reflexivity.
    + rewrite (testbit_above v1 32 n), (testbit_above v2 32 n) by lia.
      reflexivity.
Qed.

Lemma bin2ascii_hex_lossless_witness :
  Z.testbit (nibble 48 1) 1 = Z.testbit 48 (4 * 1 + 1) /\
  ((forall j, 0 <= j < 8 -> bin2ascii_hex 48 j = bin2ascii_hex 48 j) ->
   48 = 48).
Proof.
  destruct bin2ascii_hex_lossless as (_ & Hbit & Hinj).
  split; [apply (Hbit 48 1 1); lia | apply (Hinj 48 48); lia].
Defined.

Lemma testbit_one (k : Z) : Z.testbit 1 k = (k =? 0).
Proof. destruct k as [|p|p]; [reflexivity | destruct p; reflexivity | reflexivity]. Qed.

Lemma known_word_testbit_general (ps : list player) (l : Z) (ptile : tile)
      (b : Z) :
  0 <= b ->
  forall word,
    Z.testbit
      (foldl (fun word pplayer =>
                let p := p_index pplayer in
                if t_known ptile p && (p `quot` 32 =? l)
                then Z.lor word (Z.shiftl 1 (p `rem` 32))
                else word) word ps) b
    = Z.testbit word b ||
      existsb (fun pplayer =>
                 t_known ptile (p_index pplayer)
                 && (p_index pplayer `quot` 32 =? l)
                 && (p_index pplayer `rem` 32 =? b)) ps.
Proof.
  intros Hb. induction ps as [|pplayer ps IH]; intros word.
  - simpl. symmetry. apply orb_false_r.
  - cbn [foldl existsb]. rewrite IH. cbv zeta.
    destruct (t_known ptile (p_index pplayer)
              && (p_index pplayer `quot` 32 =? l)) eqn:Hk.
    + rewrite Z.lor_spec, Z.shiftl_spec, testbit_one by lia.
      cbn [andb].
      replace (b - p_index pplayer `rem` 32 =? 0)
        with (p_index pplayer `rem` 32 =? b)
        by (destruct (Z.eqb_spec (p_index pplayer `rem` 32) b);
            destruct (Z.eqb_spec (b - p_index pplayer `rem` 32) 0);
            first [reflexivity | lia]).
      symmetry. apply orb_assoc.
    + cbn [andb orb]. reflexivity.
Qed.

(** X10: the known map. With player indices that are not negative, bit [i]
    of half-byte [j] of the word of line group [l] is set exactly when some
    player with index [32 * l + 4 * j + i] knows the tile; the saved
    character is the hexadecimal digit of that half-byte. *)
Theorem known_nibble_bits (w : world) (l j : Z) (ptile : tile) :
  (forall pplayer, pplayer ∈ players w -> 0 <= p_index pplayer) ->
  0 <= l -> 0 <= j < 8 ->
  0 <= nibble (known_word w l ptile) j <= 15 /\
  bin2ascii_hex (known_word w l ptile) j
  = string_index hex_chars (nibble (known_word w l ptile) j) /\
  forall i, 0 <= i < 4 ->
    Z.testbit (nibble (known_word w l ptile) j) i
    = existsb (fun pplayer =>
                 t_known ptile (p_index pplayer)
                 && (p_index pplayer =? 32 * l + 4 * j + i)) (players w).
Proof.
  intros Hidx Hl Hj. split; [apply nibble_range |]. split; [reflexivity |].
  intros i Hi. rewrite nibble_testbit by lia.
  unfold known_word. rewrite known_word_testbit_general by lia.
  rewrite Z.bits_0. cbn [orb].
  induction (players w) as [|pplayer ps IH]; [reflexivity |].
  cbn [existsb]. rewrite IH by (intros q Hq; apply Hidx; right; exact Hq).
  f_equal. rewrite <- andb_assoc. f_equal.
  specialize (Hidx pplayer ltac:(left)).
  rewrite Z.quot_div_nonneg, Z.rem_mod_nonneg by lia.
  pose proof (Z.div_mod (p_index pplayer) 32 ltac:(lia)).
  pose proof (Z.mod_pos_bound (p_index pplayer) 32 ltac:(lia)).
  destruct (Z.eqb_spec (p_index pplayer `div` 32) l);
    destruct (Z.eqb_spec (p_index pplayer `mod` 32) (4 * j + i));
    destruct (Z.eqb_spec (p_index pplayer) (32 * l + 4 * j + i));
    cbn [andb]; first [reflexivity | lia].
Qed.

Lemma known_nibble_bits_witness :
  0 <= nibble (known_word sample_game 0 (sample_tile None [])) 0 <= 15 /\
  bin2ascii_hex (known_word sample_game 0 (sample_tile None [])) 0
  = string_index hex_chars
      (nibble (known_word sample_game 0 (sample_tile None [])) 0) /\
  forall i, 0 <= i < 4 ->
    Z.testbit (nibble (known_word sample_game 0 (sample_tile None [])) 0) i
    = existsb (fun pplayer =>
                 t_known (sample_tile None []) (p_index pplayer)
                 && (p_index pplayer =? 32 * 0 + 4 * 0 + i))
        (players sample_game).
Proof.
  apply (known_nibble_bits sample_game 0 0 (sample_tile None [])); try lia.
  intros pplayer Hin. apply list_elem_of_singleton in Hin. subst pplayer.
  simpl. lia.
Defined.

(** ** The lines of [SAVE_MAP_CHAR] and [LOAD_MAP_CHAR] *)

Lemma seqZ_split (n k : Z) :
  0 <= k < n -> seqZ 0 n = seqZ 0 k ++ k :: seqZ (k + 1) (n - k - 1).
Proof.
  intros Hk. transitivity (seqZ 0 (k + (n - k))); [f_equal; lia |].
  rewrite seqZ_app by lia. f_equal.
  rewrite seqZ_cons by lia. simpl. repeat (f_equal; try lia).
Qed.

Lemma save_map_line_run GET_XY_CHAR nat_y xs :
  (forall x, x ∈ xs -> map_char_ok (GET_XY_CHAR x nat_y) = true) ->
  forall line s,
    save_map_line GET_XY_CHAR nat_y xs line s =
    Next (line ++ ((fun x => GET_XY_CHAR x nat_y) <$> xs)) s.
Proof.
  induction xs as [|x xs IH]; intros Hok line s.
  - simpl. rewrite app_nil_r. reflexivity.
  - cbn [save_map_line]. cbv zeta.
    rewrite (Hok x) by (left). unfold sg_failure_ret.
    rewrite (bind_next (mret ()) _ s () s) by reflexivity.
    rewrite IH by (intros x' Hx'; apply Hok; right; exact Hx').
    rewrite fmap_cons, <- app_assoc. reflexivity.
Qed.

Lemma save_map_line_stops GET_XY_CHAR nat_y xs1 x0 xs2 :
  (forall x, x ∈ xs1 -> map_char_ok (GET_XY_CHAR x nat_y) = true) ->
  map_char_ok (GET_XY_CHAR x0 nat_y) = false ->
  forall line s,
    save_map_line GET_XY_CHAR nat_y (xs1 ++ x0 :: xs2) line s =
    Return
      (failed_with
         (Log_invalid_map_data x0 nat_y (GET_XY_CHAR x0 nat_y)) s).
Proof.
  induction xs1 as [|x xs1 IH]; intros Hok Hbad line s.
  - cbn [app save_map_line]. cbv zeta. rewrite Hbad. reflexivity.
  - cbn [app save_map_line]. cbv zeta.
    rewrite (Hok x) by (left). unfold sg_failure_ret.
    rewrite (bind_next (mret ()) _ s () s) by reflexivity.
    apply IH; [| exact Hbad]. intros x' Hx'. apply Hok. right. exact Hx'.
Qed.

Lemma map_rows_run w GET_XY_CHAR secpath ys :
  (forall x y, 0 <= x < xsize w -> y ∈ ys ->
               map_char_ok (GET_XY_CHAR x y) = true) ->
  forall s,
    for_each ys (fun nat_y =>
      line ← save_map_line GET_XY_CHAR nat_y (seqZ 0 (xsize w)) [];
      secfile_insert_str (chars line) (secpath nat_y)) s =
    Next () (add_entries (map_rows w GET_XY_CHAR secpath ys) s).
Proof.
  induction ys as [|y ys IH]; intros Hok s.
  - simpl. rewrite add_entries_nil. reflexivity.
  - cbn [for_each].
    erewrite bind_next; cycle 1.
    { erewrite bind_next; cycle 1.
      { apply save_map_line_run. intros x Hx. apply elem_of_seqZ in Hx.
        apply Hok; [lia | left]. }
      reflexivity. }
    rewrite IH by (intros x y' Hx Hy'; apply Hok; [exact Hx | right; exact Hy']).
    f_equal. unfold map_rows. rewrite fmap_cons.
    apply (add_entries_app [_] _ s).
Qed.

Lemma map_rows_stop w GET_XY_CHAR secpath ys1 y0 ys2 x0 :
  (forall x y, 0 <= x < xsize w -> y ∈ ys1 ->
               map_char_ok (GET_XY_CHAR x y) = true) ->
  0 <= x0 < xsize w ->
  (forall x, 0 <= x < x0 -> map_char_ok (GET_XY_CHAR x y0) = true) ->
  map_char_ok (GET_XY_CHAR x0 y0) = false ->
  forall s,
    for_each (ys1 ++ y0 :: ys2) (fun nat_y =>
      line ← save_map_line GET_XY_CHAR nat_y (seqZ 0 (xsize w)) [];
      secfile_insert_str (chars line) (secpath nat_y)) s =
    Return
      (failed_with (Log_invalid_map_data x0 y0 (GET_XY_CHAR x0 y0))
         (add_entries (map_rows w GET_XY_CHAR secpath ys1) s)).
Proof.
  intros Hok Hx0 Hrow Hbad.
  induction ys1 as [|y ys1 IH]; intros s.
  - cbn [app for_each]. unfold map_rows. cbn [fmap list_fmap].
    rewrite add_entries_nil.
    rewrite (seqZ_split (xsize w) x0) by exact Hx0.
    unfold mbind at 1, M_bind at 1. unfold mbind at 1, M_bind at 1.
    rewrite save_map_line_stops; [reflexivity | | exact Hbad].
    intros x Hx. apply elem_of_seqZ in Hx. apply Hrow. lia.
  - cbn [app for_each].
    erewrite bind_next; cycle 1.
    { erewrite bind_next; cycle 1.
      { apply save_map_line_run. intros x Hx. apply elem_of_seqZ in Hx.
        apply Hok; [lia | left]. }
      reflexivity. }
    rewrite IH by (intros x y' Hx Hy'; apply Hok; [exact Hx | right; exact Hy']).
    f_equal. unfold failed_with. do 2 f_equal.
    unfold map_rows. rewrite fmap_cons.
    apply (add_entries_app [_] _ s).
Qed.

Lemma map_line_length w GET_XY_CHAR y :
  0 <= xsize w ->
  Z.of_nat (String.length (map_line w GET_XY_CHAR y)) = xsize w.
Proof.
  intros HW. unfold map_line.
  rewrite chars_length, length_fmap, length_seqZ. lia.
Qed.

Lemma map_line_get w GET_XY_CHAR x y :
  0 <= x < xsize w ->
  char_at (map_line w GET_XY_CHAR y) x = Some (GET_XY_CHAR x y).
Proof.
  intros Hx. unfold char_at, map_line.
  destruct (Z.ltb_spec x 0); [lia |].
  rewrite chars_get, list_lookup_fmap.
  rewrite (lookup_seqZ_lt 0 (xsize w) (Z.to_nat x)) by lia.
  simpl. do 2 f_equal. lia.
Qed.

(** X11: what [SAVE_MAP_CHAR] writes. When every character of the map can
    be written, the macro goes through and adds one entry per row, in the
    order of the rows and after what the file held; the line of row [y] is
    as wide as the map and its character [x] is [GET_XY_CHAR] at
    [(x, y)]. *)
Theorem SAVE_MAP_CHAR_lines w GET_XY_CHAR secpath s :
  0 <= xsize w -> 0 <= ysize w ->
  (forall x y, 0 <= x < xsize w -> 0 <= y < ysize w ->
               map_char_ok (GET_XY_CHAR x y) = true) ->
  SAVE_MAP_CHAR w GET_XY_CHAR secpath s
  = Next ()
      (add_entries
         (map_rows w GET_XY_CHAR secpath (seqZ 0 (ysize w))) s) /\
  Z.of_nat (length (map_rows w GET_XY_CHAR secpath (seqZ 0 (ysize w))))
  = ysize w /\
  forall y, 0 <= y < ysize w ->
    map_rows w GET_XY_CHAR secpath (seqZ 0 (ysize w)) !! Z.to_nat y
    = Some (secpath y, VStr (map_line w GET_XY_CHAR y)) /\
    Z.of_nat (String.length (map_line w GET_XY_CHAR y)) = xsize w /\
    forall x, 0 <= x < xsize w ->
      char_at (map_line w GET_XY_CHAR y) x = Some (GET_XY_CHAR x y).
Proof.
  intros HW HH Hok. split; [| split].
  - unfold SAVE_MAP_CHAR. apply map_rows_run.
    intros x y Hx Hy. apply elem_of_seqZ in Hy. apply Hok; lia.
  - unfold map_rows. rewrite length_fmap, length_seqZ. lia.
  - intros y Hy. split; [| split].
    + unfold map_rows. rewrite list_lookup_fmap.
      rewrite (lookup_seqZ_lt 0 (ysize w) (Z.to_nat y)) by lia.
      simpl. replace (0 + Z.of_nat (Z.to_nat y)) with y by lia. reflexivity.
    + apply map_line_length. exact HW.
    + intros x Hx. apply map_line_get. exact Hx.
Qed.

Lemma SAVE_MAP_CHAR_lines_witness :
  SAVE_MAP_CHAR (sample_world " " true) (fun _ _ => "a"%char)
    (fun y => "map.t" +:+ fmt_d y) (sample_state true)
  = Next ()
      (add_entries [("map.t" +:+ fmt_d 0, VStr "aa")] (sample_state true)).
Proof.
  apply (SAVE_MAP_CHAR_lines (sample_world " " true) (fun _ _ => "a"%char)
           (fun y => "map.t" +:+ fmt_d y) (sample_state true));
    [simpl; lia | simpl; lia | reflexivity].
Defined.

(** X12: the first character that cannot be written stops [SAVE_MAP_CHAR].
    If [(x0, y0)] is the first tile, row by row, whose character is not
    printable, the macro leaves the calling function with the save marked
    failed and that tile logged; the rows before [y0] are in the file, row
    [y0] and the rows after it are not. *)
Theorem SAVE_MAP_CHAR_first_invalid w GET_XY_CHAR secpath s x0 y0 :
  0 <= x0 < xsize w -> 0 <= y0 < ysize w ->
  map_char_ok (GET_XY_CHAR x0 y0) = false ->
  (forall x y, 0 <= x < xsize w -> 0 <= y < y0 ->
               map_char_ok (GET_XY_CHAR x y) = true) ->
  (forall x, 0 <= x < x0 -> map_char_ok (GET_XY_CHAR x y0) = true) ->
  SAVE_MAP_CHAR w GET_XY_CHAR secpath s
  = Return
      (failed_with (Log_invalid_map_data x0 y0 (GET_XY_CHAR x0 y0))
         (add_entries (map_rows w GET_XY_CHAR secpath (seqZ 0 y0)) s)).
Proof.
  intros Hx0 Hy0 Hbad Hrows Hrow. unfold SAVE_MAP_CHAR.
  rewrite (seqZ_split (ysize w) y0) by exact Hy0.
  apply map_rows_stop; try assumption.
  intros x y Hx Hy. apply elem_of_seqZ in Hy. apply Hrows; lia.
Qed.

Lemma SAVE_MAP_CHAR_first_invalid_witness :
  SAVE_MAP_CHAR (sample_world " " true)
    (fun x _ => if x =? 1 then "000"%char else "a"%char)
    (fun y => "map.t" +:+ fmt_d y) (sample_state true)
  = Return
      (failed_with (Log_invalid_map_data 1 0 "000"%char)
         (add_entries [] (sample_state true))).
Proof.
  apply (SAVE_MAP_CHAR_first_invalid (sample_world " " true)
           (fun x _ => if x =? 1 then "000"%char else "a"%char)
           (fun y => "map.t" +:+ fmt_d y) (sample_state true) 1 0).
  - simpl. lia.
  - simpl. lia.
  - reflexivity.
  - intros x y Hx Hy. lia.
  - intros x Hx. assert (x = 0) as -> by lia. reflexivity.
Defined.

Lemma foldl_ext_in {A B} (f g : A -> B -> A) (l : list B) :
  (forall a b, b ∈ l -> f a b = g a b) ->
  forall a, foldl f a l = foldl g a l.
Proof.
  induction l as [|b l IH]; intros Hfg a; [reflexivity |].
  cbn [foldl]. rewrite Hfg by (left). apply IH.
  intros a' b' Hb'. apply Hfg. right. exact Hb'.
Qed.

Lemma map_rows_lookup w GET_XY_CHAR secpath (ys : list Z) (y : Z) :
  (forall y', y' ∈ ys -> secpath y' = secpath y -> y' = y) ->
  y ∈ ys ->
  secfile_lookup (map_rows w GET_XY_CHAR secpath ys) (secpath y)
  = Some (VStr (map_line w GET_XY_CHAR y)).
Proof.
  induction ys as [|y' ys IH]; intros Hinj Hy.
  - apply elem_of_nil in Hy. destruct Hy.
  - unfold map_rows. rewrite fmap_cons. cbn [secfile_lookup].
    destruct (String.eqb_spec (secpath y') (secpath y)) as [Heq | Hne].
    + rewrite (Hinj y' ltac:(left) Heq). reflexivity.
    + apply IH.
      * intros y'' Hy'' Heq. apply Hinj; [right; exact Hy'' | exact Heq].
      * apply elem_of_cons in Hy as [-> | Hy]; [congruence | exact Hy].
Qed.

Section LoadComplete.

Context {St : Type} (SET_XY_CHAR : ascii -> Z -> Z -> St -> St).
Variables (w : world) (secfile : section_file) (secpath : Z -> string).

Lemma load_map_step_complete acc y line :
  secfile_lookup_str secfile (secpath y) = Some line ->
  Z.of_nat (String.length line) = xsize w ->
  load_map_step SET_XY_CHAR w secfile secpath acc y
  = (load_map_row SET_XY_CHAR line y (seqZ 0 (xsize w)) acc.1.1,
     acc.1.2, acc.2).
Proof.
  intros Hl Hlen. destruct acc as [[st lg] pw]. unfold load_map_step.
  rewrite Hl. apply Z.eqb_eq in Hlen. rewrite Hlen. reflexivity.
Qed.

Lemma load_map_step_defective acc y :
  ~ row_complete w secfile secpath y ->
  (load_map_step SET_XY_CHAR w secfile secpath acc y).1.1 = acc.1.1 /\
  (load_map_step SET_XY_CHAR w secfile secpath acc y).2 = true /\
  exists e, (load_map_step SET_XY_CHAR w secfile secpath acc y).1.2
            = acc.1.2 ++ [e] /\
            e = match secfile_lookup_str secfile (secpath y) with
                | None => Log_line_not_found (fc_snprintf 64 (secpath y))
                | Some line =>
                    Log_line_too_short (xsize w)
                      (Z.of_nat (String.length line))
                      (fc_snprintf 64 (secpath y))
                end.
Proof.
  intros Hbad. destruct acc as [[st lg] pw]. unfold load_map_step.
  destruct (secfile_lookup_str secfile (secpath y)) as [line|] eqn:Hl.
  - destruct (Z.eqb_spec (Z.of_nat (String.length line)) (xsize w)) as [Heq|Hne].
    + exfalso. apply Hbad. exists line. split; [exact Hl | exact Heq].
    + cbn [negb fst snd]. repeat split. eexists. split; reflexivity.
  - cbn [fst snd]. repeat split. eexists. split; reflexivity.
Qed.

Lemma load_rows_complete (char_of : Z -> Z -> ascii) (ys : list Z) :
  (forall y, y ∈ ys ->
     exists line, secfile_lookup_str secfile (secpath y) = Some line /\
                  Z.of_nat (String.length line) = xsize w /\
                  forall x, 0 <= x < xsize w ->
                            string_index line x = char_of x y) ->
  forall acc,
    foldl (load_map_step SET_XY_CHAR w secfile secpath) acc ys
    = (foldl (fun st y =>
                foldl (fun st x => SET_XY_CHAR (char_of x y) x y st) st
                  (seqZ 0 (xsize w))) acc.1.1 ys,
       acc.1.2, acc.2).
Proof.
  induction ys as [|y ys IH]; intros Hrows acc.
  - destruct acc as [[st lg] pw]. reflexivity.
  - cbn [foldl].
    destruct (Hrows y ltac:(left)) as (line & Hl & Hlen & Hchars).
    rewrite (load_map_step_complete acc y line Hl Hlen).
    rewrite IH by (intros y' Hy'; apply Hrows; right; exact Hy').
    cbn [fst snd]. f_equal. f_equal. f_equal.
    unfold load_map_row. apply foldl_ext_in.
    intros st x Hx. apply elem_of_seqZ in Hx. rewrite Hchars by lia.
    reflexivity.
Qed.

Lemma load_rows_flag (ys : list Z) :
  forall acc,
    (foldl (load_map_step SET_XY_CHAR w secfile secpath) acc ys).2 = false ->
    acc.2 = false /\
    (forall y, y ∈ ys -> row_complete w secfile secpath y) /\
    (foldl (load_map_step SET_XY_CHAR w secfile secpath) acc ys).1.2 = acc.1.2.
Proof.
  induction ys as [|y ys IH]; intros acc Hend.
  - split; [exact Hend |]. split; [| reflexivity].
    intros y Hy. apply elem_of_nil in Hy. destruct Hy.
  - cbn [foldl] in Hend |- *.
    destruct (IH _ Hend) as (Hflag & Hrows & Hlog).
    assert (Hy : row_complete w secfile secpath y).
    { destruct acc as [[st lg] pw]. unfold load_map_step in Hflag.
      destruct (secfile_lookup_str secfile (secpath y)) as [line|] eqn:Hl;
        [| discriminate Hflag].
      destruct (Z.eqb_spec (Z.of_nat (String.length line)) (xsize w));
        [| discriminate Hflag].
      exists line. split; [exact Hl | assumption]. }
    destruct Hy as (line & Hl & Hlen).
    rewrite (load_map_step_complete acc y line Hl Hlen) in Hflag, Hlog |- *.
    split; [exact Hflag |]. split; [| exact Hlog].
    intros y' Hy'. apply elem_of_cons in Hy' as [-> | Hy'].
    + exists line. split; assumption.
    + apply Hrows. exact Hy'.
Qed.

End LoadComplete.

(** X13: what [SAVE_MAP_CHAR] writes, [LOAD_MAP_CHAR] reads back. On a map
    whose characters can all be written, with row paths that differ from
    row to row and are not yet in the file, loading the saved file calls
    [SET_XY_CHAR] on every tile, row by row, with the character that was
    saved for it, and logs nothing. *)
Theorem map_lines_round_trip {St}
        (SET_XY_CHAR : ascii -> Z -> Z -> St -> St)
        (w : world) (GET_XY_CHAR : Z -> Z -> ascii) (secpath : Z -> string)
        (s : sg_state) (st : St) :
  0 <= xsize w ->
  (forall x y, 0 <= x < xsize w -> 0 <= y < ysize w ->
               map_char_ok (GET_XY_CHAR x y) = true) ->
  (forall y1 y2, 0 <= y1 < ysize w -> 0 <= y2 < ysize w ->
                 secpath y1 = secpath y2 -> y1 = y2) ->
  (forall y, 0 <= y < ysize w ->
             secfile_lookup (sg_file s) (secpath y) = None) ->
  LOAD_MAP_CHAR SET_XY_CHAR w
    (sg_file (outcome_state (SAVE_MAP_CHAR w GET_XY_CHAR secpath s)))
    secpath st
  = (decode_rows SET_XY_CHAR w GET_XY_CHAR st, []).
Proof.
  intros HW Hok Hinj Hfresh.
  assert (Hsave :
    SAVE_MAP_CHAR w GET_XY_CHAR secpath s
    = Next ()
        (add_entries (map_rows w GET_XY_CHAR secpath (seqZ 0 (ysize w))) s)).
  { unfold SAVE_MAP_CHAR. apply map_rows_run.
    intros x y Hx Hy. apply elem_of_seqZ in Hy. apply Hok; lia. }
  rewrite Hsave. cbn [outcome_state]. rewrite sg_file_add_entries.
  rewrite LOAD_MAP_CHAR_unfold. cbv zeta.
  rewrite (load_rows_complete SET_XY_CHAR w _ secpath GET_XY_CHAR).
  - reflexivity.
  - intros y Hy. apply elem_of_seqZ in Hy.
    exists (map_line w GET_XY_CHAR y). split; [| split].
    + unfold secfile_lookup_str. rewrite secfile_lookup_app.
      rewrite Hfresh by lia.
      rewrite map_rows_lookup; [reflexivity | | apply elem_of_seqZ; lia].
      intros y' Hy' Heq. apply elem_of_seqZ in Hy'. apply Hinj; [lia | lia | exact Heq].
    + apply map_line_length. exact HW.
    + intros x Hx. unfold string_index. rewrite map_line_get by exact Hx.
      reflexivity.
Qed.

Lemma map_lines_round_trip_witness :
  LOAD_MAP_CHAR (fun ch x y st => st ++ [(x, y, ch)])
    (sample_world " " true)
    (sg_file
       (outcome_state
          (SAVE_MAP_CHAR (sample_world " " true)
             (fun x _ => if x =? 1 then "b"%char else "a"%char)
             (fun y => "map.t" +:+ fmt_d y) (sample_state true))))
    (fun y => "map.t" +:+ fmt_d y) []
  = ([(0, 0, "a"%char); (1, 0, "b"%char)], []).
Proof.
  apply (map_lines_round_trip (fun ch x y st => st ++ [(x, y, ch)])
           (sample_world " " true)
           (fun x _ => if x =? 1 then "b"%char else "a"%char)
           (fun y => "map.t" +:+ fmt_d y) (sample_state true) []).
  - simpl. lia.
  - intros x y Hx Hy. destruct (x =? 1); reflexivity.
  - intros y1 y2 Hy1 Hy2 _. simpl in Hy1, Hy2. lia.
  - intros y Hy. reflexivity.
Defined.

(** X14: when [LOAD_MAP_CHAR] warns. It logs nothing exactly when every row
    has a line of the width of the map. A row whose line is missing is
    logged as not found, the log ends with the warning that the map is
    incomplete, and nothing that depends on that row alone is changed. *)
Theorem LOAD_MAP_CHAR_warns {St}
        (SET_XY_CHAR : ascii -> Z -> Z -> St -> St)
        (w : world) (secfile : section_file) (secpath : Z -> string)
        (st : St) :
  ((LOAD_MAP_CHAR SET_XY_CHAR w secfile secpath st).2 = [] <->
   forall y, 0 <= y < ysize w -> row_complete w secfile secpath y) /\
  (forall y0, 0 <= y0 < ysize w ->
     secfile_lookup_str secfile (secpath y0) = None ->
     In (Log_line_not_found (fc_snprintf 64 (secpath y0)))
        (LOAD_MAP_CHAR SET_XY_CHAR w secfile secpath st).2 /\
     last (LOAD_MAP_CHAR SET_XY_CHAR w secfile secpath st).2
     = Some Log_incomplete_map /\
     forall (B : Type) (obs : St -> B),
       (forall ch x y st', y <> y0 ->
                           obs (SET_XY_CHAR ch x y st') = obs st') ->
       obs (LOAD_MAP_CHAR SET_XY_CHAR w secfile secpath st).1 = obs st).
Proof.
  rewrite LOAD_MAP_CHAR_unfold. cbv zeta. split.
  - split.
    + intros Hlog.
      destruct (foldl _ _ _) as [[st' lg] pw] eqn:Hrun. cbn [fst snd] in Hlog.
      destruct pw; [destruct lg; discriminate Hlog |].
      pose proof (load_rows_flag SET_XY_CHAR w secfile secpath
                    (seqZ 0 (ysize w)) (st, [], false)) as Hflag.
      rewrite Hrun in Hflag. destruct (Hflag eq_refl) as (_ & Hrows & _).
      intros y Hy. apply Hrows. apply elem_of_seqZ. lia.
    + intros Hrows.
      assert (Hfun : forall y, 0 <= y < ysize w ->
                exists line,
                  secfile_lookup_str secfile (secpath y) = Some line /\
                  Z.of_nat (String.length line) = xsize w /\
                  forall x, 0 <= x < xsize w ->
                    string_index line x
                    = string_index
                        (default "" (secfile_lookup_str secfile (secpath y)))
                        x).
      { intros y Hy. destruct (Hrows y Hy) as (line & Hl & Hlen).
        exists line. split; [exact Hl |]. split; [exact Hlen |].
        intros x _. rewrite Hl. reflexivity. }
      rewrite (load_rows_complete SET_XY_CHAR w secfile secpath
                 (fun x y =>
                    string_index
                      (default "" (secfile_lookup_str secfile (secpath y))) x)).
      * reflexivity.
      * intros y Hy. apply elem_of_seqZ in Hy. apply Hfun. lia.
  - intros y0 Hy0 Hmiss.
    assert (Hbad : ~ row_complete w secfile secpath y0).
    { intros (line & Hl & _). congruence. }
    set (run := foldl (load_map_step SET_XY_CHAR w secfile secpath)
                  (st, [], false) (seqZ 0 (ysize w))).
    assert (Hrun : run.2 = true /\
                   In (Log_line_not_found (fc_snprintf 64 (secpath y0)))
                      run.1.2).
    { unfold run. rewrite (seqZ_split (ysize w) y0) by exact Hy0.
      rewrite foldl_app. cbn [foldl].
      set (acc1 := foldl (load_map_step SET_XY_CHAR w secfile secpath)
                     (st, [], false) (seqZ 0 y0)).
      destruct (load_map_step_defective SET_XY_CHAR w secfile secpath acc1 y0
                  Hbad) as (_ & Hpw & e & Hlog & He).
      rewrite Hmiss in He. subst e.
      destruct (load_rows_log SET_XY_CHAR w secfile secpath
                  (seqZ (y0 + 1) (ysize w - y0 - 1))
                  (load_map_step SET_XY_CHAR w secfile secpath acc1 y0))
        as [Hkeep Hflag].
      split; [exact (Hflag Hpw) |].
      apply Hkeep. rewrite Hlog. apply in_or_app. right. left. reflexivity. }
    destruct Hrun as [Hpw Hin]. rewrite Hpw. split; [| split].
    + apply in_or_app. left. exact Hin.
    + apply last_snoc.
    + intros B obs Hobs. cbn [fst]. unfold run.
      rewrite (load_rows_observed SET_XY_CHAR w secfile secpath obs y0).
      * reflexivity.
      * intros y _ _ line Hl. congruence.
      * exact Hobs.
Qed.

Lemma LOAD_MAP_CHAR_warns_witness :
  In (Log_line_not_found (fc_snprintf 64 ("map.t" +:+ fmt_d 0)))
     (LOAD_MAP_CHAR (fun ch x y st => st ++ [(x, y, ch)])
        (sample_world " " true) [] (fun y => "map.t" +:+ fmt_d y) []).2 /\
  last (LOAD_MAP_CHAR (fun ch x y st => st ++ [(x, y, ch)])
          (sample_world " " true) [] (fun y => "map.t" +:+ fmt_d y) []).2
  = Some Log_incomplete_map.
Proof.
  destruct (LOAD_MAP_CHAR_warns (fun ch x y st => st ++ [(x, y, ch)])
              (sample_world " " true) [] (fun y => "map.t" +:+ fmt_d y) [])
    as [_ Hmiss].
  destruct (Hmiss 0 ltac:(simpl; lia) eq_refl) as (Hin & Hlast & _).
  split; [exact Hin | exact Hlast].
Defined.

(** ** The frame of [unit_ordering_calc] *)

Lemma map_writes_keys (w : world) : (map_writes w).*1 = all_tile_units w.
Proof.
  unfold map_writes, all_tile_units.
  rewrite (list_fmap_compose (fun index => t_units (index_to_tile w index))
             (fun l => numbering l 0)).
  apply concat_numbering_keys.
Qed.

(** X15: what [unit_ordering_calc] leaves alone. It neither adds nor
    removes a unit and changes no unit's data; the [ord_map] of a unit that
    stands on no tile and the [ord_city] of a unit that is in no player's
    unit list and supported by no city are what they were. *)
Theorem unit_ordering_calc_frame (w : world) (us : gmap Z unit) (punit : Z) :
  (is_Some (unit_ordering_calc w us !! punit) <-> is_Some (us !! punit)) /\
  u_data <$> unit_ordering_calc w us !! punit = u_data <$> us !! punit /\
  (punit ∉ all_tile_units w ->
   ord_map <$> unit_ordering_calc w us !! punit = ord_map <$> us !! punit) /\
  (punit ∉ all_units w -> punit ∉ all_supported w ->
   ord_city <$> unit_ordering_calc w us !! punit = ord_city <$> us !! punit).
Proof.
  rewrite unit_ordering_calc_lookup.
  split; [| split; [| split]].
  - rewrite fmap_is_Some. reflexivity.
  - destruct (us !! punit) as [u|]; reflexivity.
  - intros Hnot.
    rewrite (last_write_none punit (map_writes w))
      by (rewrite map_writes_keys; exact Hnot).
    destruct (us !! punit) as [u|]; reflexivity.
  - intros Hunits Hsup.
    rewrite (last_write_none punit (city_writes w)).
    + destruct (us !! punit) as [u|]; reflexivity.
    + intros Hin. apply city_writes_keys in Hin as [Hin | Hin];
        [apply Hunits | apply Hsup]; exact Hin.
Qed.

Lemma unit_ordering_calc_frame_witness :
  ord_map <$> unit_ordering_calc (sample_world " " true) sample_units !! 2
  = ord_map <$> sample_units !! 2 /\
  ord_city <$> unit_ordering_calc (sample_world " " true) sample_units !! 2
  = ord_city <$> sample_units !! 2.
Proof.
  destruct (unit_ordering_calc_frame (sample_world " " true) sample_units 2)
    as (_ & _ & Hmap & Hcity).
  split.
  - apply Hmap. apply (bool_decide_unpack _). vm_compute. exact I.
  - apply Hcity; apply (bool_decide_unpack _); vm_compute; exact I.
Defined.

(** ** Relations kept by a whole save *)

Section PlayersStage.

Context (R : relation sg_state) `{!PreOrder R}.
Variable w : world.
Hypothesis R_append :
  forall es s,
    R s (set_saving (set_file (file (saving s) ++ es) (saving s)) s).
Hypothesis R_units : forall us s, R s (set_units us s).
Hypothesis R_main : forall plr s, R s (sg_save_player_main w plr s).
Hypothesis R_cities : forall plr s, R s (sg_save_player_cities w plr s).
Hypothesis R_units_stage : forall plr s, R s (sg_save_player_units w plr s).
Hypothesis R_attributes :
  forall plr s, R s (sg_save_player_attributes w plr s).

Lemma sg_save_players_body_respects :
  respects R
    (sg_check_ret ;;
     s ← get_state;
     (if (scenario (saving s) && negb (save_players (saving s)))
         || negb (game_was_started w)
      then return_
      else mret ()) ;;
     secfile_insert_int (Z.of_nat (length (players w))) "players.nplayers" ;;
     secfile_insert_str
       (bit_string (improvement_count w)
          (fun index =>
             is_great_wonder w index && great_wonder_is_destroyed w index))
       "players.destroyed_wonders" ;;
     secfile_insert_int (identity_number w) "players.identity_number_used" ;;
     for_each (indexed (shuffled_players w)) (fun ip =>
       secfile_insert_int ip.2 ("players.shuffled_player_" +:+ fmt_d ip.1)) ;;
     modify (fun s => set_units (unit_ordering_calc w (sg_units s)) s) ;;
     for_each (players w) (fun pplayer =>
       call (sg_save_player_main w pplayer) ;;
       call (sg_save_player_cities w pplayer) ;;
       call (sg_save_player_units w pplayer) ;;
       call (sg_save_player_attributes w pplayer))).
Proof.
  assert (Hinsert : forall v path,
            respects R (modify_file (secfile_insert v path))).
  { intros v path. apply (respects_modify R). intros s. apply R_append. }
  apply (respects_bind R); [apply (respects_sg_check_ret R) |].
  intros _. apply (respects_bind R); [apply (respects_get_state R) |].
  intros s'. apply (respects_bind R).
  { destruct (_ || _); [apply (respects_return R) | apply (respects_ret R)]. }
  intros _. apply (respects_bind R); [apply Hinsert |].
  intros _. apply (respects_bind R); [apply Hinsert |].
  intros _. apply (respects_bind R); [apply Hinsert |].
  intros _. apply (respects_bind R).
  { apply (respects_for_each R). intros ip. apply Hinsert. }
  intros _. apply (respects_bind R).
  { apply (respects_modify R). intros s1. apply R_units. }
  intros _. apply (respects_for_each R). intros pplayer.
  apply (respects_bind R); [apply (respects_call R), R_main |].
  intros _. apply (respects_bind R); [apply (respects_call R), R_cities |].
  intros _. apply (respects_bind R); [apply (respects_call R), R_units_stage |].
  intros _. apply (respects_call R), R_attributes.
Qed.

Lemma sg_save_players_respects (s : sg_state) : R s (sg_save_players w s).
Proof. exact (respects_fn R _ sg_save_players_body_respects s). Qed.

End PlayersStage.

Lemma run_stages_respects (R : relation sg_state) `{!PreOrder R}
      (stages : list (sg_state -> sg_state)) :
  Forall (fun stage => forall s, R s (stage s)) stages ->
  forall s, R s (run_stages stages s).
Proof.
  unfold run_stages. induction stages as [|stage stages IH]; intros Hall s.
  - reflexivity.
  - cbn [foldl]. inversion Hall as [|? ? Hstage Hrest]; subst.
    etransitivity; [apply Hstage |]. apply IH. exact Hrest.
Qed.

(** ** A save that succeeds *)

Lemma resource2char_printable (none : ascii) (presource : option string) :
  map_char_ok none = true -> map_char_ok (resource2char none presource) = true.
Proof.
  intros Hnone. destruct presource as [name|]; [| exact Hnone].
  unfold resource2char.
  repeat (destruct (String.eqb name _); [reflexivity |]). reflexivity.
Qed.

Lemma halfbyte_char_printable stop isset index :
  map_char_ok (string_index hex_chars (halfbyte_loop stop isset index 4 0 0))
  = true.
Proof. apply hex_index_ok, halfbyte_bin_range. Qed.

Lemma bin2ascii_hex_printable value j :
  map_char_ok (bin2ascii_hex value j) = true.
Proof. apply (hex_index_ok (nibble value j)), nibble_range. Qed.

Lemma same_control_add es s : same_control s (add_entries es s).
Proof. repeat split. Qed.

Lemma SAVE_MAP_CHAR_same_control w GET_XY_CHAR secpath :
  (forall x y, map_char_ok (GET_XY_CHAR x y) = true) ->
  respects same_control (SAVE_MAP_CHAR w GET_XY_CHAR secpath).
Proof.
  intros Hok s. rewrite SAVE_MAP_CHAR_ok by exact Hok.
  apply same_control_add.
Qed.

Lemma sg_save_map_tiles_same_control w s :
  same_control s (sg_save_map_tiles w s).
Proof.
  unfold sg_save_map_tiles. apply (respects_fn same_control). respects_tac.
  apply SAVE_MAP_CHAR_same_control. intros ? ?. apply terrain2char_printable.
Qed.
Lemma sg_save_map_startpos_same_control w s :
  same_control s (sg_save_map_startpos w s).
Proof. stage_respects same_control. Qed.
Lemma sg_save_map_tiles_bases_same_control w s :
  same_control s (sg_save_map_tiles_bases w s).
Proof.
  unfold sg_save_map_tiles_bases. apply (respects_fn same_control).
  respects_tac. apply SAVE_MAP_CHAR_same_control. intros ? ?.
  apply halfbyte_char_printable.
Qed.
Lemma sg_save_map_tiles_roads_same_control w s :
  same_control s (sg_save_map_tiles_roads w s).
Proof.
  unfold sg_save_map_tiles_roads. apply (respects_fn same_control).
  respects_tac. apply SAVE_MAP_CHAR_same_control. intros ? ?.
  apply halfbyte_char_printable.
Qed.
Lemma sg_save_map_tiles_specials_same_control w b s :
  same_control s (sg_save_map_tiles_specials w b s).
Proof.
  unfold sg_save_map_tiles_specials. apply (respects_fn same_control).
  respects_tac. apply SAVE_MAP_CHAR_same_control. intros ? ?.
  apply halfbyte_char_printable.
Qed.
Lemma sg_save_map_tiles_resources_same_control w s :
  map_char_ok (RESOURCE_NONE_IDENTIFIER (cst w)) = true ->
  same_control s (sg_save_map_tiles_resources w s).
Proof.
  intros Hnone.
  unfold sg_save_map_tiles_resources. apply (respects_fn same_control).
  respects_tac. apply SAVE_MAP_CHAR_same_control. intros ? ?.
  apply resource2char_printable, Hnone.
Qed.
Lemma sg_save_map_owner_same_control w s :
  same_control s (sg_save_map_owner w s).
Proof. stage_respects same_control. Qed.
Lemma sg_save_map_worked_same_control w s :
  same_control s (sg_save_map_worked w s).
Proof. stage_respects same_control. Qed.
Lemma sg_save_map_known_same_control w s :
  same_control s (sg_save_map_known w s).
Proof.
  unfold sg_save_map_known. apply (respects_fn same_control).
  respects_tac. apply SAVE_MAP_CHAR_same_control. intros ? ?.
  apply bin2ascii_hex_printable.
Qed.
Lemma sg_save_mapimg_same_control w s : same_control s (sg_save_mapimg w s).
Proof. stage_respects same_control. Qed.
Lemma sg_save_sanitycheck_same_control w s :
  same_control s (sg_save_sanitycheck w s).
Proof.
  unfold sg_save_sanitycheck. apply (respects_fn same_control).
  apply (respects_sg_check_ret same_control).
Qed.

Lemma sg_save_map_same_control w s :
  map_char_ok (RESOURCE_NONE_IDENTIFIER (cst w)) = true ->
  same_control s (sg_save_map w s).
Proof.
  intros Hnone. unfold sg_save_map. apply (respects_fn same_control).
  respects_tac.
  - exact (sg_save_map_tiles_same_control w).
  - exact (sg_save_map_startpos_same_control w).
  - exact (sg_save_map_tiles_bases_same_control w).
  - exact (sg_save_map_tiles_roads_same_control w).
  - exact (sg_save_savefile_options_same_control (Some " specials")).
  - exact (sg_save_map_tiles_specials_same_control w false).
  - exact (fun s1 => sg_save_map_tiles_resources_same_control w s1 Hnone).
  - exact (sg_save_map_owner_same_control w).
  - exact (sg_save_map_worked_same_control w).
  - exact (sg_save_map_known_same_control w).
Qed.

Lemma worklist_save_same_control w pwl max_length path s :
  same_control s (worklist_save w pwl max_length path s).
Proof. stage_respects same_control. Qed.

Lemma sg_save_player_main_same_control w plr s :
  same_control s (sg_save_player_main w plr s).
Proof. stage_respects same_control. Qed.

Lemma sg_save_player_city_same_control w plr max_length i pcity :
  improvement_count w <= MAX_NUM_ITEMS (cst w) ->
  0 <= MAX_NUM_ITEMS (cst w) ->
  respects same_control (sg_save_player_city w plr max_length i pcity).
Proof.
  intros Himpr Hitems. unfold sg_save_player_city. respects_tac.
  - rewrite bit_string_length.
    replace (Z.of_nat (Z.to_nat (improvement_count w))
             <? MAX_NUM_ITEMS (cst w) + 1) with true
      by (symmetry; apply Z.ltb_lt; lia).
    apply (respects_ret same_control).
  - exact (worklist_save_same_control w (c_worklist pcity) max_length _).
Qed.

Lemma sg_save_player_cities_same_control w plr s :
  improvement_count w <= MAX_NUM_ITEMS (cst w) ->
  0 <= MAX_NUM_ITEMS (cst w) ->
  same_control s (sg_save_player_cities w plr s).
Proof.
  intros Himpr Hitems.
  unfold sg_save_player_cities. cbv zeta. apply (respects_fn same_control).
  respects_tac. apply sg_save_player_city_same_control; assumption.
Qed.

Lemma sg_save_player_units_same_control w plr s :
  same_control s (sg_save_player_units w plr s).
Proof.
  unfold sg_save_player_units. apply (respects_fn same_control).
  respects_tac. unfold sg_save_player_unit. respects_tac.
Qed.

Lemma attribute_parts_same_control pl quoted nrs :
  forall quoted_at bytes_left,
    respects same_control (attribute_parts pl quoted nrs quoted_at bytes_left).
Proof.
  induction nrs as [|nr nrs IH]; intros quoted_at bytes_left;
    cbn [attribute_parts].
  - respects_tac.
  - cbv zeta. apply (respects_bind same_control); [respects_tac |].
    intros _. apply IH.
Qed.

Lemma sg_save_player_attributes_same_control w plr s :
  same_control s (sg_save_player_attributes w plr s).
Proof.
  unfold sg_save_player_attributes. cbv zeta. apply (respects_fn same_control).
  respects_tac; apply attribute_parts_same_control.
Qed.

Lemma sg_save_players_same_control w s :
  improvement_count w <= MAX_NUM_ITEMS (cst w) ->
  0 <= MAX_NUM_ITEMS (cst w) ->
  same_control s (sg_save_players w s).
Proof.
  intros Himpr Hitems. apply (sg_save_players_respects same_control).
  - intros es s1. repeat split.
  - intros us s1. repeat split.
  - apply sg_save_player_main_same_control.
  - intros plr s1. apply sg_save_player_cities_same_control; assumption.
  - apply sg_save_player_units_same_control.
  - apply sg_save_player_attributes_same_control.
Qed.

(** X17: when a save cannot fail. If the character of "no resource" is
    printable and the improvement vector fits its buffer
    ([improvement_count <= MAX_NUM_ITEMS]), [savegame2_save_real] ends with
    [sg_success] set, every stage has run, no failure is logged at the end,
    and the save still has the scenario flag and the reason it was given. *)
Theorem save_succeeds (w : world) (file0 : section_file) (reason : string)
        (scen : bool) (s0 : sg_state) :
  map_char_ok (RESOURCE_NONE_IDENTIFIER (cst w)) = true ->
  improvement_count w <= MAX_NUM_ITEMS (cst w) ->
  0 <= MAX_NUM_ITEMS (cst w) ->
  sg_success (savegame2_save_real w file0 reason scen s0) = true /\
  savegame2_save_real w file0 reason scen s0
  = run_stages (top_stages w) (save_init file0 reason scen s0) /\
  scenario (saving (savegame2_save_real w file0 reason scen s0)) = scen /\
  save_reason (saving (savegame2_save_real w file0 reason scen s0)) = reason.
Proof.
  intros Hnone Himpr Hitems.
  assert (Hrun : same_control (save_init file0 reason scen s0)
                   (run_stages (top_stages w)
                      (save_init file0 reason scen s0))).
  { apply (run_stages_respects same_control). unfold top_stages.
    constructor; [exact (sg_save_scenario_same_control w) |].
    constructor; [exact (sg_save_savefile_same_control w) |].
    constructor; [exact (sg_save_game_same_control w) |].
    constructor; [exact (sg_save_random_same_control w) |].
    constructor; [exact (sg_save_script_same_control w) |].
    constructor; [exact (sg_save_settings_same_control w) |].
    constructor;
      [exact (fun s => sg_save_map_same_control w s Hnone) |].
    constructor;
      [exact (fun s => sg_save_players_same_control w s Himpr Hitems) |].
    constructor; [exact (sg_save_mapimg_same_control w) |].
    constructor; [exact (sg_save_sanitycheck_same_control w) |].
    constructor. }
  destruct Hrun as (Hflag & Hscen & Hreason).
  change (sg_success (save_init file0 reason scen s0)) with true in Hflag.
  rewrite savegame2_save_real_unfold. unfold save_finish.
  rewrite Hflag. cbn [negb]. repeat split; assumption.
Qed.

Lemma save_succeeds_witness :
  sg_success (savegame2_save_real sample_game [] "sample" true blank_state)
  = true /\
  savegame2_save_real sample_game [] "sample" true blank_state
  = run_stages (top_stages sample_game)
      (save_init [] "sample" true blank_state) /\
  scenario (saving (savegame2_save_real sample_game [] "sample" true
                      blank_state)) = true /\
  save_reason (saving (savegame2_save_real sample_game [] "sample" true
                         blank_state)) = "sample".
Proof.
  apply (save_succeeds sample_game [] "sample" true blank_state);
    [reflexivity | simpl; lia | simpl; lia].
Defined.

(** ** A worklist table that is too long *)

(** X18: a worklist table longer than [MAX_LEN_WORKLIST]. [worklist_save]
    writes the length and the filled places and then stops at
    [fc_assert_ret(max_length <= MAX_LEN_WORKLIST)]: the assertion is
    logged, no padding is written, and the save is not marked failed. *)
Theorem worklist_save_overlong w pwl max_length path s :
  MAX_LEN_WORKLIST (cst w) < max_length ->
  worklist_save w pwl max_length path s =
  add_log (Log_assert "max_length <= MAX_LEN_WORKLIST")
    (add_entries
       ([(fc_snprintf 1024 path +:+ ".wl_length", VInt (wl_length pwl))] ++
        concat ((fun i =>
                   [(fc_snprintf 1024 path +:+ ".wl_kind" +:+ fmt_d i,
                     VStr (type_rule_name (worklist_entry pwl i)));
                    (fc_snprintf 1024 path +:+ ".wl_value" +:+ fmt_d i,
                     VStr (rule_name (worklist_entry pwl i)))])
                  <$> seqZ 0 (wl_length pwl)))
       s).
Proof.
  intros Hmax. unfold worklist_save, fn. cbv zeta.
  erewrite bind_next
    by (exact (eq_refl : secfile_insert_int _ _ s
                         = Next () (add_entries [(_, VInt _)] s))).
  erewrite bind_next
    by (apply (for_each_insert_pair _
                 (fun i => type_rule_name (worklist_entry pwl i))
                 (fun i => fc_snprintf 1024 path +:+ ".wl_kind" +:+ fmt_d i)
                 (fun i => rule_name (worklist_entry pwl i))
                 (fun i => fc_snprintf 1024 path +:+ ".wl_value" +:+ fmt_d i))).
  unfold fc_assert_ret.
  destruct (Z.leb_spec max_length (MAX_LEN_WORKLIST (cst w))); [lia |].
  rewrite add_entries_app. reflexivity.
Qed.

Lemma worklist_save_overlong_witness :
  worklist_save sample_game (sample_worklist ["Temple"]) 65 "player0.c0"
    (sample_state true) =
  add_log (Log_assert "max_length <= MAX_LEN_WORKLIST")
    (add_entries
       [("player0.c0.wl_length", VInt 1);
        ("player0.c0.wl_kind0", VStr "Building");
        ("player0.c0.wl_value0", VStr "Temple")]
       (sample_state true)).
Proof.
  apply (worklist_save_overlong sample_game (sample_worklist ["Temple"]) 65
           "player0.c0" (sample_state true)).
  simpl. lia.
Defined.

(** ** The line buffers of the owner and worked maps *)

Lemma map_token_length (id : option Z) :
  (1 <= String.length (map_token id) <= 9)%nat \/ map_token id = "".
Proof.
  destruct id as [n|]; [| left; simpl; lia].
  unfold map_token, fc_snprintf, TOKEN_SIZE. change (10 - 1)%nat with 9%nat.
  pose proof (substring_length (fmt_d n) 0 9).
  destruct (String.substring 0 9 (fmt_d n)) eqn:Hs; [right; reflexivity |].
  left. simpl in *. lia.
Qed.

(** X20: the tokens of the owner, source and worked lines. A number from 0
    to 999999999 is written in full, so that two such numbers with the same
    token are equal and none is taken for the ["-"] of "nobody"; whatever
    the number, a token has at most [TOKEN_SIZE - 1] characters. *)
Theorem map_token_exact :
  (forall n, 0 <= n < 10 ^ 9 -> map_token (Some n) = fmt_d n) /\
  (forall a b, 0 <= a < 10 ^ 9 -> 0 <= b < 10 ^ 9 ->
     map_token (Some a) = map_token (Some b) -> a = b) /\
  (forall n, 0 <= n < 10 ^ 9 -> map_token (Some n) <> map_token None) /\
  (forall id, (String.length (map_token id) <= 9)%nat).
Proof.
  assert (Hexact : forall n, 0 <= n < 10 ^ 9 -> map_token (Some n) = fmt_d n).
  { intros n Hn. unfold map_token, fc_snprintf, TOKEN_SIZE.
    apply substring_all. change (10 - 1)%nat with 9%nat.
    apply fmt_d_length_le; [exact Hn | lia]. }
  split; [exact Hexact |]. split; [| split].
  - intros a b Ha Hb Heq. rewrite !Hexact in Heq by assumption.
    unfold fmt_d in Heq. apply (inj pretty) in Heq. exact Heq.
  - intros n Hn Heq. rewrite Hexact in Heq by exact Hn.
    change (map_token None) with ("-" +:+ "") in Heq.
    unfold fmt_d, pretty, pretty_Z in Heq.
    destruct n as [|p|p]; [discriminate Heq | | lia].
    unfold pretty, pretty_positive, pretty, pretty_N in Heq.
    case_decide; [discriminate |].
    apply pretty_N_go_ne_dash in Heq; [exact Heq | discriminate].
  - intros id. destruct (map_token_length id) as [H | ->]; [lia | simpl; lia].
Qed.

Lemma map_token_exact_witness :
  map_token (Some 999999999) = fmt_d 999999999 /\
  map_token (Some 7) <> map_token None.
Proof.
  destruct map_token_exact as (Hexact & _ & Hdash & _).
  split; [apply (Hexact 999999999); lia | apply (Hdash 7); lia].
Defined.

Lemma concat_comma_length (l : list string) :
  (forall t, t ∈ l -> (String.length t <= 9)%nat) ->
  (String.length (String.concat "," l) + 1 <= 10 * length l
   \/ l = [])%nat.
Proof.
  induction l as [|t l IH]; intros Hl; [right; reflexivity |]. left.
  pose proof (Hl t ltac:(left)) as Ht.
  destruct l as [|t' l].
  - simpl. lia.
  - rewrite concat_cons_cons, !string_length_app.
    destruct IH as [IH | IH]; [| | discriminate IH].
    + intros t0 Ht0. apply Hl. right. exact Ht0.
    + cbn [length] in *. change (String.length ",") with 1%nat. lia.
Qed.

Lemma if_dash_length (b : bool) (id : option Z) :
  (String.length (if b then "-" else map_token id) <= 9)%nat.
Proof.
  destruct b; [simpl; lia |].
  destruct (map_token_length id) as [H | ->]; [lia | simpl; lia].
Qed.

(** X21: the line buffers of [map.xsize * TOKEN_SIZE] bytes. On a map with
    at least one column, a line of the owner map and of the source map is
    shorter than the buffer, so it fits with its terminator; a line of the
    worked map, which ends with a comma, is at most as long as the
    buffer. *)
Theorem map_lines_fit_buffer (w : world) (save_players : bool) (y : Z) :
  0 < xsize w ->
  Z.of_nat
    (String.length
       (strcat_line
          (fun x => if negb save_players then "-"
                    else map_token (t_owner (native_pos_to_tile w x y)))
          (fun x => x + 1 <? xsize w) (seqZ 0 (xsize w))))
  < xsize w * Z.of_nat TOKEN_SIZE /\
  Z.of_nat
    (String.length
       (strcat_line
          (fun x => map_token (t_claimer (native_pos_to_tile w x y)))
          (fun x => x + 1 <? xsize w) (seqZ 0 (xsize w))))
  < xsize w * Z.of_nat TOKEN_SIZE /\
  Z.of_nat
    (String.length
       (strcat_line
          (fun x => map_token (t_worked (native_pos_to_tile w x y)))
          (fun x => x <? xsize w) (seqZ 0 (xsize w))))
  <= xsize w * Z.of_nat TOKEN_SIZE.
Proof.
  intros HW. rewrite !owner_line_spec, worked_line_spec by exact HW.
  assert (Hlen : forall token : Z -> string,
            (forall x, (String.length (token x) <= 9)%nat) ->
            Z.of_nat (String.length
                        (String.concat "," (token <$> seqZ 0 (xsize w)))) + 1
            <= xsize w * 10).
  { intros token Htoken.
    destruct (concat_comma_length (token <$> seqZ 0 (xsize w))) as [H | H].
    - intros t Ht. apply list_elem_of_fmap in Ht as (x & -> & _). apply Htoken.
    - rewrite length_fmap, length_seqZ in H. lia.
    - apply (f_equal length) in H.
      rewrite length_fmap, length_seqZ in H. simpl in H. lia. }
  change (Z.of_nat TOKEN_SIZE) with 10.
  split; [| split].
  - pose proof (Hlen _ (fun x => if_dash_length (negb save_players)
                                   (t_owner (native_pos_to_tile w x y)))).
    lia.
  - pose proof (Hlen _ (fun x => if_dash_length false
                                   (t_claimer (native_pos_to_tile w x y)))).
    cbn [negb] in *. lia.
  - rewrite string_length_app.
    pose proof (Hlen _ (fun x => if_dash_length false
                                   (t_worked (native_pos_to_tile w x y)))).
    change (String.length ",") with 1%nat. cbn [negb] in *. lia.
Qed.

Lemma map_lines_fit_buffer_witness :
  Z.of_nat
    (String.length
       (strcat_line
          (fun x => if negb true then "-"
                    else map_token
                           (t_owner (native_pos_to_tile sample_game x 0)))
          (fun x => x + 1 <? xsize sample_game)
          (seqZ 0 (xsize sample_game))))
  < xsize sample_game * Z.of_nat TOKEN_SIZE /\
  Z.of_nat
    (String.length
       (strcat_line
          (fun x => map_token
                      (t_claimer (native_pos_to_tile sample_game x 0)))
          (fun x => x + 1 <? xsize sample_game)
          (seqZ 0 (xsize sample_game))))
  < xsize sample_game * Z.of_nat TOKEN_SIZE /\
  Z.of_nat
    (String.length
       (strcat_line
          (fun x => map_token
                      (t_worked (native_pos_to_tile sample_game x 0)))
          (fun x => x <? xsize sample_game)
          (seqZ 0 (xsize sample_game))))
  <= xsize sample_game * Z.of_nat TOKEN_SIZE.
Proof.
  apply (map_lines_fit_buffer sample_game true 0). simpl. lia.
Defined.

(** ** The options line *)

Global Instance keeps_options_preorder : PreOrder keeps_options.
Proof.
  split.
  - intros s. split; [reflexivity | intros v H; exact H].
  - intros s1 s2 s3 [H1 H1'] [H2 H2']. split; [congruence |].
    intros v H. apply H2', H1', H.
Qed.

Lemma keeps_options_same s s' :
  secfile_options (saving s') = secfile_options (saving s) ->
  sg_file s' = sg_file s -> keeps_options s s'.
Proof. intros Ho Hf. split; [exact Ho |]. intros v H. rewrite Hf. exact H. Qed.

Lemma modify_file_keeps_options (es : list entry) s :
  keeps_options s (set_saving (set_file (file (saving s) ++ es) (saving s)) s).
Proof.
  split; [reflexivity |]. intros v H.
  change (secfile_lookup (sg_file s ++ es) "savefile.options" = Some v).
  rewrite secfile_lookup_app, H. reflexivity.
Qed.

Lemma keeps_options_flag s : keeps_options s (set_success false s).
Proof. apply keeps_options_same; reflexivity. Qed.
Lemma keeps_options_log e s : keeps_options s (add_log e s).
Proof. apply keeps_options_same; reflexivity. Qed.
Lemma keeps_options_add es s : keeps_options s (add_entries es s).
Proof. apply modify_file_keeps_options. Qed.
Lemma keeps_options_players b s :
  keeps_options s (set_saving (set_save_players b (saving s)) s).
Proof. apply keeps_options_same; reflexivity. Qed.

Global Hint Resolve modify_file_keeps_options keeps_options_flag
  keeps_options_log keeps_options_add keeps_options_players : sg_leaf.

Lemma sg_save_scenario_keeps_options w s :
  keeps_options s (sg_save_scenario w s).
Proof. stage_respects keeps_options. Qed.
Lemma sg_save_game_keeps_options w s : keeps_options s (sg_save_game w s).
Proof. stage_respects keeps_options. Qed.
Lemma sg_save_random_keeps_options w s : keeps_options s (sg_save_random w s).
Proof. stage_respects keeps_options. Qed.
Lemma sg_save_script_keeps_options w s : keeps_options s (sg_save_script w s).
Proof. stage_respects keeps_options. Qed.
Lemma sg_save_settings_keeps_options w s :
  keeps_options s (sg_save_settings w s).
Proof. stage_respects keeps_options. Qed.
Lemma sg_save_map_tiles_keeps_options w s :
  keeps_options s (sg_save_map_tiles w s).
Proof. stage_respects keeps_options. Qed.
Lemma sg_save_map_startpos_keeps_options w s :
  keeps_options s (sg_save_map_startpos w s).
Proof. stage_respects keeps_options. Qed.
Lemma sg_save_map_tiles_bases_keeps_options w s :
  keeps_options s (sg_save_map_tiles_bases w s).
Proof. stage_respects keeps_options. Qed.
Lemma sg_save_map_tiles_roads_keeps_options w s :
  keeps_options s (sg_save_map_tiles_roads w s).
Proof. stage_respects keeps_options. Qed.
Lemma sg_save_map_tiles_specials_keeps_options w b s :
  keeps_options s (sg_save_map_tiles_specials w b s).
Proof. stage_respects keeps_options. Qed.
Lemma sg_save_map_tiles_resources_keeps_options w s :
  keeps_options s (sg_save_map_tiles_resources w s).
Proof. stage_respects keeps_options. Qed.
Lemma sg_save_map_owner_keeps_options w s :
  keeps_options s (sg_save_map_owner w s).
Proof. stage_respects keeps_options. Qed.
Lemma sg_save_map_worked_keeps_options w s :
  keeps_options s (sg_save_map_worked w s).
Proof. stage_respects keeps_options. Qed.
Lemma sg_save_map_known_keeps_options w s :
  keeps_options s (sg_save_map_known w s).
Proof. stage_respects keeps_options. Qed.
Lemma sg_save_mapimg_keeps_options w s :
  keeps_options s (sg_save_mapimg w s).
Proof. stage_respects keeps_options. Qed.
Lemma sg_save_sanitycheck_keeps_options w s :
  keeps_options s (sg_save_sanitycheck w s).
Proof.
  unfold sg_save_sanitycheck. apply (respects_fn keeps_options).
  apply (respects_sg_check_ret keeps_options).
Qed.
Lemma worklist_save_keeps_options w pwl max_length path s :
  keeps_options s (worklist_save w pwl max_length path s).
Proof. stage_respects keeps_options. Qed.
Lemma sg_save_player_main_keeps_options w plr s :
  keeps_options s (sg_save_player_main w plr s).
Proof. stage_respects keeps_options. Qed.
Lemma sg_save_player_cities_keeps_options w plr s :
  keeps_options s (sg_save_player_cities w plr s).
Proof.
  unfold sg_save_player_cities. cbv zeta. apply (respects_fn keeps_options).
  respects_tac. unfold sg_save_player_city. respects_tac.
  exact (worklist_save_keeps_options w _ _ _).
Qed.
Lemma sg_save_player_units_keeps_options w plr s :
  keeps_options s (sg_save_player_units w plr s).
Proof.
  unfold sg_save_player_units. apply (respects_fn keeps_options).
  respects_tac. unfold sg_save_player_unit. respects_tac.
Qed.
Lemma attribute_parts_keeps_options pl quoted nrs :
  forall quoted_at bytes_left,
    respects keeps_options
      (attribute_parts pl quoted nrs quoted_at bytes_left).
Proof.
  induction nrs as [|nr nrs IH]; intros quoted_at bytes_left;
    cbn [attribute_parts].
  - respects_tac.
  - cbv zeta. apply (respects_bind keeps_options); [respects_tac |].
    intros _. apply IH.
Qed.
Lemma sg_save_player_attributes_keeps_options w plr s :
  keeps_options s (sg_save_player_attributes w plr s).
Proof.
  unfold sg_save_player_attributes. cbv zeta.
  apply (respects_fn keeps_options).
  respects_tac; apply attribute_parts_keeps_options.
Qed.

Lemma sg_save_players_keeps_options w s :
  keeps_options s (sg_save_players w s).
Proof.
  apply (sg_save_players_respects keeps_options).
  - apply modify_file_keeps_options.
  - intros us s1. apply keeps_options_same; reflexivity.
  - apply sg_save_player_main_keeps_options.
  - apply sg_save_player_cities_keeps_options.
  - apply sg_save_player_units_keeps_options.
  - apply sg_save_player_attributes_keeps_options.
Qed.

Lemma secfile_lookup_replace (v : value) (path : string) (f : section_file) :
  secfile_lookup (secfile_replace v path f) path = Some v.
Proof.
  induction f as [|[p old] f IH]; cbn [secfile_replace secfile_lookup].
  - rewrite String.eqb_refl. reflexivity.
  - destruct (String.eqb p path) eqn:Hp; cbn [secfile_lookup]; rewrite Hp.
    + reflexivity.
    + exact IH.
Qed.

Lemma sg_save_savefile_options_written (o : string) (s : sg_state) :
  sg_success s = true ->
  sg_success (sg_save_savefile_options (Some o) s) = true /\
  secfile_options (saving (sg_save_savefile_options (Some o) s))
  = String.substring 0 511 (secfile_options (saving s) +:+ o) /\
  secfile_lookup (sg_file (sg_save_savefile_options (Some o) s))
    "savefile.options"
  = Some (VStr (String.substring 0 511 (secfile_options (saving s) +:+ o))).
Proof.
  intros Hok. unfold sg_save_savefile_options.
  rewrite fn_check_true by exact Hok.
  erewrite bind_next by reflexivity.
  erewrite bind_next by reflexivity.
  unfold secfile_replace_str, modify_file, modify. cbn [outcome_state].
  split; [exact Hok |]. split; [reflexivity |].
  unfold sg_file. cbn [saving set_saving file set_file].
  apply secfile_lookup_replace.
Qed.

Lemma sg_save_savefile_options_line (w : world) (s : sg_state) :
  sg_success s = true -> secfile_options (saving s) = "" ->
  sg_success (sg_save_savefile w s) = true /\
  secfile_options (saving (sg_save_savefile w s)) = " +version2" /\
  secfile_lookup (sg_file (sg_save_savefile w s)) "savefile.options"
  = Some (VStr " +version2").
Proof.
  intros Hok Hopt.
  destruct (sg_save_savefile_options_written savefile_options_default s Hok)
    as (Hok1 & Hopt1 & Hline1).
  rewrite Hopt in Hopt1, Hline1.
  change (String.substring 0 511 ("" +:+ savefile_options_default))
    with " +version2" in Hopt1, Hline1.
  unfold sg_save_savefile. rewrite fn_check_true by exact Hok.
  rewrite (bind_next (call _) _ s ()
             (sg_save_savefile_options (Some savefile_options_default) s))
    by reflexivity.
  match goal with
  | |- context [outcome_state (?rest ?s1)] =>
      assert (Hrest : respects keeps_options rest) by respects_tac;
      assert (Hrest' : respects same_control rest) by respects_tac;
      destruct (Hrest s1) as [Ho Hl]; destruct (Hrest' s1) as (Hf & _)
  end.
  split; [congruence |]. split; [congruence |]. apply Hl, Hline1.
Qed.

Global Hint Resolve sg_save_map_tiles_specials_keeps_options
  sg_save_map_tiles_resources_keeps_options sg_save_map_owner_keeps_options
  sg_save_map_worked_keeps_options sg_save_map_known_keeps_options : sg_leaf.

Lemma sg_save_map_options_line (w : world) (s : sg_state) :
  sg_success s = true -> secfile_options (saving s) = " +version2" ->
  map_is_empty w = false ->
  secfile_lookup (sg_file (sg_save_map w s)) "savefile.options"
  = Some (VStr " +version2 specials").
Proof.
  intros Hok Hopt Hempty. unfold sg_save_map.
  rewrite fn_check_true by exact Hok. rewrite Hempty.
  rewrite (bind_next (mret ()) _ s () s) by reflexivity.
  rewrite (bind_next get_state _ s s s) by reflexivity.
  set (s1 := add_entries [("map.have_huts", VBool true)] s).
  assert (Hhuts :
    (if scenario (saving s)
     then secfile_insert_bool true "map.have_huts"
     else secfile_insert_bool true "map.have_huts") s = Next () s1)
    by (destruct (scenario (saving s)); reflexivity).
  rewrite (bind_next _ _ s () s1 Hhuts).
  rewrite (bind_next (call _) _ s1 () (sg_save_map_tiles w s1))
    by reflexivity.
  set (s2 := sg_save_map_tiles w s1).
  rewrite (bind_next (call _) _ s2 () (sg_save_map_startpos w s2))
    by reflexivity.
  set (s3 := sg_save_map_startpos w s2).
  rewrite (bind_next (call _) _ s3 () (sg_save_map_tiles_bases w s3))
    by reflexivity.
  set (s4 := sg_save_map_tiles_bases w s3).
  rewrite (bind_next (call _) _ s4 () (sg_save_map_tiles_roads w s4))
    by reflexivity.
  set (s5 := sg_save_map_tiles_roads w s4).
  rewrite (bind_next (call _) _ s5 ()
             (sg_save_savefile_options (Some " specials") s5))
    by reflexivity.
  assert (H5 : sg_success s5 = true /\
               secfile_options (saving s5) = " +version2").
  { destruct (sg_save_map_tiles_same_control w s1) as (Hf2 & _).
    destruct (sg_save_map_startpos_same_control w s2) as (Hf3 & _).
    destruct (sg_save_map_tiles_bases_same_control w s3) as (Hf4 & _).
    destruct (sg_save_map_tiles_roads_same_control w s4) as (Hf5 & _).
    destruct (sg_save_map_tiles_keeps_options w s1) as (Ho2 & _).
    destruct (sg_save_map_startpos_keeps_options w s2) as (Ho3 & _).
    destruct (sg_save_map_tiles_bases_keeps_options w s3) as (Ho4 & _).
    destruct (sg_save_map_tiles_roads_keeps_options w s4) as (Ho5 & _).
    fold s2 in Hf2, Ho2. fold s3 in Hf3, Ho3. fold s4 in Hf4, Ho4.
    fold s5 in Hf5, Ho5.
    assert (Ho1 : secfile_options (saving s1) = " +version2") by exact Hopt.
    split; [| congruence].
    rewrite Hf5, Hf4, Hf3, Hf2. exact Hok. }
  destruct H5 as [Hok5 Hopt5].
  destruct (sg_save_savefile_options_written " specials" s5 Hok5)
    as (_ & _ & Hline).
  rewrite Hopt5 in Hline.
  change (String.substring 0 511 (" +version2" +:+ " specials"))
    with " +version2 specials" in Hline.
  match goal with
  | |- context [outcome_state (?rest ?s6)] =>
      assert (Hrest : respects keeps_options rest)
        by (respects_tac; sg_leaf);
      destruct (Hrest s6) as [_ Hl]
  end.
  apply Hl, Hline.
Qed.

Lemma sg_save_map_empty (w : world) (s : sg_state) :
  map_is_empty w = true -> sg_save_map w s = s.
Proof.
  intros Hempty. unfold sg_save_map.
  destruct (sg_success s) eqn:Hok;
    [| apply fn_check_false; exact Hok].
  rewrite fn_check_true by exact Hok. rewrite Hempty. reflexivity.
Qed.

(** X22: the options line of a saved game. After [savegame2_save_real],
    whatever the file held and whether or not a later stage failed, a
    lookup of ["savefile.options"] finds [" +version2"] when the map is
    empty and [" +version2 specials"] otherwise. *)
Theorem savefile_options_line (w : world) (file0 : section_file)
        (reason : string) (scen : bool) (s0 : sg_state) :
  secfile_lookup (sg_file (savegame2_save_real w file0 reason scen s0))
    "savefile.options"
  = Some (VStr (if map_is_empty w then " +version2"
                else " +version2 specials")).
Proof.
  rewrite savegame2_save_real_unfold.
  unfold run_stages, top_stages. cbn [foldl].
  set (s := save_init file0 reason scen s0).
  set (s1 := sg_save_scenario w s).
  set (s2 := sg_save_savefile w s1).
  set (s3 := sg_save_game w s2).
  set (s4 := sg_save_random w s3).
  set (s5 := sg_save_script w s4).
  set (s6 := sg_save_settings w s5).
  set (s7 := sg_save_map w s6).
  set (s8 := sg_save_players w s7).
  set (s9 := sg_save_mapimg w s8).
  set (s10 := sg_save_sanitycheck w s9).
  assert (H1 : sg_success s1 = true /\ secfile_options (saving s1) = "").
  { destruct (sg_save_scenario_same_control w s) as (Hf & _).
    destruct (sg_save_scenario_keeps_options w s) as (Ho & _).
    fold s1 in Hf, Ho. split; [rewrite Hf | rewrite Ho]; reflexivity. }
  destruct H1 as [Hok1 Hopt1].
  destruct (sg_save_savefile_options_line w s1 Hok1 Hopt1)
    as (Hok2 & Hopt2 & Hline2).
  fold s2 in Hok2, Hopt2, Hline2.
  assert (H6 : sg_success s6 = true /\
               secfile_options (saving s6) = " +version2" /\
               secfile_lookup (sg_file s6) "savefile.options"
               = Some (VStr " +version2")).
  { destruct (sg_save_game_same_control w s2) as (Hf3 & _).
    destruct (sg_save_random_same_control w s3) as (Hf4 & _).
    destruct (sg_save_script_same_control w s4) as (Hf5 & _).
    destruct (sg_save_settings_same_control w s5) as (Hf6 & _).
    destruct (sg_save_game_keeps_options w s2) as (Ho3 & Hl3).
    destruct (sg_save_random_keeps_options w s3) as (Ho4 & Hl4).
    destruct (sg_save_script_keeps_options w s4) as (Ho5 & Hl5).
    destruct (sg_save_settings_keeps_options w s5) as (Ho6 & Hl6).
    fold s3 in Hf3, Ho3, Hl3, Hl4. fold s4 in Hf4, Ho4, Hl4, Hl5.
    fold s5 in Hf5, Ho5, Hl5, Hl6. fold s6 in Hf6, Ho6, Hl6.
    split; [| split].
    - rewrite Hf6, Hf5, Hf4, Hf3. exact Hok2.
    - congruence.
    - apply Hl6, Hl5, Hl4, Hl3, Hline2. }
  destruct H6 as (Hok6 & Hopt6 & Hline6).
  assert (H7 : secfile_lookup (sg_file s7) "savefile.options"
               = Some (VStr (if map_is_empty w then " +version2"
                             else " +version2 specials"))).
  { unfold s7. destruct (map_is_empty w) eqn:Hempty.
    - rewrite sg_save_map_empty by exact Hempty. exact Hline6.
    - apply sg_save_map_options_line; assumption. }
  destruct (sg_save_players_keeps_options w s7) as (_ & Hl8).
  destruct (sg_save_mapimg_keeps_options w s8) as (_ & Hl9).
  destruct (sg_save_sanitycheck_keeps_options w s9) as (_ & Hl10).
  fold s8 in Hl8, Hl9. fold s9 in Hl9, Hl10. fold s10 in Hl10.
  unfold save_finish.
  destruct (negb (sg_success s10));
    [change (sg_file (add_log Log_failure_saving s10)) with (sg_file s10) |];
    apply Hl10, Hl9, Hl8, H7.
Qed.
